(** * Coordination and reliable-delivery layer of the abuse-detection system

    A shallow embedding of the Redis-backed rate limiter and lock
    ([CacheManager]) and of the Kafka producer / consumer managers, with the
    properties of their specification stated and proved over it.

    Conventions of the embedding.
    - An [async] method is a state-and-exception computation [Async S A]:
      it maps the state of the process and of the external service to an
      outcome ([Returns a] or [Throws e]) and a new state.  One method runs
      without interleaving; the races of concurrent callers are not modelled.
    - A JavaScript [number] argument is a rational ([Q]), and [JSNumber]
      adds the infinities and [NaN].  In [CacheManager] the arithmetic of
      the limiter is exact; the statements made on it are about failures,
      keys and commands.  The limiter is embedded a second time, in
      [Limiter], with every operation rounded to the nearest double as the
      runtime does; the statements about amounts of tokens and times to
      live are made there.  [Date.now()] is an integer number of
      milliseconds.
    - Redis and the Kafka broker are external: their commands are modelled
      from their documented behaviour, and every command can fail according
      to a fault script carried by the state. *)

From Stdlib Require Import ZArith QArith Qround Qminmax Qabs Qreduction Lia Lqa.
From Stdlib Require Import Ascii HexString.
From stdpp Require Import base option list gmap strings.
From Stdlib Require DecimalString DecimalZ DecimalPos.

Local Open Scope string_scope.
Local Open Scope Z_scope.

(** ** JavaScript values shared by the three managers *)

(** An [Error] object: the fields the source reads, with the [code] of a
    [DatabaseError] and the [topic] of a [KafkaError] ([None] when the
    object has none). *)
Module Err.
Record JSError := mk {
  name : string;
  message : string;
  stack : string;
  code : option string;
  topic : option string
}.
End Err.
Abbreviation JSError := Err.JSError.

(** [new DatabaseError(message, code?)] and [new KafkaError(message, topic?)]
    of [internal/types]: subclasses of [Error] that set [this.name].  The
    captured stack trace is left empty. *)
Definition DatabaseError (msg : string) (code : option string) : JSError :=
  Err.mk "DatabaseError" msg "" code None.

Definition KafkaError (msg : string) (topic : option string) : JSError :=
  Err.mk "KafkaError" msg "" None topic.

(** The outcome of awaiting a promise. *)
Inductive Outcome (A : Type) : Type :=
| Returns (a : A)
| Throws (e : JSError).
Arguments Returns {A} a.
Arguments Throws {A} e.

Definition Async (S A : Type) : Type := S → Outcome A * S.

Definition ret {S A} (a : A) : Async S A := λ s, (Returns a, s).

Definition throw {S A} (e : JSError) : Async S A := λ s, (Throws e, s).

Definition bind {S A B} (m : Async S A) (k : A → Async S B) : Async S B :=
  λ s, match m s with
       | (Returns a, s') => k a s'
       | (Throws e, s') => (Throws e, s')
       end.

(** [try { body } catch (error) { handler }] *)
Definition tryCatch {S A} (body : Async S A) (handler : JSError → Async S A)
  : Async S A :=
  λ s, match body s with
       | (Returns a, s') => (Returns a, s')
       | (Throws e, s') => handler e s'
       end.

Notation "x <- m ;; k" := (bind m (λ x, k))
  (at level 100, m at next level, right associativity, only parsing).
Notation "m ;;; k" := (bind m (λ _, k))
  (at level 100, right associativity, only parsing).

(** The winston logger: what is kept of an event is its level and message. *)
Inductive Level := Debug | Info | Warn | Error.

Record LogEntry := mkLog { level : Level; text : string }.

#[global] Instance Level_eq_dec : EqDecision Level.
Proof. solve_decision. Defined.

#[global] Instance LogEntry_eq_dec : EqDecision LogEntry.
Proof. solve_decision. Defined.

(** A JavaScript number that may have left the finite ones. *)
Inductive JSNumber :=
| Finite (q : Q)
| PosInfinity
| NegInfinity
| NaN.

(** [a / b] on finite numbers. *)
Definition js_div (a b : Q) : JSNumber :=
  if Qeq_bool b 0 then
    if Qeq_bool a 0 then NaN
    else if Qle_bool 0 a then PosInfinity else NegInfinity
  else Finite (a / b).

(** [Math.ceil(x)] *)
Definition Math_ceil (x : JSNumber) : JSNumber :=
  match x with
  | Finite q => Finite (inject_Z (Qceiling q))
  | other => other
  end.

(** [x * k] for a finite positive constant [k]. *)
Definition js_times (x : JSNumber) (k : Q) : JSNumber :=
  match x with
  | Finite q => Finite (q * k)
  | other => other
  end.

(** Truthiness of a number: [0] and [NaN] are falsy. *)
Definition truthy_number (x : JSNumber) : bool :=
  match x with
  | Finite q => negb (Qeq_bool q 0)
  | NaN => false
  | _ => true
  end.

(** [x > 0] *)
Definition js_gt0 (x : JSNumber) : bool :=
  match x with
  | Finite q => negb (Qle_bool q 0)
  | PosInfinity => true
  | _ => false
  end.

(** Truthiness of a string: only the empty string is falsy. *)
Definition truthy_string (s : string) : bool :=
  match s with
  | EmptyString => false
  | _ => true
  end.

(** ** The Redis server and its client (external) *)

Module Redis.

(** A key holds a string and, when it has a time to live, the instant (in
    milliseconds) at which it expires. *)
Record Entry := mkEntry {
  value : string;
  expireAt : option Z
}.

(** The commands the cache manager sends. *)
Inductive Command :=
| GET (key : string)
| SET (key value : string)
| SETEX (key : string) (seconds : JSNumber) (value : string)
| SET_EX_NX (key value : string) (seconds : Q)
| EVAL_compare_and_delete (key arg : string).

(** The state seen by the cache manager: the keyspace, the clock (one
    clock for [Date.now()] and for the expiry of keys), the script of
    coming faults (one flag per command issued, [true] when the command
    fails for want of a connection; an empty script is a healthy server),
    the commands issued so far and the log, both newest first. *)
Record World := mkWorld {
  keyspace : gmap string Entry;
  clock : Z;
  faults : list bool;
  sent : list Command;
  log : list LogEntry
}.

Definition with_keyspace (ks : gmap string Entry) (w : World) : World :=
  {| keyspace := ks; clock := clock w; faults := faults w;
     sent := sent w; log := log w |}.

Definition with_faults (fs : list bool) (w : World) : World :=
  {| keyspace := keyspace w; clock := clock w; faults := fs;
     sent := sent w; log := log w |}.

Definition with_sent (cs : list Command) (w : World) : World :=
  {| keyspace := keyspace w; clock := clock w; faults := faults w;
     sent := cs; log := log w |}.

Definition with_log (l : list LogEntry) (w : World) : World :=
  {| keyspace := keyspace w; clock := clock w; faults := faults w;
     sent := sent w; log := l |}.

Definition with_clock (t : Z) (w : World) : World :=
  {| keyspace := keyspace w; clock := t; faults := faults w;
     sent := sent w; log := log w |}.

(** A key whose expiry instant has passed is gone. *)
Definition live (now : Z) (e : Entry) : bool :=
  match expireAt e with
  | None => true
  | Some t => now <=? t
  end.

Definition lookup (w : World) (key : string) : option Entry :=
  match keyspace w !! key with
  | Some e => if live (clock w) e then Some e else None
  | None => None
  end.

(** A time to live is accepted when it is a positive integer. *)
Definition valid_seconds (q : Q) : bool :=
  Qeq_bool q (inject_Z (Qfloor q)) && negb (Qle_bool q 0).

Definition connection_error : JSError :=
  Err.mk "Error" "The client is closed" "" None None.

Definition reply_error : JSError :=
  Err.mk "ReplyError" "ERR value is not an integer or out of range" ""
    None None.

(** Sending a command: it is recorded, the next fault flag is consumed,
    and the command runs on the server unless the flag says it fails. *)
Definition send {A} (c : Command) (run : Async World A) : Async World A :=
  λ w, let w1 := with_sent (c :: sent w) w in
       match faults w with
       | true :: fs => (Throws connection_error, with_faults fs w1)
       | false :: fs => run (with_faults fs w1)
       | [] => run w1
       end.

(** [client.get(key)]: the string, or [null] ([None]). *)
Definition client_get (key : string) : Async World (option string) :=
  send (GET key) (λ w, (Returns (value <$> lookup w key), w)).

(** [client.set(key, value)]: no time to live. *)
Definition client_set (key val : string) : Async World unit :=
  send (SET key val)
    (λ w, (Returns tt,
           with_keyspace (<[key := mkEntry val None]> (keyspace w)) w)).

(** [client.setEx(key, seconds, value)] *)
Definition client_setEx (key : string) (seconds : JSNumber) (val : string)
  : Async World unit :=
  send (SETEX key seconds val)
    (λ w, match seconds with
          | Finite q =>
              if valid_seconds q then
                (Returns tt,
                 with_keyspace
                   (<[key := mkEntry val (Some (clock w + 1000 * Qfloor q))]>
                      (keyspace w)) w)
              else (Throws reply_error, w)
          | _ => (Throws reply_error, w)
          end).

(** [client.set(key, value, { EX: seconds, NX: true })]: ['OK'] when the key
    was created, [null] when a live key is in the way. *)
Definition client_set_EX_NX (key val : string) (seconds : Q)
  : Async World (option string) :=
  send (SET_EX_NX key val seconds)
    (λ w, if valid_seconds seconds then
            match lookup w key with
            | Some _ => (Returns None, w)
            | None =>
                (Returns (Some "OK"),
                 with_keyspace
                   (<[key := mkEntry val
                               (Some (clock w + 1000 * Qfloor seconds))]>
                      (keyspace w)) w)
            end
          else (Throws reply_error, w)).

(** [client.eval(luaScript, { keys: [key], arguments: [arg] })] for the
    script of [releaseLock]:
    [if redis.call("GET", KEYS[1]) == ARGV[1] then
       return redis.call("DEL", KEYS[1]) else return 0 end] *)
Definition client_eval_luaScript (key arg : string) : Async World Z :=
  send (EVAL_compare_and_delete key arg)
    (λ w, match lookup w key with
          | Some e =>
              if decide (value e = arg) then
                (Returns 1, with_keyspace (delete key (keyspace w)) w)
              else (Returns 0, w)
          | None => (Returns 0, w)
          end).

End Redis.

(** ** internal/cache: the cache manager *)

(** The state of a token bucket as it is kept under [rate_limit:<id>]. *)
Record Bucket := mkBucket {
  tokens : Q;
  lastRefill : Q
}.

(** [JSON.stringify] and [JSON.parse] on bucket states (external).
    [JSON_parse s = None] stands for a stored string on which
    [JSON.parse(s)] raises; [Some b] for a string that parses to an object
    whose [tokens] and [lastRefill] are the numbers of [b].  Stored strings
    that parse to a value of another shape are outside the embedding.  What
    [JSON.stringify] writes is never empty and parses back to what was
    written. *)
Class BucketJSON := {
  JSON_stringify : Bucket → string;
  JSON_parse : string → option Bucket;
  JSON_parse_stringify : ∀ b, JSON_parse (JSON_stringify b) = Some b;
  JSON_stringify_truthy : ∀ b, truthy_string (JSON_stringify b) = true
}.

(** [configManager.getRedisConfig()]: the fields the cache manager reads. *)
Record RedisConfig := mkRedisConfig {
  keyPrefix : string;
  ttl : Z
}.

Module CacheManager.
Import Redis.

Section WithConfig.
Context (redisConfig : RedisConfig) {json : BucketJSON}.

Definition logger (lv : Level) (msg : string) : Async World unit :=
  λ w, (Returns tt, with_log (mkLog lv msg :: log w) w).

Definition Date_now : Async World Z := λ w, (Returns (clock w), w).

Definition syntax_error : JSError :=
  Err.mk "SyntaxError" "Unexpected token in JSON" "" None None.

(** [set(key, value, ttlSeconds?)] *)
Definition set (key val : string) (ttlSeconds : option JSNumber)
  : Async World unit :=
  let prefixedKey := keyPrefix redisConfig +:+ key in
  let ttl :=
    match ttlSeconds with
    | Some n => if truthy_number n then n
                else Finite (inject_Z (ttl redisConfig))
    | None => Finite (inject_Z (ttl redisConfig))
    end in
  tryCatch
    ((if js_gt0 ttl then client_setEx prefixedKey ttl val
      else client_set prefixedKey val) ;;;
     logger Debug "Cache value set successfully")
    (λ error,
       logger Error "Failed to set cache value" ;;;
       throw (DatabaseError ("Failed to set cache value for key " +:+ key)
                None)).

(** [get(key)] *)
Definition get (key : string) : Async World (option string) :=
  let prefixedKey := keyPrefix redisConfig +:+ key in
  tryCatch
    (value <- client_get prefixedKey ;;
     logger Debug "Cache value retrieved" ;;;
     ret value)
    (λ error,
       logger Error "Failed to get cache value" ;;;
       throw (DatabaseError ("Failed to get cache value for key " +:+ key)
                None)).

(** The time to live given to a bucket:
    [Math.ceil(maxTokens / refillRate) * 2]. *)
Definition bucket_ttl (maxTokens refillRate : Q) : JSNumber :=
  js_times (Math_ceil (js_div maxTokens refillRate)) 2.

(** The body of the [if (bucketData)] branch: parse, then refill. *)
Definition refill (bucketData : string) (now : Z) (maxTokens refillRate : Q)
  : Async World Q :=
  match JSON_parse bucketData with
  | None => throw syntax_error
  | Some parsed =>
      let tokens := tokens parsed in
      let lastRefill := lastRefill parsed in
      let timeElapsed := ((inject_Z now - lastRefill) / 1000)%Q in
      let tokensToAdd := Qfloor (timeElapsed * refillRate) in
      ret (Qmin maxTokens (tokens + inject_Z tokensToAdd))
  end.

(** [rateLimitCheck(identifier, maxTokens, refillRate, tokensRequested)];
    a caller that leaves [tokensRequested] out passes [1]. *)
Definition rateLimitCheck (identifier : string)
    (maxTokens refillRate tokensRequested : Q) : Async World bool :=
  let key := "rate_limit:" +:+ identifier in
  now <- Date_now ;;
  tryCatch
    (bucketData <- get key ;;
     tokens <-
       match bucketData with
       | Some data =>
           if truthy_string data then refill data now maxTokens refillRate
           else ret maxTokens
       | None => ret maxTokens
       end ;;
     if Qle_bool tokensRequested tokens then
       let tokens := (tokens - tokensRequested)%Q in
       set key
         (JSON_stringify {| tokens := tokens; lastRefill := inject_Z now |})
         (Some (bucket_ttl maxTokens refillRate)) ;;;
       logger Debug "Rate limit check passed" ;;;
       ret true
     else
       logger Debug "Rate limit check failed" ;;;
       ret false)
    (λ error,
       logger Error "Rate limit check failed" ;;;
       ret true).

(** [acquireLock(lockKey, ttlSeconds, lockValue)] *)
Definition acquireLock (lockKey : string) (ttlSeconds : Q)
    (lockValue : string) : Async World bool :=
  let prefixedKey := keyPrefix redisConfig +:+ "lock:" +:+ lockKey in
  tryCatch
    (result <- client_set_EX_NX prefixedKey lockValue ttlSeconds ;;
     let acquired := bool_decide (result = Some "OK") in
     logger Debug "Distributed lock acquisition attempt" ;;;
     ret acquired)
    (λ error,
       logger Error "Failed to acquire distributed lock" ;;;
       ret false).

(** [releaseLock(lockKey, lockValue)] *)
Definition releaseLock (lockKey lockValue : string) : Async World bool :=
  let prefixedKey := keyPrefix redisConfig +:+ "lock:" +:+ lockKey in
  tryCatch
    (result <- client_eval_luaScript prefixedKey lockValue ;;
     let released := bool_decide (result = 1) in
     logger Debug "Distributed lock release attempt" ;;;
     ret released)
    (λ error,
       logger Error "Failed to release distributed lock" ;;;
       ret false).

End WithConfig.
End CacheManager.

(** A concrete serialisation of bucket states, to run the model on: a
    bucket is written as the hexadecimal numeral of its code.  It stands in
    for the JSON text, of which only the two laws of [BucketJSON] matter. *)
#[global] Instance Q_eq_dec : EqDecision Q.
Proof. solve_decision. Defined.

#[global] Instance Q_countable : Countable Q :=
  inj_countable' (λ q, (Qnum q, Qden q)) (λ p, Qmake p.1 p.2)
    (λ q, match q with Qmake _ _ => eq_refl end).

#[global] Instance Bucket_eq_dec : EqDecision Bucket.
Proof. solve_decision. Defined.

#[global] Instance Bucket_countable : Countable Bucket :=
  inj_countable' (λ b, (tokens b, lastRefill b)) (λ p, mkBucket p.1 p.2)
    (λ b, match b with mkBucket _ _ => eq_refl end).

Definition hex_stringify (b : Bucket) : string :=
  HexString.of_pos (encode b).

Definition hex_parse (s : string) : option Bucket :=
  match s with
  | String "0"%char (String "x"%char _) => decode (HexString.to_pos s)
  | _ => None
  end.

#[global] Instance hex_json : BucketJSON.
Proof.
  refine {| JSON_stringify := hex_stringify; JSON_parse := hex_parse |}.
  - intros b. unfold hex_parse, hex_stringify.
    change (decode (HexString.to_pos (HexString.of_pos (encode b))) = Some b).
    rewrite HexString.to_pos_of_pos. apply decode_encode.
  - intros b. reflexivity.
Defined.

(** ** The Kafka broker and the kafkajs clients (external) *)

Module Kafka.

(** A message as the consumer receives it: [key] and [value] are buffers
    or [null], here the text they hold. *)
Record KafkaMessage := mkKafkaMessage {
  key : option string;
  value : option string;
  offset : string;
  headers : list (string * string)
}.

Record EachMessagePayload := mkPayload {
  topic : string;
  partition : Z;
  message : KafkaMessage
}.

(** The object built by [handleFailedMessage]. *)
Record OriginalMessage := mkOriginal {
  o_topic : string;
  o_partition : Z;
  o_offset : string;
  o_key : option string;
  o_value : option string;
  o_headers : list (string * string)
}.

(** A content event and a moderation result, as far as the producer
    reads them; [fields] are the members spread into the envelope. *)
Record IContentEvent := mkContentEvent {
  id : string;
  userId : string;
  contentType : string;
  timestamp : Z;
  fields : list (string * string)
}.

Record ModerationObject := mkModeration {
  contentId : string;
  members : list (string * string)
}.

(** The [error] member of a dead-letter envelope. *)
Record ErrorObject := mkErrorObject {
  e_message : string;
  e_stack : string;
  e_name : string
}.

(** The envelope of a dead-letter record, before [JSON.stringify]. *)
Record DeadLetterEnvelope := mkEnvelope {
  originalMessage : OriginalMessage;
  error : ErrorObject;
  failedAt : string;
  messageId : string
}.

(** The [value] of a published message, before [JSON.stringify]. *)
Inductive Envelope :=
| ContentEnvelope (event : IContentEvent) (messageId publishedAt : string)
| ObjectEnvelope (object : ModerationObject) (messageId publishedAt : string)
| DeadLetter (envelope : DeadLetterEnvelope).

Record ProducerMessage := mkMessage {
  m_key : string;
  m_value : Envelope;
  m_headers : list (string * string)
}.

Record ProducerRecord := mkRecord {
  r_topic : string;
  messages : list ProducerMessage
}.

Record RecordMetadata := mkMetadata {
  topicName : string;
  baseOffset : Z
}.

(** A handler registered by [subscribe]: it resolves or rejects; its own
    effects are outside the state modelled here. *)
Definition Handler : Type := EachMessagePayload → Outcome unit.

(** The state seen by the two managers: their [isConnected] flags, the
    handler table of the consumer, the records the broker accepted (newest
    first), the topics subscribed and whether the runner was started, the
    script of coming broker faults (as for Redis), the number of UUIDs
    drawn, the clock and the log. *)
Record World := mkWorld {
  producerConnected : bool;
  consumerConnected : bool;
  messageHandlers : gmap string Handler;
  accepted : list ProducerRecord;
  subscribed : list string;
  running : bool;
  faults : list bool;
  drawn : nat;
  clock : Z;
  log : list LogEntry
}.

Definition with_messageHandlers (hs : gmap string Handler) (w : World)
  : World :=
  {| producerConnected := producerConnected w;
     consumerConnected := consumerConnected w;
     messageHandlers := hs; accepted := accepted w;
     subscribed := subscribed w; running := running w;
     faults := faults w; drawn := drawn w; clock := clock w;
     log := log w |}.

Definition with_accepted (rs : list ProducerRecord) (w : World) : World :=
  {| producerConnected := producerConnected w;
     consumerConnected := consumerConnected w;
     messageHandlers := messageHandlers w; accepted := rs;
     subscribed := subscribed w; running := running w;
     faults := faults w; drawn := drawn w; clock := clock w;
     log := log w |}.

Definition with_subscribed (ts : list string) (w : World) : World :=
  {| producerConnected := producerConnected w;
     consumerConnected := consumerConnected w;
     messageHandlers := messageHandlers w; accepted := accepted w;
     subscribed := ts; running := running w;
     faults := faults w; drawn := drawn w; clock := clock w;
     log := log w |}.

Definition with_running (b : bool) (w : World) : World :=
  {| producerConnected := producerConnected w;
     consumerConnected := consumerConnected w;
     messageHandlers := messageHandlers w; accepted := accepted w;
     subscribed := subscribed w; running := b;
     faults := faults w; drawn := drawn w; clock := clock w;
     log := log w |}.

Definition with_faults (fs : list bool) (w : World) : World :=
  {| producerConnected := producerConnected w;
     consumerConnected := consumerConnected w;
     messageHandlers := messageHandlers w; accepted := accepted w;
     subscribed := subscribed w; running := running w;
     faults := fs; drawn := drawn w; clock := clock w;
     log := log w |}.

Definition with_drawn (n : nat) (w : World) : World :=
  {| producerConnected := producerConnected w;
     consumerConnected := consumerConnected w;
     messageHandlers := messageHandlers w; accepted := accepted w;
     subscribed := subscribed w; running := running w;
     faults := faults w; drawn := n; clock := clock w;
     log := log w |}.

Definition with_log (l : list LogEntry) (w : World) : World :=
  {| producerConnected := producerConnected w;
     consumerConnected := consumerConnected w;
     messageHandlers := messageHandlers w; accepted := accepted w;
     subscribed := subscribed w; running := running w;
     faults := faults w; drawn := drawn w; clock := clock w;
     log := l |}.

Definition logger (lv : Level) (msg : string) : Async World unit :=
  λ w, (Returns tt, with_log (mkLog lv msg :: log w) w).

Definition broker_error : JSError :=
  Err.mk "KafkaJSConnectionError" "Connection error" "" None None.

(** A request to the broker: the next fault flag is consumed, and the
    request is served unless the flag says it fails. *)
Definition request {A} (serve : Async World A) : Async World A :=
  λ w, match faults w with
       | true :: fs => (Throws broker_error, with_faults fs w)
       | false :: fs => serve (with_faults fs w)
       | [] => serve w
       end.

(** [producer.send(record)] *)
Definition producer_send (record : ProducerRecord)
  : Async World (list RecordMetadata) :=
  request
    (λ w, (Returns [mkMetadata (r_topic record)
                      (Z.of_nat (length (accepted w)))],
           with_accepted (record :: accepted w) w)).

(** [consumer.subscribe({ topic, fromBeginning: false })] *)
Definition consumer_subscribe (t : string) : Async World unit :=
  request (λ w, (Returns tt, with_subscribed (t :: subscribed w) w)).

(** [consumer.run({ eachMessage })]: starts the runner, which from then
    on calls [eachMessage] on every message fetched. *)
Definition consumer_run : Async World unit :=
  request (λ w, (Returns tt, with_running true w)).

(** The topic names of [configManager.getKafkaConfig().topics]. *)
Record IKafkaTopics := mkTopics {
  rawContent : string;
  moderationResults : string;
  flaggedContent : string;
  deadLetter : string
}.

(** What the JavaScript runtime supplies: the text of the [n]-th UUID that
    [uuidv4()] returns, and [Date.prototype.toISOString]. *)
Record Runtime := mkRuntime {
  uuid_text : nat → string;
  toISOString : Z → string
}.

End Kafka.

(** ** internal/kafka/producer: the producer manager *)

Module KafkaProducerManager.
Import Kafka.

Section WithConfig.
Context (topics : IKafkaTopics) (runtime : Runtime).

(** [uuidv4()] *)
Definition uuidv4 : Async World string :=
  λ w, (Returns (uuid_text runtime (drawn w)), with_drawn (S (drawn w)) w).

(** [new Date().toISOString()] *)
Definition new_Date_toISOString : Async World string :=
  λ w, (Returns (toISOString runtime (clock w)), w).

(** [sendMessage(topic, message)] *)
Definition sendMessage (topic : string) (message : ProducerMessage)
  : Async World (list RecordMetadata) :=
  λ w,
    if negb (producerConnected w) then
      throw (KafkaError "Producer is not connected to Kafka cluster" None) w
    else
      let record := {| r_topic := topic; messages := [message] |} in
      tryCatch
        (result <- producer_send record ;;
         ret result)
        (λ error,
           logger Error "Failed to send message to Kafka" ;;;
           throw (KafkaError ("Failed to send message to topic " +:+ topic)
                    (Some topic)))
        w.

(** [publishContentEvent(contentEvent)] *)
Definition publishContentEvent (contentEvent : IContentEvent)
  : Async World (list RecordMetadata) :=
  messageId <- uuidv4 ;;
  publishedAt <- new_Date_toISOString ;;
  let message :=
    {| m_key := userId contentEvent;
       m_value := ContentEnvelope contentEvent messageId publishedAt;
       m_headers :=
         [("messageId", messageId);
          ("contentType", contentType contentEvent);
          ("userId", userId contentEvent);
          ("timestamp", toISOString runtime (timestamp contentEvent))] |} in
  tryCatch
    (result <- sendMessage (rawContent topics) message ;;
     logger Info "Content event published successfully" ;;;
     ret result)
    (λ error,
       logger Error "Failed to publish content event" ;;;
       throw error).

(** [publishModerationResult(moderationResult)] *)
Definition publishModerationResult (moderationResult : ModerationObject)
  : Async World (list RecordMetadata) :=
  messageId <- uuidv4 ;;
  publishedAt <- new_Date_toISOString ;;
  timestamp <- new_Date_toISOString ;;
  let message :=
    {| m_key := contentId moderationResult;
       m_value := ObjectEnvelope moderationResult messageId publishedAt;
       m_headers := [("messageId", messageId); ("timestamp", timestamp)] |} in
  tryCatch
    (result <- sendMessage (moderationResults topics) message ;;
     logger Info "Moderation result published successfully" ;;;
     ret result)
    (λ error,
       logger Error "Failed to publish moderation result" ;;;
       throw error).

(** [publishFlaggedContent(flaggedContent)] *)
Definition publishFlaggedContent (flaggedContent : ModerationObject)
  : Async World (list RecordMetadata) :=
  messageId <- uuidv4 ;;
  publishedAt <- new_Date_toISOString ;;
  timestamp <- new_Date_toISOString ;;
  let message :=
    {| m_key := contentId flaggedContent;
       m_value := ObjectEnvelope flaggedContent messageId publishedAt;
       m_headers := [("messageId", messageId); ("timestamp", timestamp)] |} in
  tryCatch
    (result <- sendMessage (Kafka.flaggedContent topics) message ;;
     logger Info "Flagged content published successfully" ;;;
     ret result)
    (λ error,
       logger Error "Failed to publish flagged content" ;;;
       throw error).

(** [originalMessage.key || 'unknown'] *)
Definition key_or_unknown (k : option string) : string :=
  match k with
  | Some s => if truthy_string s then s else "unknown"
  | None => "unknown"
  end.

(** [sendToDeadLetter(originalMessage, processingError)] *)
Definition sendToDeadLetter (originalMessage : OriginalMessage)
    (processingError : JSError) : Async World (list RecordMetadata) :=
  messageId <- uuidv4 ;;
  failedAt <- new_Date_toISOString ;;
  timestamp <- new_Date_toISOString ;;
  let deadLetterMessage :=
    {| m_key := key_or_unknown (o_key originalMessage);
       m_value :=
         DeadLetter
           {| originalMessage := originalMessage;
              error :=
                {| e_message := Err.message processingError;
                   e_stack := Err.stack processingError;
                   e_name := Err.name processingError |};
              failedAt := failedAt;
              messageId := messageId |};
       m_headers :=
         [("messageId", messageId);
          ("originalTopic", "unknown");
          ("failureReason", Err.name processingError);
          ("timestamp", timestamp)] |} in
  tryCatch
    (result <- sendMessage (deadLetter topics) deadLetterMessage ;;
     logger Warn "Message sent to dead letter queue" ;;;
     ret result)
    (λ error,
       logger Error "Failed to send message to dead letter queue" ;;;
       throw error).

End WithConfig.
End KafkaProducerManager.

(** ** The consumer manager *)

Module KafkaConsumerManager.
Import Kafka.

Section WithConfig.
Context (topics : IKafkaTopics) (runtime : Runtime).

(** [subscribe(topic, handler)] *)
Definition subscribe (topic : string) (handler : Handler)
  : Async World unit :=
  λ w,
    if negb (consumerConnected w) then
      throw (KafkaError "Consumer is not connected to Kafka cluster" None) w
    else
      tryCatch
        (consumer_subscribe topic ;;;
         (λ w, (Returns tt,
                with_messageHandlers
                  (<[topic := handler]> (messageHandlers w)) w)) ;;;
         logger Info "Successfully subscribed to topic")
        (λ error,
           logger Error "Failed to subscribe to topic" ;;;
           throw (KafkaError ("Failed to subscribe to topic " +:+ topic)
                    (Some topic)))
        w.

(** [handleFailedMessage(payload, error)] *)
Definition handleFailedMessage (payload : EachMessagePayload)
    (error : JSError) : Async World unit :=
  tryCatch
    (let originalMessage :=
       {| o_topic := topic payload;
          o_partition := partition payload;
          o_offset := offset (message payload);
          o_key := key (message payload);
          o_value := value (message payload);
          o_headers := headers (message payload) |} in
     KafkaProducerManager.sendToDeadLetter topics runtime
       originalMessage error ;;;
     ret tt)
    (λ deadLetterError,
       logger Error "Failed to send message to dead letter queue").

(** The [eachMessage] callback given to [consumer.run]. *)
Definition eachMessage (payload : EachMessagePayload) : Async World unit :=
  λ w,
    match messageHandlers w !! topic payload with
    | None => logger Warn "No handler found for topic" w
    | Some handler =>
        tryCatch
          (logger Debug "Processing message" ;;;
           (λ w, (handler payload, w)) ;;;
           logger Debug "Message processed successfully")
          (λ error,
             logger Error "Failed to process message" ;;;
             handleFailedMessage payload error)
          w
    end.

(** [startConsuming()] *)
Definition startConsuming : Async World unit :=
  λ w,
    if negb (consumerConnected w) then
      throw (KafkaError "Consumer is not connected to Kafka cluster" None) w
    else
      tryCatch
        (consumer_run ;;;
         logger Info "Kafka consumer started successfully")
        (λ error,
           logger Error "Failed to start Kafka consumer" ;;;
           throw (KafkaError "Failed to start consuming messages" None))
        w.

(** The processing loop of the kafkajs runner on the messages fetched
    from one partition, in order: it calls [eachMessage] on each, and an
    error that escapes [eachMessage] ends the loop. *)
Fixpoint processMessages (payloads : list EachMessagePayload)
  : Async World unit :=
  match payloads with
  | [] => ret tt
  | payload :: rest => eachMessage payload ;;; processMessages rest
  end.

End WithConfig.
End KafkaConsumerManager.

(** ** Observations and runs that the statements speak about *)

Section Observations.
Import Redis.
Context (redisConfig : RedisConfig) {json : BucketJSON}.

(** The keys under which a bucket and a lock are kept. *)
Definition bucketKey (identifier : string) : string :=
  keyPrefix redisConfig +:+ "rate_limit:" +:+ identifier.

Definition lockKeyOf (lockKey : string) : string :=
  keyPrefix redisConfig +:+ "lock:" +:+ lockKey.




(** The next command goes through when the fault script is empty or
    starts with [false]. *)
Definition next_ok (fs : list bool) : Prop :=
  fs = [] ∨ ∃ fs', fs = false :: fs'.

(** A call during which the store fails the limiter: the read fails, or
    the string read does not parse, or the write of an admitted request
    fails (the connection drops, or the time to live is not finite). *)
Definition read_succeeds (w : World) : Prop := next_ok (faults w).



(** A rational that is an integer, as Redis wants a time to live. *)
Definition is_integer (q : Q) : Prop :=
  Qeq_bool q (inject_Z (Qfloor q)) = true.

(** A method called at instant [t]. *)
Definition at_time {A} (t : Z) (m : Async World A) : Async World A :=
  λ w, m (with_clock t w).




End Observations.

(** What "nothing reached the broker and no handler was touched" means for
    two states of the Kafka managers. *)
Definition untouched (w w' : Kafka.World) : Prop :=
  Kafka.accepted w' = Kafka.accepted w ∧
  Kafka.subscribed w' = Kafka.subscribed w ∧
  Kafka.running w' = Kafka.running w ∧
  Kafka.faults w' = Kafka.faults w ∧
  Kafka.messageHandlers w' = Kafka.messageHandlers w.

(** ** Sample inputs, to run the model on *)

Definition sample_config : RedisConfig := mkRedisConfig "ads:" 3600.

Definition sample_world : Redis.World :=
  Redis.mkWorld ∅ 1700000000000 [] [] [].

(** A server that is down for the next three commands. *)
Definition outage_world : Redis.World :=
  Redis.mkWorld ∅ 1700000000000 [true; true; true] [] [].

(** A keyspace in which the bucket of [u1] holds a string that does not
    parse. *)
Definition garbled_world : Redis.World :=
  Redis.mkWorld {[ "ads:rate_limit:u1" := Redis.mkEntry "not json" None ]}
    1700000000000 [] [] [].

Definition sample_topics : Kafka.IKafkaTopics :=
  Kafka.mkTopics "raw-content" "moderation-results" "flagged-content"
    "dead-letter".

Definition sample_runtime : Kafka.Runtime :=
  Kafka.mkRuntime HexString.of_nat HexString.of_Z.

Definition sample_payload : Kafka.EachMessagePayload :=
  Kafka.mkPayload "raw-content" 0
    (Kafka.mkKafkaMessage (Some "u1") (Some "x") "42" []).

Definition sample_failure : JSError :=
  Err.mk "TypeError" "boom" "" None None.

(** A handler that rejects every message. *)
Definition failing_handler : Kafka.Handler := λ _, Throws sample_failure.

Definition sample_event : Kafka.IContentEvent :=
  Kafka.mkContentEvent "c1" "u1" "text" 1700000000000 [].

Definition sample_result : Kafka.ModerationObject :=
  Kafka.mkModeration "c1" [("status", "flagged")].

(** Both managers connected, [failing_handler] registered for
    [raw-content], nothing published yet. *)
Definition consuming_world : Kafka.World :=
  Kafka.mkWorld true true {[ "raw-content" := failing_handler ]} [] [] true
    [] 0 1700000000000 [].

(** Neither manager connected. *)
Definition disconnected_world : Kafka.World :=
  Kafka.mkWorld false false ∅ [] [] false [] 0 1700000000000 [].

(** * The rest of the managers *)

(** ** Further Redis commands (external) *)

Module RedisMore.
Import Redis.

(** A command outside the ones of the limiter and of the lock: the next
    fault flag is consumed as for those, but the command is not added to
    [sent], which keeps theirs. *)
Definition call {A} (run : Async World A) : Async World A :=
  λ w, match faults w with
       | true :: fs => (Throws connection_error, with_faults fs w)
       | false :: fs => run (with_faults fs w)
       | [] => run w
       end.

(** Redis keeps a counter as the decimal numeral of a signed 64-bit
    integer, and reads a string as a counter only when it is such a
    numeral. *)
Definition decimal (z : Z) : string :=
  DecimalString.NilZero.string_of_int (Z.to_int z).

Definition int64 (z : Z) : bool := (- 2 ^ 63 <=? z) && (z <=? 2 ^ 63 - 1).

Definition parse_int64 (s : string) : option Z :=
  match DecimalString.NilZero.int_of_string s with
  | Some d =>
      let z := Z.of_int d in
      if String.eqb (decimal z) s && int64 z then Some z else None
  | None => None
  end.

(** The integer a JavaScript number stands for when it is sent as the
    amount of [INCRBY] or the seconds of [EXPIRE]. *)
Definition as_int64 (q : Q) : option Z :=
  if Qeq_bool q (inject_Z (Qfloor q)) && int64 (Qfloor q)
  then Some (Qfloor q) else None.

Definition overflow_error : JSError :=
  Err.mk "ReplyError" "ERR increment or decrement would overflow" ""
    None None.

(** [client.del(key)]: the number of keys removed. *)
Definition client_del (key : string) : Async World Z :=
  call (λ w, match lookup w key with
             | Some _ =>
                 (Returns 1, with_keyspace (delete key (keyspace w)) w)
             | None => (Returns 0, w)
             end).

(** [client.exists(key)]: the number of keys that exist. *)
Definition client_exists (key : string) : Async World Z :=
  call (λ w, (Returns (match lookup w key with
                       | Some _ => 1
                       | None => 0
                       end), w)).

(** The client hands an integer reply over as a JavaScript number, a
    double: an integer below [2^53] in absolute value comes out as it is,
    a larger one as the double the client makes of its digits. *)
Class IntegerReply := {
  decode_integer : Z → Z;
  decode_integer_safe : ∀ z,
    - 2 ^ 53 < z → z < 2 ^ 53 → decode_integer z = z
}.

(** [client.incrBy(key, increment)]: a missing key counts as [0]; the time
    to live of the key is kept; the server keeps the sum, the client
    returns what it decodes of the reply. *)
Definition client_incrBy `{IntegerReply} (key : string) (increment : Q)
  : Async World Z :=
  call (λ w,
    match as_int64 increment with
    | None => (Throws reply_error, w)
    | Some n =>
        let current :=
          match lookup w key with
          | Some e => (λ z, (z, expireAt e)) <$> parse_int64 (value e)
          | None => Some (0, None)
          end in
        match current with
        | None => (Throws reply_error, w)
        | Some (z, expiry) =>
            if int64 (z + n) then
              (Returns (decode_integer (z + n)),
               with_keyspace
                 (<[key := mkEntry (decimal (z + n)) expiry]> (keyspace w)) w)
            else (Throws overflow_error, w)
        end
    end).

(** [client.expire(key, seconds)]: whether the time to live was set; a
    time to live that is not positive removes the key at once. *)
Definition client_expire (key : string) (seconds : Q) : Async World bool :=
  call (λ w,
    match as_int64 seconds with
    | None => (Throws reply_error, w)
    | Some s =>
        match lookup w key with
        | Some e =>
            if s <=? 0 then
              (Returns true, with_keyspace (delete key (keyspace w)) w)
            else
              (Returns true,
               with_keyspace
                 (<[key := mkEntry (value e) (Some (clock w + 1000 * s))]>
                    (keyspace w)) w)
        | None => (Returns false, w)
        end
    end).

(** [client.connect()] and [client.disconnect()] *)
Definition client_connect : Async World unit := call (ret tt).

Definition client_disconnect : Async World unit := call (ret tt).

End RedisMore.

(** ** internal/cache: the other methods of the cache manager *)

Module Cache.
Import Redis RedisMore.

(** The cache manager: the server it talks to and its [isConnected]
    flag. *)
Record State := mkState {
  world : World;
  isConnected : bool
}.

Definition with_world (w : World) (s : State) : State :=
  {| world := w; isConnected := isConnected s |}.

Definition with_isConnected (b : bool) (s : State) : State :=
  {| world := world s; isConnected := b |}.

(** A method that does not look at [isConnected]. *)
Definition lift {A} (m : Async World A) : Async State A :=
  λ s, let '(r, w) := m (world s) in (r, with_world w s).

Section WithConfig.
Context (redisConfig : RedisConfig) {reply : IntegerReply}.

(** [delete(key)] *)
Definition delete (key : string) : Async World Z :=
  let prefixedKey := keyPrefix redisConfig +:+ key in
  tryCatch
    (result <- client_del prefixedKey ;;
     CacheManager.logger Debug "Cache value deleted" ;;;
     ret result)
    (λ error,
       CacheManager.logger Error "Failed to delete cache value" ;;;
       throw (DatabaseError ("Failed to delete cache value for key " +:+ key)
                None)).

(** [exists(key)] *)
Definition exists_ (key : string) : Async World bool :=
  let prefixedKey := keyPrefix redisConfig +:+ key in
  tryCatch
    (result <- client_exists prefixedKey ;;
     ret (bool_decide (result = 1)))
    (λ error,
       CacheManager.logger Error "Failed to check cache key existence" ;;;
       throw (DatabaseError
                ("Failed to check existence of cache key " +:+ key) None)).

(** [increment(key, increment = 1)] *)
Definition increment (key : string) (increment : Q) : Async World Z :=
  let prefixedKey := keyPrefix redisConfig +:+ key in
  tryCatch
    (result <- client_incrBy prefixedKey increment ;;
     CacheManager.logger Debug "Cache value incremented" ;;;
     ret result)
    (λ error,
       CacheManager.logger Error "Failed to increment cache value" ;;;
       throw (DatabaseError
                ("Failed to increment cache value for key " +:+ key) None)).

(** [expire(key, ttlSeconds)] *)
Definition expire (key : string) (ttlSeconds : Q) : Async World bool :=
  let prefixedKey := keyPrefix redisConfig +:+ key in
  tryCatch
    (result <- client_expire prefixedKey ttlSeconds ;;
     CacheManager.logger Debug "Cache key expiration set" ;;;
     ret result)
    (λ error,
       CacheManager.logger Error "Failed to set cache key expiration" ;;;
       throw (DatabaseError
                ("Failed to set expiration for cache key " +:+ key) None)).

(** [connect()] *)
Definition connect : Async State unit :=
  λ s,
    if isConnected s then (Returns tt, s)
    else
      tryCatch
        (lift client_connect ;;;
         (λ s, (Returns tt, with_isConnected true s)) ;;;
         lift (CacheManager.logger Info "Redis cache connected successfully"))
        (λ error,
           lift (CacheManager.logger Error "Failed to connect to Redis cache")
           ;;;
           throw (DatabaseError "Failed to connect to Redis cache" None))
        s.

(** [disconnect()] *)
Definition disconnect : Async State unit :=
  λ s,
    if negb (isConnected s) then (Returns tt, s)
    else
      tryCatch
        (lift client_disconnect ;;;
         (λ s, (Returns tt, with_isConnected false s)) ;;;
         lift (CacheManager.logger Info
                 "Redis cache disconnected successfully"))
        (λ error,
           lift (CacheManager.logger Error
                   "Failed to disconnect from Redis cache"))
        s.

(** [isCacheConnected()] *)
Definition isCacheConnected : Async State bool :=
  λ s, (Returns (isConnected s), s).

End WithConfig.
End Cache.

(** The counter kept under a key, as [increment] reads it: a missing key
    counts as [0], a string that is not the numeral of a 64-bit integer is
    no counter. *)
Definition counter (redisConfig : RedisConfig) (key : string)
    (w : Redis.World) : option Z :=
  match Redis.lookup w (keyPrefix redisConfig +:+ key) with
  | Some e => RedisMore.parse_int64 (Redis.value e)
  | None => Some 0
  end.

(** ** The rest of the Kafka managers *)

Module KafkaMore.
Import Kafka.

Definition with_producerConnected (b : bool) (w : World) : World :=
  {| producerConnected := b;
     consumerConnected := consumerConnected w;
     messageHandlers := messageHandlers w; accepted := accepted w;
     subscribed := subscribed w; running := running w;
     faults := faults w; drawn := drawn w; clock := clock w;
     log := log w |}.

Definition with_consumerConnected (b : bool) (w : World) : World :=
  {| producerConnected := producerConnected w;
     consumerConnected := b;
     messageHandlers := messageHandlers w; accepted := accepted w;
     subscribed := subscribed w; running := running w;
     faults := faults w; drawn := drawn w; clock := clock w;
     log := log w |}.

(** [producer.connect()], [producer.disconnect()] and
    [consumer.connect()]: requests that change nothing else of this
    state. *)
Definition producer_connect : Async World unit := request (ret tt).
Definition producer_disconnect : Async World unit := request (ret tt).
Definition consumer_connect : Async World unit := request (ret tt).

(** [consumer.stop()] stops the runner; [consumer.disconnect()] stops it
    before it closes the connection.  What a failed request leaves of the
    runner is not observed by the statements below. *)
Definition consumer_stop : Async World unit :=
  request (λ w, (Returns tt, with_running false w)).
Definition consumer_disconnect : Async World unit :=
  request (λ w, (Returns tt, with_running false w)).

End KafkaMore.

Module Producer.
Import Kafka KafkaMore.

(** [connect()] *)
Definition connect : Async World unit :=
  λ w,
    if producerConnected w then (Returns tt, w)
    else
      tryCatch
        (producer_connect ;;;
         (λ w, (Returns tt, with_producerConnected true w)) ;;;
         logger Info "Kafka producer connected successfully")
        (λ error,
           logger Error "Failed to connect Kafka producer" ;;;
           throw (KafkaError "Failed to connect to Kafka cluster" None))
        w.

(** [disconnect()] *)
Definition disconnect : Async World unit :=
  λ w,
    if negb (producerConnected w) then (Returns tt, w)
    else
      tryCatch
        (producer_disconnect ;;;
         (λ w, (Returns tt, with_producerConnected false w)) ;;;
         logger Info "Kafka producer disconnected successfully")
        (λ error, logger Error "Failed to disconnect Kafka producer")
        w.

(** [isProducerConnected()] *)
Definition isProducerConnected : Async World bool :=
  λ w, (Returns (producerConnected w), w).

End Producer.

Module Consumer.
Import Kafka KafkaMore.

(** [connect()] *)
Definition connect : Async World unit :=
  λ w,
    if consumerConnected w then (Returns tt, w)
    else
      tryCatch
        (consumer_connect ;;;
         (λ w, (Returns tt, with_consumerConnected true w)) ;;;
         logger Info "Kafka consumer connected successfully")
        (λ error,
           logger Error "Failed to connect Kafka consumer" ;;;
           throw (KafkaError "Failed to connect to Kafka cluster" None))
        w.

(** [disconnect()] *)
Definition disconnect : Async World unit :=
  λ w,
    if negb (consumerConnected w) then (Returns tt, w)
    else
      tryCatch
        (consumer_disconnect ;;;
         (λ w, (Returns tt, with_consumerConnected false w)) ;;;
         logger Info "Kafka consumer disconnected successfully")
        (λ error, logger Error "Failed to disconnect Kafka consumer")
        w.

(** [stopConsuming()] *)
Definition stopConsuming : Async World unit :=
  tryCatch
    (consumer_stop ;;;
     logger Info "Kafka consumer stopped successfully")
    (λ error, logger Error "Failed to stop Kafka consumer").

(** [isConsumerConnected()] *)
Definition isConsumerConnected : Async World bool :=
  λ w, (Returns (consumerConnected w), w).

End Consumer.

(** The original message that [handleFailedMessage] builds from a
    payload. *)
Definition original_of (payload : Kafka.EachMessagePayload)
  : Kafka.OriginalMessage :=
  {| Kafka.o_topic := Kafka.topic payload;
     Kafka.o_partition := Kafka.partition payload;
     Kafka.o_offset := Kafka.offset (Kafka.message payload);
     Kafka.o_key := Kafka.key (Kafka.message payload);
     Kafka.o_value := Kafka.value (Kafka.message payload);
     Kafka.o_headers := Kafka.headers (Kafka.message payload) |}.

(** The handler registered for the topic of the message raises on it. *)
Definition fails (hs : gmap string Kafka.Handler)
    (payload : Kafka.EachMessagePayload) : bool :=
  match hs !! Kafka.topic payload with
  | Some handler =>
      match handler payload with
      | Throws _ => true
      | Returns _ => false
      end
  | None => false
  end.

(** The original messages of the dead-letter records that the broker
    accepted, newest first. *)
Definition dead_letter_of (r : Kafka.ProducerRecord)
  : option Kafka.OriginalMessage :=
  match Kafka.messages r with
  | [m] =>
      match Kafka.m_value m with
      | Kafka.DeadLetter env => Some (Kafka.originalMessage env)
      | _ => None
      end
  | _ => None
  end.

Definition dead_lettered (w : Kafka.World) : list Kafka.OriginalMessage :=
  omap dead_letter_of (Kafka.accepted w).

(** What a publishing method leaves alone whatever happens: the
    connection flags, the handlers, the subscriptions, the runner and the
    clock; the records accepted so far stay, with at most one more in
    front. *)
Definition publishes_at_most_one (w w' : Kafka.World) : Prop :=
  Kafka.producerConnected w' = Kafka.producerConnected w ∧
  Kafka.consumerConnected w' = Kafka.consumerConnected w ∧
  Kafka.messageHandlers w' = Kafka.messageHandlers w ∧
  Kafka.subscribed w' = Kafka.subscribed w ∧
  Kafka.running w' = Kafka.running w ∧
  Kafka.clock w' = Kafka.clock w ∧
  Kafka.drawn w' = S (Kafka.drawn w) ∧
  (Kafka.accepted w' = Kafka.accepted w ∨
   ∃ r, Kafka.accepted w' = r :: Kafka.accepted w).

(** Both managers connected, [failing_handler] registered for
    [raw-content], and a broker that fails the next request. *)
Definition broker_outage_world : Kafka.World :=
  Kafka.mkWorld true true {[ "raw-content" := failing_handler ]} [] [] true
    [true] 0 1700000000000 [].

(** A handler that accepts every message. *)
Definition passing_handler : Kafka.Handler := λ _, Returns tt.

(** A message of a topic for which no handler is registered. *)
Definition unhandled_payload : Kafka.EachMessagePayload :=
  Kafka.mkPayload "flagged-content" 0
    (Kafka.mkKafkaMessage None (Some "y") "7" []).

(** ** internal/db: PostgreSQL through a connection pool (external) *)

Module Postgres.

(** What the server answers to a checkout or to a statement: rows, or an
    error with its message and, for server errors, its SQLSTATE [code]. *)
Inductive Reply :=
| Rows (rows : list string)
| Refused (e : JSError).

Record QueryResult := mkResult { rows : list string }.

(** The pool and the manager above it: the clients checked out and not
    yet released, the statements sent (newest first, with their
    parameters), the script of coming replies (an empty script answers
    every request with no rows), the [isConnected] flag of the manager
    and the log.  The pool is one on which [end()] was not called. *)
Record World := mkWorld {
  checkedOut : nat;
  statements : list (string * list string);
  script : list Reply;
  isConnected : bool;
  log : list LogEntry
}.

Definition with_checkedOut (n : nat) (w : World) : World :=
  {| checkedOut := n; statements := statements w; script := script w;
     isConnected := isConnected w; log := log w |}.

Definition with_statements (l : list (string * list string)) (w : World)
  : World :=
  {| checkedOut := checkedOut w; statements := l; script := script w;
     isConnected := isConnected w; log := log w |}.

Definition with_script (s : list Reply) (w : World) : World :=
  {| checkedOut := checkedOut w; statements := statements w; script := s;
     isConnected := isConnected w; log := log w |}.

Definition with_isConnected (b : bool) (w : World) : World :=
  {| checkedOut := checkedOut w; statements := statements w;
     script := script w; isConnected := b; log := log w |}.

Definition with_log (l : list LogEntry) (w : World) : World :=
  {| checkedOut := checkedOut w; statements := statements w;
     script := script w; isConnected := isConnected w; log := l |}.

Definition logger (lv : Level) (msg : string) : Async World unit :=
  λ w, (Returns tt, with_log (mkLog lv msg :: log w) w).

(** The next reply is taken from the script. *)
Definition exchange : Async World (list string) :=
  λ w, match script w with
       | Refused e :: s => (Throws e, with_script s w)
       | Rows rs :: s => (Returns rs, with_script s w)
       | [] => (Returns [], w)
       end.

(** [pool.connect()]: a client is checked out. *)
Definition pool_connect : Async World unit :=
  exchange ;;;
  (λ w, (Returns tt, with_checkedOut (S (checkedOut w)) w)).

(** [client.release()] *)
Definition client_release : Async World unit :=
  λ w, (Returns tt, with_checkedOut (pred (checkedOut w)) w).

(** [client.query(text)] and [pool.query(text, params)]: the statement
    is sent, and the reply is its result. *)
Definition send_statement (text : string) (params : list string)
  : Async World QueryResult :=
  (λ w, (Returns tt, with_statements ((text, params) :: statements w) w)) ;;;
  rs <- exchange ;;
  ret (mkResult rs).

Definition client_query (text : string) : Async World QueryResult :=
  send_statement text [].

Definition pool_query (text : string) (params : list string)
  : Async World QueryResult :=
  send_statement text params.

End Postgres.

(** The next request to the database is served. *)
Definition served (s : list Postgres.Reply) : Prop :=
  s = [] ∨ ∃ rs s', s = Postgres.Rows rs :: s'.

(** [try { body } finally { cleanup }], for a cleanup that cannot
    raise. *)
Definition finally {S A} (body : Async S A) (cleanup : Async S unit)
  : Async S A :=
  λ s, let '(r, s1) := body s in
       match cleanup s1 with
       | (Returns _, s2) => (r, s2)
       | (Throws e, s2) => (Throws e, s2)
       end.

Module DatabaseManager.
Import Postgres.

(** [connect()] *)
Definition connect : Async World unit :=
  λ w,
    if isConnected w then (Returns tt, w)
    else
      tryCatch
        (pool_connect ;;;
         client_query "SELECT NOW()" ;;;
         client_release ;;;
         (λ w, (Returns tt, with_isConnected true w)) ;;;
         logger Info "Database connected successfully")
        (λ error,
           logger Error "Failed to connect to database" ;;;
           throw (DatabaseError "Failed to connect to database" None))
        w.

(** [query(text, params)] *)
Definition query (text : string) (params : list string)
  : Async World QueryResult :=
  tryCatch
    (logger Debug "Executing query" ;;;
     result <- pool_query text params ;;
     logger Debug "Query executed successfully" ;;;
     ret result)
    (λ error,
       logger Error "Query execution failed" ;;;
       throw (DatabaseError
                ("Query execution failed: " +:+ Err.message error)
                (Err.code error))).

(** [queryOne(text, params)]: [result.rows[0]], [undefined] when there is
    no row. *)
Definition queryOne (text : string) (params : list string)
  : Async World (option string) :=
  result <- query text params ;;
  ret (head (rows result)).

(** [transaction(callback)]; the callback is given the client, here the
    state in which it is checked out. *)
Definition transaction {T} (callback : Async World T) : Async World T :=
  pool_connect ;;;
  finally
    (tryCatch
       (client_query "BEGIN" ;;;
        logger Debug "Transaction started" ;;;
        result <- callback ;;
        client_query "COMMIT" ;;;
        logger Debug "Transaction committed" ;;;
        ret result)
       (λ error,
          client_query "ROLLBACK" ;;;
          logger Error "Transaction rolled back" ;;;
          throw (DatabaseError
                   ("Transaction failed: " +:+ Err.message error)
                   (Err.code error))))
    client_release.

(** [isDbConnected()] *)
Definition isDbConnected : Async World bool :=
  λ w, (Returns (isConnected w), w).

End DatabaseManager.

(** A server error: a unique-key violation. *)
Definition unique_violation : JSError :=
  Err.mk "error" "duplicate key value violates unique constraint" ""
    (Some "23505") None.

(** A lost connection. *)
Definition connection_lost : JSError :=
  Err.mk "Error" "Connection terminated unexpectedly" "" None None.

(** A pool not yet used by a manager not yet connected. *)
Definition fresh_pool : Postgres.World :=
  Postgres.mkWorld 0 [] [] false [].

(** A callback that inserts one row. *)
Definition insert_row : Async Postgres.World Postgres.QueryResult :=
  Postgres.client_query "INSERT INTO audit_logs DEFAULT VALUES".

(** ** The configuration manager *)

(** [a < b] on JavaScript numbers: false as soon as one side is [NaN]. *)
Definition js_lt (a b : JSNumber) : bool :=
  match a, b with
  | Finite x, Finite y => negb (Qle_bool y x)
  | NegInfinity, Finite _ | NegInfinity, PosInfinity
  | Finite _, PosInfinity => true
  | _, _ => false
  end.

(** [s.split(',')] *)
Fixpoint split_comma (s : string) : list string :=
  match s with
  | EmptyString => [""]
  | String c rest =>
      if Ascii.eqb c "," then "" :: split_comma rest
      else match split_comma rest with
           | first :: others => String c first :: others
           | [] => [String c ""]
           end
  end.

(** [s.toLowerCase()] on the letters A to Z.  The other characters that
    JavaScript lowers do not become letters of [true], so that comparing
    the result with ['true'] gives what JavaScript gives. *)
Definition lower (c : ascii) : ascii :=
  let n := nat_of_ascii c in
  if (65 <=? n)%nat && (n <=? 90)%nat then ascii_of_nat (n + 32) else c.

Fixpoint toLowerCase (s : string) : string :=
  match s with
  | EmptyString => EmptyString
  | String c rest => String (lower c) (toLowerCase rest)
  end.

(** [new Error(message)] *)
Definition Error_ (msg : string) : JSError := Err.mk "Error" msg "" None None.

(** Sequencing of steps that may raise, for code that has no state. *)
Definition and_then {A B} (m : Outcome A) (k : A → Outcome B) : Outcome B :=
  match m with
  | Returns a => k a
  | Throws e => Throws e
  end.

Notation "'do' x <- m 'in' k" := (and_then m (λ x, k))
  (at level 10, x name, m at level 100, k at level 200, only parsing).

Module ConfigManager.

Record ISasl := mkSasl {
  mechanism : string;
  sasl_username : string;
  sasl_password : string
}.

Record IKafkaConfig := mkKafkaConfig {
  brokers : list string;
  clientId : string;
  groupId : string;
  topics : Kafka.IKafkaTopics;
  kafka_ssl : bool;
  sasl : option ISasl
}.

Record IDatabaseConfig := mkDatabaseConfig {
  db_host : string;
  db_port : JSNumber;
  database : string;
  username : string;
  db_password : string;
  db_ssl : bool;
  maxConnections : JSNumber;
  connectionTimeout : JSNumber
}.

Record IRedisConfig := mkRedisConfig {
  host : string;
  redis_port : JSNumber;
  password : string;
  db : JSNumber;
  keyPrefix : string;
  ttl : JSNumber
}.

Record IModelConfig := mkModelConfig {
  path : string;
  version : string;
  threshold : JSNumber;
  enabled : bool
}.

Record IMLConfig := mkMLConfig {
  textModel : IModelConfig;
  imageModel : IModelConfig;
  audioModel : IModelConfig;
  batchSize : JSNumber;
  maxProcessingTime : JSNumber
}.

Record IRateLimitConfig := mkRateLimitConfig {
  windowMs : JSNumber;
  maxRequests : JSNumber;
  skipSuccessfulRequests : bool
}.

Record ISecurityConfig := mkSecurityConfig {
  jwtSecret : string;
  jwtExpiration : string;
  bcryptRounds : JSNumber;
  rateLimits : IRateLimitConfig
}.

Record IAppConfig := mkAppConfig {
  port : JSNumber;
  environment : string;
  logLevel : string;
  kafka : IKafkaConfig;
  database_ : IDatabaseConfig;
  redis : IRedisConfig;
  ml : IMLConfig;
  security : ISecurityConfig
}.

Section WithEnvironment.
(** [parseInt(value, 10)] of the runtime, and [process.env] once the
    [.env] file is loaded. *)
Context (parseInt : string → JSNumber) (env : gmap string string).

(** [!value] for [value = process.env[key]] *)
Definition unset (value : option string) : bool :=
  match value with
  | Some s => negb (truthy_string s)
  | None => true
  end.

(** [getEnvAsString(key, defaultValue = '')] *)
Definition getEnvAsString (key defaultValue : string) : Outcome string :=
  let value := env !! key in
  if unset value && negb (truthy_string defaultValue) then
    Throws (Error_ ("Environment variable " +:+ key +:+
                    " is required but not set"))
  else
    Returns (match value with
             | Some s => if truthy_string s then s else defaultValue
             | None => defaultValue
             end).

(** [getEnvAsNumber(key, defaultValue?)] *)
Definition getEnvAsNumber (key : string) (defaultValue : option Q)
  : Outcome JSNumber :=
  match env !! key with
  | Some s =>
      if truthy_string s then
        match parseInt s with
        | NaN =>
            Throws (Error_ ("Environment variable " +:+ key +:+
                            " must be a valid number"))
        | parsed => Returns parsed
        end
      else
        match defaultValue with
        | None =>
            Throws (Error_ ("Environment variable " +:+ key +:+
                            " is required but not set"))
        | Some d => Returns (Finite d)
        end
  | None =>
      match defaultValue with
      | None =>
          Throws (Error_ ("Environment variable " +:+ key +:+
                          " is required but not set"))
      | Some d => Returns (Finite d)
      end
  end.

(** [getEnvAsBoolean(key, defaultValue = false)] *)
Definition getEnvAsBoolean (key : string) (defaultValue : bool) : bool :=
  match env !! key with
  | Some s =>
      if truthy_string s then
        String.eqb (toLowerCase s) "true" || String.eqb s "1"
      else defaultValue
  | None => defaultValue
  end.

(** [loadKafkaConfig()] *)
Definition loadKafkaConfig : Outcome IKafkaConfig :=
  do servers <- getEnvAsString "KAFKA_BROKERS" "localhost:9092" in
  let brokers := split_comma servers in
  let sslEnabled := getEnvAsBoolean "KAFKA_SSL_ENABLED" false in
  let saslEnabled := getEnvAsBoolean "KAFKA_SASL_ENABLED" false in
  do clientId <- getEnvAsString "KAFKA_CLIENT_ID" "abuse-detection-system" in
  do groupId <- getEnvAsString "KAFKA_GROUP_ID" "moderation-workers" in
  do rawContent <- getEnvAsString "KAFKA_TOPIC_RAW_CONTENT" "raw-content" in
  do moderationResults <-
    getEnvAsString "KAFKA_TOPIC_MODERATION_RESULTS" "moderation-results" in
  do flaggedContent <-
    getEnvAsString "KAFKA_TOPIC_FLAGGED_CONTENT" "flagged-content" in
  do deadLetter <- getEnvAsString "KAFKA_TOPIC_DEAD_LETTER" "dead-letter" in
  let kafkaConfig sasl :=
    {| brokers := brokers; clientId := clientId; groupId := groupId;
       topics := Kafka.mkTopics rawContent moderationResults flaggedContent
                   deadLetter;
       kafka_ssl := sslEnabled; sasl := sasl |} in
  if saslEnabled then
    do mechanism <- getEnvAsString "KAFKA_SASL_MECHANISM" "plain" in
    do username <- getEnvAsString "KAFKA_SASL_USERNAME" "" in
    do password <- getEnvAsString "KAFKA_SASL_PASSWORD" "" in
    Returns (kafkaConfig (Some (mkSasl mechanism username password)))
  else Returns (kafkaConfig None).

(** [loadDatabaseConfig()] *)
Definition loadDatabaseConfig : Outcome IDatabaseConfig :=
  do host <- getEnvAsString "DB_HOST" "localhost" in
  do port <- getEnvAsNumber "DB_PORT" (Some 5432%Q) in
  do database <- getEnvAsString "DB_NAME" "abuse_detection" in
  do username <- getEnvAsString "DB_USERNAME" "postgres" in
  do password <- getEnvAsString "DB_PASSWORD" "password" in
  let ssl := getEnvAsBoolean "DB_SSL" false in
  do maxConnections <- getEnvAsNumber "DB_MAX_CONNECTIONS" (Some 20%Q) in
  do connectionTimeout <-
    getEnvAsNumber "DB_CONNECTION_TIMEOUT" (Some 30000%Q) in
  Returns (mkDatabaseConfig host port database username password ssl
             maxConnections connectionTimeout).

(** [loadRedisConfig()] *)
Definition loadRedisConfig : Outcome IRedisConfig :=
  do host <- getEnvAsString "REDIS_HOST" "localhost" in
  do port <- getEnvAsNumber "REDIS_PORT" (Some 6379%Q) in
  do password <- getEnvAsString "REDIS_PASSWORD" "" in
  do db <- getEnvAsNumber "REDIS_DB" (Some 0%Q) in
  do keyPrefix <- getEnvAsString "REDIS_KEY_PREFIX" "ads:" in
  do ttl <- getEnvAsNumber "REDIS_TTL" (Some 3600%Q) in
  Returns (mkRedisConfig host port password db keyPrefix ttl).

(** One model of [loadMLConfig()]. *)
Definition loadModelConfig (pathKey pathDefault versionKey thresholdKey
    : string) (thresholdDefault : Q) (enabledKey : string)
  : Outcome IModelConfig :=
  do path <- getEnvAsString pathKey pathDefault in
  do version <- getEnvAsString versionKey "1.0.0" in
  do threshold <- getEnvAsNumber thresholdKey (Some thresholdDefault) in
  let enabled := getEnvAsBoolean enabledKey true in
  Returns (mkModelConfig path version threshold enabled).

(** [loadMLConfig()] *)
Definition loadMLConfig : Outcome IMLConfig :=
  do textModel <-
    loadModelConfig "ML_TEXT_MODEL_PATH" "./models/text-toxicity.onnx"
      "ML_TEXT_MODEL_VERSION" "ML_TEXT_THRESHOLD" (8 # 10)
      "ML_TEXT_ENABLED" in
  do imageModel <-
    loadModelConfig "ML_IMAGE_MODEL_PATH" "./models/image-nsfw.onnx"
      "ML_IMAGE_MODEL_VERSION" "ML_IMAGE_THRESHOLD" (7 # 10)
      "ML_IMAGE_ENABLED" in
  do audioModel <-
    loadModelConfig "ML_AUDIO_MODEL_PATH"
      "./models/audio-classification.onnx"
      "ML_AUDIO_MODEL_VERSION" "ML_AUDIO_THRESHOLD" (75 # 100)
      "ML_AUDIO_ENABLED" in
  do batchSize <- getEnvAsNumber "ML_BATCH_SIZE" (Some 32%Q) in
  do maxProcessingTime <-
    getEnvAsNumber "ML_MAX_PROCESSING_TIME" (Some 5000%Q) in
  Returns (mkMLConfig textModel imageModel audioModel batchSize
             maxProcessingTime).

Definition default_jwtSecret : string :=
  "your-super-secret-jwt-key-change-in-production".

(** [loadSecurityConfig()] *)
Definition loadSecurityConfig : Outcome ISecurityConfig :=
  do jwtSecret <- getEnvAsString "JWT_SECRET" default_jwtSecret in
  do jwtExpiration <- getEnvAsString "JWT_EXPIRATION" "24h" in
  do bcryptRounds <- getEnvAsNumber "BCRYPT_ROUNDS" (Some 12%Q) in
  do windowMs <- getEnvAsNumber "RATE_LIMIT_WINDOW_MS" (Some 60000%Q) in
  do maxRequests <- getEnvAsNumber "RATE_LIMIT_MAX_REQUESTS" (Some 100%Q) in
  let skipSuccessfulRequests :=
    getEnvAsBoolean "RATE_LIMIT_SKIP_SUCCESS" false in
  Returns (mkSecurityConfig jwtSecret jwtExpiration bcryptRounds
             (mkRateLimitConfig windowMs maxRequests skipSuccessfulRequests)).

(** [loadConfiguration()] *)
Definition loadConfiguration : Outcome IAppConfig :=
  do port <- getEnvAsNumber "PORT" (Some 3000%Q) in
  do environment <- getEnvAsString "NODE_ENV" "development" in
  do logLevel <- getEnvAsString "LOG_LEVEL" "info" in
  do kafka <- loadKafkaConfig in
  do database <- loadDatabaseConfig in
  do redis <- loadRedisConfig in
  do ml <- loadMLConfig in
  do security <- loadSecurityConfig in
  Returns (mkAppConfig port environment logLevel kafka database redis ml
             security).

End WithEnvironment.

(** [threshold < 0 || threshold > 1] *)
Definition out_of_unit (threshold : JSNumber) : bool :=
  js_lt threshold (Finite 0) || js_lt (Finite 1) threshold.

(** [validateConfiguration()] *)
Definition validateConfiguration (appConfig : IAppConfig) : Outcome unit :=
  if js_lt (port appConfig) (Finite 1)
     || js_lt (Finite 65535) (port appConfig) then
    Throws (Error_ "Port must be between 1 and 65535")
  else if (length (brokers (kafka appConfig)) =? 0)%nat then
    Throws (Error_ "At least one Kafka broker must be configured")
  else if negb (truthy_string (db_host (database_ appConfig))) then
    Throws (Error_ "Database host is required")
  else if negb (truthy_string (host (redis appConfig))) then
    Throws (Error_ "Redis host is required")
  else if String.eqb (environment appConfig) "production"
          && String.eqb (jwtSecret (security appConfig)) default_jwtSecret
  then
    Throws (Error_ "JWT secret must be changed in production environment")
  else if out_of_unit (threshold (textModel (ml appConfig))) then
    Throws (Error_ "Text model threshold must be between 0 and 1")
  else if out_of_unit (threshold (imageModel (ml appConfig))) then
    Throws (Error_ "Image model threshold must be between 0 and 1")
  else if out_of_unit (threshold (audioModel (ml appConfig))) then
    Throws (Error_ "Audio model threshold must be between 0 and 1")
  else Returns tt.

(** The constructor: the configuration is loaded, then validated. *)
Definition new (parseInt : string → JSNumber) (env : gmap string string)
  : Outcome IAppConfig :=
  do appConfig <- loadConfiguration parseInt env in
  do _ <- validateConfiguration appConfig in
  Returns appConfig.

End ConfigManager.

(** The errors that reading the environment raises. *)
Definition of_environment (e : JSError) : Prop :=
  ∃ rest, e = Error_ ("Environment variable " +:+ rest).

(** Where a threshold comes from: the environment, through [parseInt],
    or the default. *)
Definition threshold_source (parseInt : string → JSNumber)
    (env : gmap string string) (key : string) (d : Q) (x : JSNumber)
  : Prop :=
  (∃ s, env !! key = Some s ∧ truthy_string s = true ∧ parseInt s = x) ∨
  (ConfigManager.unset (env !! key) = true ∧ x = Finite d).

(** A number in the unit interval. *)
Definition in_unit (x : JSNumber) : Prop :=
  ∃ q, x = Finite q ∧ (0 <= q)%Q ∧ (q <= 1)%Q.

(** [parseInt] gives whole numbers when it gives finite ones. *)
Definition whole_valued (parseInt : string → JSNumber) : Prop :=
  ∀ s q, parseInt s = Finite q → is_integer q.

(** A stand-in for [parseInt(value, 10)] on plain decimal numerals. *)
Definition numeral_parseInt (s : string) : JSNumber :=
  match RedisMore.parse_int64 s with
  | Some z => Finite (inject_Z z)
  | None => NaN
  end.

(** An environment that sets what has no default, and more. *)
Definition sample_env : gmap string string :=
  {[ "REDIS_PASSWORD" := "s3cret"; "PORT" := "8080";
     "ML_TEXT_THRESHOLD" := "1"; "NODE_ENV" := "production";
     "JWT_SECRET" := "k" ]}.

(** ** The ingest API server: the health endpoint *)

Module IngestApiServer.

(** The managers that the health check reaches, each with the service
    behind it, the [isInitialized] flag of the inference engine, and the
    log of the server.  Each manager logs on its own state. *)
Record State := mkState {
  database : Postgres.World;
  cache : Cache.State;
  kafkaProducer : Kafka.World;
  mlInitialized : bool;
  log : list LogEntry
}.

(** What is kept of a service health object: its status and, when down,
    its error. *)
Record IServiceHealth := mkServiceHealth {
  status : string;
  error : option string
}.

Record Services := mkServices {
  s_database : IServiceHealth;
  s_cache : IServiceHealth;
  s_kafka : IServiceHealth;
  s_ml : IServiceHealth
}.

(** What is kept of the response: the HTTP status, the overall status and
    the services, [None] for the empty object of the [catch] branch. *)
Record Response := mkResponse {
  statusCode : Z;
  overall : string;
  services : option Services
}.

Section WithConfig.
Context (redisConfig : RedisConfig).

(** [checkDatabaseHealth()] *)
Definition checkDatabaseHealth : Async Postgres.World unit :=
  λ w,
    if negb (Postgres.isConnected w) then
      throw (Error_ "Database not connected") w
    else (DatabaseManager.query "SELECT 1" [] ;;; ret tt) w.

(** [checkCacheHealth()] *)
Definition checkCacheHealth : Async Cache.State unit :=
  λ s,
    if negb (Cache.isConnected s) then
      throw (Error_ "Cache not connected") s
    else
      Cache.lift
        (CacheManager.set redisConfig "health_check" "ok"
           (Some (Finite 10)) ;;;
         CacheManager.get redisConfig "health_check" ;;;
         ret tt) s.

(** [checkKafkaHealth()] *)
Definition checkKafkaHealth : Async Kafka.World unit :=
  λ w,
    if negb (Kafka.producerConnected w) then
      throw (Error_ "Kafka producer not connected") w
    else ret tt w.

(** [checkMLHealth()] *)
Definition checkMLHealth (isMLInitialized : bool) : Outcome unit :=
  if negb isMLInitialized then
    Throws (Error_ "ML inference engine not initialized")
  else Returns tt.

(** [getServiceHealth(result)] on a settled promise *)
Definition getServiceHealth (result : Outcome unit) : IServiceHealth :=
  match result with
  | Returns _ => {| status := "up"; error := None |}
  | Throws reason =>
      {| status := "down";
         error := Some (if truthy_string (Err.message reason)
                        then Err.message reason else "Unknown error") |}
  end.

Definition logger (lv : Level) (msg : string) : Async State unit :=
  λ s, (Returns tt,
        {| database := database s; cache := cache s;
           kafkaProducer := kafkaProducer s;
           mlInitialized := mlInitialized s;
           log := mkLog lv msg :: log s |}).

(** [Promise.allSettled] of the four checks: each runs on the state of
    its manager, and none of them rejects the whole. *)
Definition allSettled
  : Async State (Outcome unit * Outcome unit * Outcome unit * Outcome unit)
  :=
  λ s,
    let '(dbStatus, db') := checkDatabaseHealth (database s) in
    let '(cacheStatus, cache') := checkCacheHealth (cache s) in
    let '(kafkaStatus, kafka') := checkKafkaHealth (kafkaProducer s) in
    let mlStatus := checkMLHealth (mlInitialized s) in
    (Returns (dbStatus, cacheStatus, kafkaStatus, mlStatus),
     {| database := db'; cache := cache'; kafkaProducer := kafka';
        mlInitialized := mlInitialized s; log := log s |}).

(** [healthCheck(req, res)]: what it sends. *)
Definition healthCheck : Async State Response :=
  tryCatch
    (settled <- allSettled ;;
     let '(dbStatus, cacheStatus, kafkaStatus, mlStatus) := settled in
     let services :=
       {| s_database := getServiceHealth dbStatus;
          s_cache := getServiceHealth cacheStatus;
          s_kafka := getServiceHealth kafkaStatus;
          s_ml := getServiceHealth mlStatus |} in
     let allHealthy :=
       forallb (λ service, String.eqb (status service) "up")
         [s_database services; s_cache services; s_kafka services;
          s_ml services] in
     logger Info "Health check completed" ;;;
     ret {| statusCode := if allHealthy then 200 else 503;
            overall := if allHealthy then "healthy" else "unhealthy";
            services := Some services |})
    (λ error,
       logger Error "Health check failed" ;;;
       ret {| statusCode := 503; overall := "unhealthy";
              services := None |}).

End WithConfig.
End IngestApiServer.

(** The next [n] commands to Redis go through. *)
Definition passes (n : nat) (fs : list bool) : bool :=
  forallb negb (take n fs).

(** The next request to the database is served. *)
Definition serves (s : list Postgres.Reply) : bool :=
  match s with
  | Postgres.Refused _ :: _ => false
  | _ => true
  end.

(** Everything that the health check looks at is in order. *)
Definition all_up (s : IngestApiServer.State) : bool :=
  Postgres.isConnected (IngestApiServer.database s)
  && serves (Postgres.script (IngestApiServer.database s))
  && Cache.isConnected (IngestApiServer.cache s)
  && passes 2 (Redis.faults (Cache.world (IngestApiServer.cache s)))
  && Kafka.producerConnected (IngestApiServer.kafkaProducer s)
  && IngestApiServer.mlInitialized s.

(** A promise that was fulfilled. *)
Definition fulfilled {A} (r : Outcome A) : bool :=
  match r with
  | Returns _ => true
  | Throws _ => false
  end.

(** A server whose services are all connected and healthy. *)
Definition healthy_server : IngestApiServer.State :=
  IngestApiServer.mkState
    (Postgres.mkWorld 0 [] [] true [])
    (Cache.mkState sample_world true)
    consuming_world true [].

(** * The rate limiter in the arithmetic of the runtime *)

(** ** IEEE 754 double precision, rounding to nearest, ties to even *)

(** JavaScript numbers are doubles: every arithmetic operation gives the
    double nearest to the exact result.  A finite double is kept as the
    rational it stands for; the sign of zero is not kept. *)
Module Double.

(** The integer nearest to [x], the even one when two are as near. *)
Definition rne (x : Q) : Z :=
  let f := Qfloor x in
  match (x - inject_Z f ?= 1 # 2)%Q with
  | Lt => f
  | Gt => f + 1
  | Eq => if Z.even f then f else f + 1
  end.

(** The binade of a positive rational: the [e] with [2^e ≤ q < 2^(e+1)]. *)
Definition binade (q : Q) : Z :=
  if Qle_bool 1 q then Z.log2 (Qfloor q)
  else - Z.log2_up (Qceiling (/ q)).

(** The exponent of the last place of the doubles of the binade of [q]:
    53 digits, and no exponent below that of the subnormal numbers. *)
Definition last_place (q : Q) : Z := Z.max (binade q - 52) (- 1074).

(** Rounding of a positive rational: to a multiple of [2^last_place], kept
    in lowest terms; what reaches [2^1024] overflows. *)
Definition round_pos (q : Q) : JSNumber :=
  let k := last_place q in
  let r :=
    if k <=? 0 then
      (inject_Z (rne (q * inject_Z (2 ^ (- k)))) / inject_Z (2 ^ (- k)))%Q
    else
      (inject_Z (rne (q / inject_Z (2 ^ k))) * inject_Z (2 ^ k))%Q in
  if Qle_bool (inject_Z (2 ^ 1024)) r then PosInfinity else Finite (Qred r).

Definition neg (x : JSNumber) : JSNumber :=
  match x with
  | Finite q => Finite (- q)
  | PosInfinity => NegInfinity
  | NegInfinity => PosInfinity
  | NaN => NaN
  end.

(** The double nearest to [q]. *)
Definition round (q : Q) : JSNumber :=
  match (q ?= 0)%Q with
  | Eq => Finite 0
  | Gt => round_pos q
  | Lt => neg (round_pos (- q))
  end.

(** [x + y] *)
Definition add (x y : JSNumber) : JSNumber :=
  match x, y with
  | NaN, _ | _, NaN => NaN
  | PosInfinity, NegInfinity | NegInfinity, PosInfinity => NaN
  | PosInfinity, _ | _, PosInfinity => PosInfinity
  | NegInfinity, _ | _, NegInfinity => NegInfinity
  | Finite a, Finite b => round (a + b)
  end.

(** [x - y] *)
Definition sub (x y : JSNumber) : JSNumber := add x (neg y).

(** The sign of a number that is not [NaN]; zero counts as positive. *)
Definition negative (x : JSNumber) : bool :=
  match x with
  | Finite q => negb (Qle_bool 0 q)
  | NegInfinity => true
  | _ => false
  end.

Definition is_zero (x : JSNumber) : bool :=
  match x with
  | Finite q => Qeq_bool q 0
  | _ => false
  end.

Definition infinity (minus : bool) : JSNumber :=
  if minus then NegInfinity else PosInfinity.

(** [x * y] *)
Definition mul (x y : JSNumber) : JSNumber :=
  match x, y with
  | NaN, _ | _, NaN => NaN
  | Finite a, Finite b => round (a * b)
  | _, _ =>
      if is_zero x || is_zero y then NaN
      else infinity (xorb (negative x) (negative y))
  end.

(** [x / y] *)
Definition div (x y : JSNumber) : JSNumber :=
  match x, y with
  | NaN, _ | _, NaN => NaN
  | Finite a, Finite b =>
      if Qeq_bool b 0 then
        if Qeq_bool a 0 then NaN else infinity (negative x)
      else round (a / b)
  | Finite _, _ => Finite 0
  | _, Finite _ => infinity (xorb (negative x) (negative y))
  | _, _ => NaN
  end.

(** [Math.floor(x)] and [Math.min(x, y)] *)
Definition floor (x : JSNumber) : JSNumber :=
  match x with
  | Finite q => Finite (inject_Z (Qfloor q))
  | other => other
  end.

Definition min (x y : JSNumber) : JSNumber :=
  match x, y with
  | NaN, _ | _, NaN => NaN
  | NegInfinity, _ | _, NegInfinity => NegInfinity
  | PosInfinity, other | other, PosInfinity => other
  | Finite a, Finite b => if Qle_bool a b then x else y
  end.

(** [x >= y] *)
Definition ge (x y : JSNumber) : bool :=
  match x, y with
  | NaN, _ | _, NaN => false
  | PosInfinity, _ | _, NegInfinity => true
  | NegInfinity, _ | _, PosInfinity => false
  | Finite a, Finite b => Qle_bool b a
  end.

End Double.

(** ** The bucket as JSON *)

(** What the limiter reads back of a number that [JSON.stringify] wrote:
    a finite number as it is; [NaN] and the infinities are written as
    [null], which the arithmetic then takes for [0]. *)
Definition as_written (x : JSNumber) : JSNumber :=
  match x with
  | Finite q => Finite q
  | _ => Finite 0
  end.

(** What the limiter finds in a stored string. *)
Inductive Parsed :=
| Raises
| Members (tokens lastRefill : JSNumber)
| Untyped.

(** [JSON.stringify({ tokens, lastRefill: now })], and [JSON.parse]
    followed by the reading of the members [tokens] and [lastRefill]:
    - [Raises] when the string does not parse, or parses to [null], so
      that reading a member raises;
    - [Members] when each of the two members is a number, [null] or
      missing (as both are in [{}] or in a stored number): a number is
      read as itself, [null] counts as [0] in the arithmetic and a
      missing member as [NaN];
    - [Untyped] when a member is a string, a boolean, an array or an
      object; the arithmetic then goes through the coercions of the
      runtime, which end in a number all the same, [Math.min] giving
      one: [coerced_refill] stands for it. *)
Class MembersJSON := {
  JSON_stringify_bucket : JSNumber → Z → string;
  JSON_parse_members : string → Parsed;
  coerced_refill : string → Z → Q → Q → JSNumber;
  JSON_parse_members_stringify : ∀ tokens now,
    JSON_parse_members (JSON_stringify_bucket tokens now)
    = Members (as_written tokens) (Finite (inject_Z now));
  JSON_stringify_bucket_truthy : ∀ tokens now,
    truthy_string (JSON_stringify_bucket tokens now) = true
}.

(** ** rateLimitCheck in doubles *)

Module Limiter.
Import Redis.

Section WithConfig.
Context (redisConfig : RedisConfig) {json : MembersJSON}.

(** [Math.ceil(maxTokens / refillRate) * 2] *)
Definition bucket_ttl (maxTokens refillRate : Q) : JSNumber :=
  Double.mul
    (Math_ceil (Double.div (Finite maxTokens) (Finite refillRate)))
    (Finite 2).

(** The body of the [if (bucketData)] branch: parse, then refill. *)
Definition refill (bucketData : string) (now : Z) (maxTokens refillRate : Q)
  : Async World JSNumber :=
  match JSON_parse_members bucketData with
  | Raises => throw CacheManager.syntax_error
  | Members tokens lastRefill =>
      let timeElapsed :=
        Double.div (Double.sub (Finite (inject_Z now)) lastRefill)
          (Finite 1000) in
      let tokensToAdd :=
        Double.floor (Double.mul timeElapsed (Finite refillRate)) in
      ret (Double.min (Finite maxTokens) (Double.add tokens tokensToAdd))
  | Untyped => ret (coerced_refill bucketData now maxTokens refillRate)
  end.

(** [rateLimitCheck(identifier, maxTokens, refillRate, tokensRequested)]
    on finite numbers. *)
Definition rateLimitCheck (identifier : string)
    (maxTokens refillRate tokensRequested : Q) : Async World bool :=
  let key := "rate_limit:" +:+ identifier in
  now <- CacheManager.Date_now ;;
  tryCatch
    (bucketData <- CacheManager.get redisConfig key ;;
     tokens <-
       match bucketData with
       | Some data =>
           if truthy_string data then refill data now maxTokens refillRate
           else ret (Finite maxTokens)
       | None => ret (Finite maxTokens)
       end ;;
     if Double.ge tokens (Finite tokensRequested) then
       let tokens := Double.sub tokens (Finite tokensRequested) in
       CacheManager.set redisConfig key
         (JSON_stringify_bucket tokens now)
         (Some (bucket_ttl maxTokens refillRate)) ;;;
       CacheManager.logger Debug "Rate limit check passed" ;;;
       ret true
     else
       CacheManager.logger Debug "Rate limit check failed" ;;;
       ret false)
    (λ error,
       CacheManager.logger Error "Rate limit check failed" ;;;
       ret true).

End WithConfig.
End Limiter.

(** ** What the statements about the limiter in doubles speak about *)

Section InDoubles.
Context (redisConfig : RedisConfig) {json : MembersJSON}.

(** The members of the bucket that a check would read. *)
Definition storedMembers (identifier : string) (w : Redis.World)
  : option (JSNumber * JSNumber) :=
  match Redis.lookup w (bucketKey redisConfig identifier) with
  | Some e =>
      if truthy_string (Redis.value e) then
        match JSON_parse_members (Redis.value e) with
        | Members tokens lastRefill => Some (tokens, lastRefill)
        | _ => None
        end
      else None
  | None => None
  end.

(** A live, non-empty string under the bucket key can be read, and its
    members are numbers, [null] or missing. *)
Definition readable (identifier : string) (w : Redis.World) : Prop :=
  ∀ e, Redis.lookup w (bucketKey redisConfig identifier) = Some e →
       truthy_string (Redis.value e) = true →
       ∃ tokens lastRefill,
         JSON_parse_members (Redis.value e) = Members tokens lastRefill.

(** The refill of the specification, every operation giving the nearest
    double: an absent bucket is full; otherwise
    [min(maxTokens, tokens + floor(elapsed × refillRate))] with [elapsed]
    the seconds since [lastRefill]. *)
Definition refilled_double (maxTokens refillRate : Q) (now : Z)
    (stored : option (JSNumber * JSNumber)) : JSNumber :=
  match stored with
  | None => Finite maxTokens
  | Some (tokens, lastRefill) =>
      let elapsed :=
        Double.div (Double.sub (Finite (inject_Z now)) lastRefill)
          (Finite 1000) in
      Double.min (Finite maxTokens)
        (Double.add tokens
           (Double.floor (Double.mul elapsed (Finite refillRate))))
  end.

End InDoubles.

(** ** A sample of the interface *)

(** Numbers can be told apart and counted, so that a bucket has a code. *)
#[global] Instance JSNumber_eq_dec : EqDecision JSNumber.
Proof. solve_decision. Defined.

#[global] Instance JSNumber_countable : Countable JSNumber :=
  inj_countable'
    (λ x, match x with
          | Finite q => inl q
          | PosInfinity => inr 0%nat
          | NegInfinity => inr 1%nat
          | NaN => inr 2%nat
          end)
    (λ c, match c with
          | inl q => Finite q
          | inr 0%nat => PosInfinity
          | inr 1%nat => NegInfinity
          | inr _ => NaN
          end)
    (λ x, match x with
          | Finite _ | PosInfinity | NegInfinity | NaN => eq_refl
          end).

(** The members are written as the hexadecimal numeral of their code;
    [{}] is an object without members, and nothing else parses. *)
Definition hex_stringify_bucket (tokens : JSNumber) (now : Z) : string :=
  HexString.of_pos (encode (as_written tokens, now)).

Definition hex_parse_members (s : string) : Parsed :=
  if String.eqb s "{}" then Members NaN NaN
  else
    match s with
    | String "0"%char (String "x"%char _) =>
        match decode (HexString.to_pos s) with
        | Some (tokens, now) => Members tokens (Finite (inject_Z now))
        | None => Raises
        end
    | _ => Raises
    end.

#[global] Instance hex_members_json : MembersJSON.
Proof.
  refine {| JSON_stringify_bucket := hex_stringify_bucket;
            JSON_parse_members := hex_parse_members;
            coerced_refill := λ _ _ maxTokens _, Finite maxTokens |}.
  - intros tokens now. unfold hex_parse_members, hex_stringify_bucket.
    change (match decode (HexString.to_pos
                            (HexString.of_pos
                               (encode (as_written tokens, now)))) with
            | Some (tokens, now) => Members tokens (Finite (inject_Z now))
            | None => Raises
            end
            = Members (as_written tokens) (Finite (inject_Z now))).
    rewrite HexString.to_pos_of_pos, decode_encode. reflexivity.
  - intros tokens now. reflexivity.
Defined.

(** A sample of the integer replies: an integer that a double holds is
    returned as it is, a larger one as the nearest double. *)
Definition nearest_double (z : Z) : Z :=
  match Double.round (inject_Z z) with
  | Finite q => Qfloor q
  | _ => z
  end.

#[global] Instance double_reply : RedisMore.IntegerReply.
Proof.
  refine {| RedisMore.decode_integer :=
              λ z, if (- 2 ^ 53 <? z) && (z <? 2 ^ 53) then z
                   else nearest_double z |}.
  intros z H1 H2.
  by rewrite (proj2 (Z.ltb_lt _ _) H1), (proj2 (Z.ltb_lt _ _) H2).
Defined.

(** A counter that has reached [2^53]. *)
Definition big_counter_world : Redis.World :=
  Redis.with_keyspace
    (<[keyPrefix sample_config +:+ "hits" :=
         Redis.mkEntry "9007199254740992" None]>
       (Redis.keyspace sample_world))
    sample_world.

(** * Properties *)

(** ** Running the monad *)

Lemma bind_returns {S A B} (m : Async S A) (k : A → Async S B) s a s' :
  m s = (Returns a, s') → bind m k s = k a s'.
Proof. intros H. unfold bind. by rewrite H. Qed.

Lemma bind_throws {S A B} (m : Async S A) (k : A → Async S B) s e s' :
  m s = (Throws e, s') → bind m k s = (Throws e, s').
Proof. intros H. unfold bind. by rewrite H. Qed.

Lemma tryCatch_returns {S A} (m : Async S A) h s a s' :
  m s = (Returns a, s') → tryCatch m h s = (Returns a, s').
Proof. intros H. unfold tryCatch. by rewrite H. Qed.

Lemma tryCatch_throws {S A} (m : Async S A) h s e s' :
  m s = (Throws e, s') → tryCatch m h s = h e s'.
Proof. intros H. unfold tryCatch. by rewrite H. Qed.

(** ** Arithmetic of the limiter *)

Lemma Qle_bool_false (a b : Q) : Qle_bool a b = false ↔ (b < a)%Q.
Proof.
  split.
  - intros E. apply Qnot_le_lt. intros H. apply Qle_bool_iff in H. congruence.
  - intros H. destruct (Qle_bool a b) eqn:E; [|done].
    apply Qle_bool_iff in E. lra.
Qed.


Lemma Qfloor_nonneg (q : Q) : (0 <= q)%Q → 0 ≤ Qfloor q.
Proof. intros H. change 0 with (Qfloor 0). by apply Qfloor_resp_le. Qed.

Lemma Qceiling_pos (q : Q) : (0 < q)%Q → 0 < Qceiling q.
Proof.
  intros Hq. pose proof (Qle_ceiling q) as H.
  rewrite Zlt_Qlt. change (inject_Z 0) with 0%Q. lra.
Qed.

Lemma Qdiv_pos (a b : Q) : (0 < a)%Q → (0 < b)%Q → (0 < a / b)%Q.
Proof. intros Ha Hb. apply Qlt_shift_div_l; [done|]. lra. Qed.


Lemma is_integer_inject (z : Z) : is_integer (inject_Z z).
Proof.
  unfold is_integer. rewrite Qfloor_Z. apply Qeq_bool_iff. reflexivity.
Qed.

Lemma not_zero_one : ¬ (1 == 0)%Q.
Proof. intros H. discriminate H. Qed.

(** ** The cache manager on the Redis model *)

Ltac world w :=
  destruct w as [?ks ?clk ?fs ?snt ?lg]; simpl in *; subst.

Ltac run_redis :=
  unfold Redis.client_get, Redis.client_set, Redis.client_setEx,
    Redis.client_set_EX_NX, Redis.client_eval_luaScript, Redis.send,
    CacheManager.logger, CacheManager.Date_now, ret, throw, bind, tryCatch,
    at_time;
  unfold Redis.with_keyspace, Redis.with_faults, Redis.with_sent,
    Redis.with_log, Redis.with_clock;
  simpl.

Section CacheProofs.
Import Redis CacheManager.
Context (cfg : RedisConfig) {json : BucketJSON}.

Lemma live_after (now z : Z) (v : string) :
  0 ≤ z → live now (mkEntry v (Some (now + 1000 * z))) = true.
Proof. intros Hz. unfold live. simpl. apply Z.leb_le. lia. Qed.




(** The write of [set] once the time to live is settled: an integer or
    minus infinity is accepted. *)
Lemma write_ok pk val (ttl : JSNumber) ks clk fs snt lg :
  next_ok fs →
  (ttl = NegInfinity ∨ ∃ q, ttl = Finite q ∧ is_integer q) →
  ∃ exp cmd,
    (if js_gt0 ttl then client_setEx pk ttl val else client_set pk val)
      (mkWorld ks clk fs snt lg) =
    (Returns tt,
     mkWorld (<[pk := mkEntry val exp]> ks) clk (tail fs) (cmd :: snt) lg) ∧
    live clk (mkEntry val exp) = true.
Proof.
  intros Hfs [-> | (q & -> & Hq)].
  - exists None, (SET pk val). simpl.
    destruct Hfs as [-> | [fs' ->]]; run_redis; done.
  - simpl. destruct (Qle_bool q 0) eqn:E; simpl.
    + exists None, (SET pk val).
      destruct Hfs as [-> | [fs' ->]]; run_redis; done.
    + exists (Some (clk + 1000 * Qfloor q)), (SETEX pk (Finite q) val).
      assert (Hv : valid_seconds q = true).
      { unfold valid_seconds. unfold is_integer in Hq. by rewrite Hq, E. }
      split.
      * destruct Hfs as [-> | [fs' ->]]; run_redis; by rewrite Hv.
      * apply live_after, Qfloor_nonneg. apply Qle_bool_false in E. lra.
Qed.


Lemma client_setEx_healthy pk q val ks clk snt lg :
  valid_seconds q = true →
  client_setEx pk (Finite q) val (mkWorld ks clk [] snt lg) =
    (Returns tt,
     mkWorld (<[pk := mkEntry val (Some (clk + 1000 * Qfloor q))]> ks) clk []
       (SETEX pk (Finite q) val :: snt) lg).
Proof. intros H. unfold client_setEx, send. simpl. by rewrite H. Qed.


Lemma get_succeeds key w :
  read_succeeds w →
  get cfg key w =
    (Returns (Redis.value <$> lookup w (keyPrefix cfg +:+ key)),
     {| keyspace := keyspace w; clock := clock w; faults := tail (faults w);
        sent := GET (keyPrefix cfg +:+ key) :: sent w;
        log := mkLog Debug "Cache value retrieved" :: log w |}).
Proof.
  intros [Hf | [fs Hf]]; world w; unfold get; run_redis; done.
Qed.

(** Whatever the faults, [get] leaves keyspace and clock alone, and when
    it returns it returns the live string under the key. *)
Lemma get_cases key w :
  ∃ r w', get cfg key w = (r, w') ∧ keyspace w' = keyspace w ∧
          clock w' = clock w ∧
          (r = Returns (Redis.value <$> lookup w (keyPrefix cfg +:+ key)) ∨
           ∃ e, r = Throws e).
Proof.
  world w. unfold get. destruct fs as [|[] fs]; run_redis; eauto 10.
Qed.

(** Whatever the faults, [set] either leaves the keyspace alone or writes
    the value under the key. *)
Lemma set_cases key val n w :
  ∃ r w', set cfg key val n w = (r, w') ∧ clock w' = clock w ∧
          (keyspace w' = keyspace w ∨
           ∃ exp, keyspace w' =
                    <[keyPrefix cfg +:+ key := mkEntry val exp]> (keyspace w)).
Proof.
  world w. unfold set.
  match goal with |- context [js_gt0 ?t] => generalize t end.
  intros ttl0. destruct (js_gt0 ttl0).
  - destruct fs as [|[] fs]; run_redis;
      destruct ttl0 as [q| | |]; try destruct (valid_seconds q);
      simpl; eauto 10.
  - destruct fs as [|[] fs]; run_redis; eauto 10.
Qed.


(** *** The rate limiter *)



(** Whatever the faults and the stored string, a check returns, at the
    same instant, and either leaves the keyspace alone or writes a bucket
    computed from an amount that was at most [maxTokens] and at least the
    request. *)
Lemma rateLimitCheck_cases id (M R req : Q) w :
  ∃ b w',
    rateLimitCheck cfg id M R req w = (Returns b, w') ∧
    clock w' = clock w ∧
    (keyspace w' = keyspace w ∨
     ∃ avail exp,
       Qle_bool req avail = true ∧ (avail <= M)%Q ∧
       keyspace w' =
         <[bucketKey cfg id :=
             mkEntry (JSON_stringify {| tokens := avail - req;
                                        lastRefill := inject_Z (clock w) |})
                     exp]> (keyspace w)).
Proof.
  unfold rateLimitCheck. unfold bind at 1. unfold Date_now at 1.
  destruct (get_cases ("rate_limit:" +:+ id) w)
    as (r & w1 & Hget & Hks1 & Hclk1 & Hr).
  assert (Hfail : ∀ w2 : World,
    keyspace w2 = keyspace w → clock w2 = clock w →
    ∃ b w',
      (logger Error "Rate limit check failed" ;;; ret true) w2
        = (Returns b, w') ∧
      clock w' = clock w ∧
      (keyspace w' = keyspace w ∨
       ∃ avail exp,
         Qle_bool req avail = true ∧ (avail <= M)%Q ∧
         keyspace w' =
           <[bucketKey cfg id :=
               mkEntry (JSON_stringify {| tokens := avail - req;
                                          lastRefill := inject_Z (clock w) |})
                       exp]> (keyspace w))).
  { intros w2 H1 H2. eexists _, _. run_redis. eauto. }
  destruct Hr as [-> | [e ->]].
  2:{ erewrite tryCatch_throws; [|by erewrite bind_throws]. by apply Hfail. }
  set (data := Redis.value <$>
                 lookup w (keyPrefix cfg +:+ ("rate_limit:" +:+ id))) in *.
  set (refilling :=
         match data with
         | Some d => if truthy_string d then refill d (clock w) M R else ret M
         | None => ret M
         end).
  assert (Htok : (∃ avail, (avail <= M)%Q ∧
                           refilling w1 = (Returns avail, w1)) ∨
                 (∃ e, refilling w1 = (Throws e, w1))).
  { subst refilling.
    destruct data as [d|]; [|left; exists M; split; [lra|done]].
    destruct (truthy_string d); [|left; exists M; split; [lra|done]].
    unfold refill. destruct (JSON_parse d) as [b|].
    - left. eexists. split; [|done]. apply Q.le_min_l.
    - right. by eexists. }
  destruct Htok as [(avail & Hav & Htok) | (e & Htok)].
  2:{ erewrite tryCatch_throws.
      2:{ erewrite bind_returns; [|exact Hget]. by erewrite bind_throws. }
      by apply Hfail. }
  destruct (Qle_bool req avail) eqn:Hle.
  - destruct (set_cases ("rate_limit:" +:+ id)
                (JSON_stringify {| tokens := avail - req;
                                   lastRefill := inject_Z (clock w) |})
                (Some (bucket_ttl M R)) w1)
      as (rs & w2 & Hset & Hclk2 & Hks2).
    destruct rs as [[]|e].
    + erewrite tryCatch_returns.
      2:{ erewrite bind_returns; [|exact Hget].
          erewrite bind_returns; [|exact Htok].
          rewrite Hle. erewrite bind_returns; [|exact Hset].
          run_redis. reflexivity. }
      eexists _, _. split; [done|]. simpl. split; [congruence|].
      destruct Hks2 as [Hks2 | [exp Hks2]]; [left; congruence|].
      right. exists avail, exp. rewrite Hks2, Hks1. done.
    + erewrite tryCatch_throws.
      2:{ erewrite bind_returns; [|exact Hget].
          erewrite bind_returns; [|exact Htok].
          rewrite Hle. erewrite bind_throws; [|exact Hset]. reflexivity. }
      eexists _, _. run_redis. split; [done|]. simpl. split; [congruence|].
      destruct Hks2 as [Hks2 | [exp Hks2]]; [left; congruence|].
      right. exists avail, exp. rewrite Hks2, Hks1. done.
  - erewrite tryCatch_returns.
    2:{ erewrite bind_returns; [|exact Hget].
        erewrite bind_returns; [|exact Htok].
        rewrite Hle. run_redis. reflexivity. }
    eexists _, _. split; [done|]. simpl. split; [congruence|].
    left. congruence.
Qed.

(** What is read back from a keyspace in which a bucket was written. *)
Lemma lookup_insert_live w' key v exp ks :
  keyspace w' = <[key := mkEntry v exp]> ks →
  lookup w' key = if live (clock w') (mkEntry v exp)
                  then Some (mkEntry v exp) else None.
Proof. intros H. unfold lookup. by rewrite H, lookup_insert_eq. Qed.













(** *** The lock *)

Lemma acquireLock_healthy K (ttlSeconds : Q) T w :
  faults w = [] → valid_seconds ttlSeconds = true →
  acquireLock cfg K ttlSeconds T w =
    match lookup w (lockKeyOf cfg K) with
    | Some _ =>
        (Returns false,
         {| keyspace := keyspace w; clock := clock w; faults := [];
            sent := SET_EX_NX (lockKeyOf cfg K) T ttlSeconds :: sent w;
            log := mkLog Debug "Distributed lock acquisition attempt"
                   :: log w |})
    | None =>
        (Returns true,
         {| keyspace :=
              <[lockKeyOf cfg K :=
                  mkEntry T (Some (clock w + 1000 * Qfloor ttlSeconds))]>
                (keyspace w);
            clock := clock w; faults := [];
            sent := SET_EX_NX (lockKeyOf cfg K) T ttlSeconds :: sent w;
            log := mkLog Debug "Distributed lock acquisition attempt"
                   :: log w |})
    end.
Proof.
  intros Hf Hv. world w. unfold acquireLock.
  fold (lockKeyOf cfg K). run_redis. rewrite Hv.
  unfold lookup. simpl. destruct (ks !! lockKeyOf cfg K) as [e|]; [|done].
  by destruct (live clk e).
Qed.

Lemma releaseLock_healthy K T w :
  faults w = [] →
  releaseLock cfg K T w =
    match lookup w (lockKeyOf cfg K) with
    | Some e =>
        if decide (Redis.value e = T) then
          (Returns true,
           {| keyspace := delete (lockKeyOf cfg K) (keyspace w);
              clock := clock w; faults := [];
              sent := EVAL_compare_and_delete (lockKeyOf cfg K) T :: sent w;
              log := mkLog Debug "Distributed lock release attempt"
                     :: log w |})
        else
          (Returns false,
           {| keyspace := keyspace w; clock := clock w; faults := [];
              sent := EVAL_compare_and_delete (lockKeyOf cfg K) T :: sent w;
              log := mkLog Debug "Distributed lock release attempt"
                     :: log w |})
    | None =>
        (Returns false,
         {| keyspace := keyspace w; clock := clock w; faults := [];
            sent := EVAL_compare_and_delete (lockKeyOf cfg K) T :: sent w;
            log := mkLog Debug "Distributed lock release attempt"
                   :: log w |})
    end.
Proof.
  intros Hf. world w. unfold releaseLock.
  fold (lockKeyOf cfg K). run_redis.
  unfold lookup. simpl. destruct (ks !! lockKeyOf cfg K) as [e|]; [|done].
  destruct (live clk e); [|done]. by destruct (decide _).
Qed.

(** A lock that was just written is seen until its expiry. *)
Lemma lookup_lock_held key T expiry t ks fs snt lg :
  t ≤ expiry →
  lookup (mkWorld (<[key := mkEntry T (Some expiry)]> ks) t fs snt lg) key =
    Some (mkEntry T (Some expiry)).
Proof.
  intros Ht. unfold lookup, live. simpl. rewrite lookup_insert_eq. simpl.
  by rewrite (proj2 (Z.leb_le t expiry)).
Qed.

(** *** The claims about the cache manager *)

(** C2.  On a healthy store, with a valid time to live and two distinct
    owner tokens: [acquire(K, ttl, T1)] succeeds iff no live entry exists
    for [K]; once it has succeeded, [acquire(K, ttl, T2)] before the expiry
    returns [false]; [release(K, T2)] returns [false] and leaves the lock
    held by [T1]; [release(K, T1)] returns [true], and an
    [acquire(K, ttl, T2)] after it succeeds. *)
Theorem lock_mutual_exclusion K (ttlSeconds : Q) T1 T2 w :
  faults w = [] → valid_seconds ttlSeconds = true → T1 ≠ T2 →
  (∃ acquired w1,
     acquireLock cfg K ttlSeconds T1 w = (Returns acquired, w1) ∧
     (acquired = true ↔ lookup w (lockKeyOf cfg K) = None)) ∧
  (lookup w (lockKeyOf cfg K) = None →
   let expiry := clock w + 1000 * Qfloor ttlSeconds in
   ∀ t2 t3 t4 t5, t2 ≤ expiry → t3 ≤ expiry → t4 ≤ expiry →
   ∃ w1 w2 w3 w4 w5,
     acquireLock cfg K ttlSeconds T1 w = (Returns true, w1) ∧
     at_time t2 (acquireLock cfg K ttlSeconds T2) w1 = (Returns false, w2) ∧
     at_time t3 (releaseLock cfg K T2) w2 = (Returns false, w3) ∧
     keyspace w3 !! lockKeyOf cfg K = Some (mkEntry T1 (Some expiry)) ∧
     at_time t4 (releaseLock cfg K T1) w3 = (Returns true, w4) ∧
     at_time t5 (acquireLock cfg K ttlSeconds T2) w4 = (Returns true, w5)).
Proof.
  intros Hf Hv Hne. split.
  - rewrite (acquireLock_healthy K ttlSeconds T1 w Hf Hv).
    destruct (lookup w (lockKeyOf cfg K));
      eexists _, _; (split; [done|]); done.
  - intros Hfree expiry t2 t3 t4 t5 H2 H3 H4.
    rewrite (acquireLock_healthy K ttlSeconds T1 w Hf Hv), Hfree.
    fold expiry. unfold at_time, with_clock.
    eexists _, _, _, _, _. split; [done|].
    cbn [keyspace clock faults sent log].
    rewrite acquireLock_healthy, lookup_lock_held by done.
    split; [done|]. cbn [keyspace clock faults sent log].
    rewrite releaseLock_healthy, lookup_lock_held by done.
    cbn [Redis.value]. rewrite decide_False by done.
    split; [done|]. cbn [keyspace]. rewrite lookup_insert_eq.
    split; [done|]. cbn [keyspace clock faults sent log].
    rewrite releaseLock_healthy, lookup_lock_held by done.
    cbn [Redis.value]. rewrite decide_True by done.
    split; [done|]. cbn [keyspace clock faults sent log].
    rewrite acquireLock_healthy by done.
    unfold lookup at 1. simpl. rewrite lookup_delete_eq. done.
Qed.


(** C4.  Neither lock operation ever raises; when the store fails the
    command, [acquire] returns [false] and [release] returns [false], the
    failure is logged and the keyspace is left alone; a time to live that
    the store refuses makes [acquire] return [false] as well. *)
Theorem lock_fails_closed K (ttlSeconds : Q) T w :
  (∃ b w', acquireLock cfg K ttlSeconds T w = (Returns b, w')) ∧
  (∃ b w', releaseLock cfg K T w = (Returns b, w')) ∧
  (∀ fs, faults w = true :: fs →
     ∃ w1 w2 l1 l2,
       acquireLock cfg K ttlSeconds T w = (Returns false, w1) ∧
       keyspace w1 = keyspace w ∧
       log w1 = mkLog Error "Failed to acquire distributed lock" :: l1 ∧
       releaseLock cfg K T w = (Returns false, w2) ∧
       keyspace w2 = keyspace w ∧
       log w2 = mkLog Error "Failed to release distributed lock" :: l2) ∧
  (valid_seconds ttlSeconds = false →
     ∃ w1, acquireLock cfg K ttlSeconds T w = (Returns false, w1) ∧
           keyspace w1 = keyspace w).
Proof.
  world w. unfold acquireLock, releaseLock. repeat split.
  - destruct fs as [|[] fs]; run_redis; eauto;
      destruct (valid_seconds ttlSeconds); eauto;
      destruct (lookup _ _); eauto.
  - destruct fs as [|[] fs]; run_redis; eauto;
      destruct (lookup _ _); eauto; destruct (decide _); eauto.
  - intros fs' ->. run_redis. eexists _, _, _, _. done.
  - intros Hv. destruct fs as [|[] fs]; run_redis; rewrite ?Hv; eauto.
Qed.



End CacheProofs.

(** ** The producer and the consumer on the broker model *)

Ltac kafka_world w :=
  destruct w as [?pc ?cc ?hs ?acc ?subs ?run ?fs ?dr ?clk ?lg];
  simpl in *; subst.

Ltac run_kafka :=
  unfold KafkaProducerManager.sendMessage, KafkaProducerManager.uuidv4,
    KafkaProducerManager.new_Date_toISOString, Kafka.producer_send,
    Kafka.consumer_subscribe, Kafka.consumer_run, Kafka.request,
    Kafka.logger, ret, throw, bind, tryCatch;
  unfold Kafka.with_messageHandlers, Kafka.with_accepted,
    Kafka.with_subscribed, Kafka.with_running, Kafka.with_faults,
    Kafka.with_drawn, Kafka.with_log;
  simpl.

Section KafkaProofs.
Import Kafka KafkaProducerManager KafkaConsumerManager.
Context (topics : IKafkaTopics) (runtime : Runtime).

(** The dead-letter record that a connected producer publishes on a
    healthy broker. *)
Lemma sendToDeadLetter_connected o e w :
  producerConnected w = true → faults w = [] →
  ∃ w' receipt,
    sendToDeadLetter topics runtime o e w = (Returns receipt, w') ∧
    accepted w' =
      {| r_topic := deadLetter topics;
         messages :=
           [ {| m_key := key_or_unknown (o_key o);
                m_value :=
                  DeadLetter
                    {| originalMessage := o;
                       error :=
                         {| e_message := Err.message e;
                            e_stack := Err.stack e;
                            e_name := Err.name e |};
                       failedAt := toISOString runtime (clock w);
                       messageId := uuid_text runtime (drawn w) |};
                m_headers :=
                  [("messageId", uuid_text runtime (drawn w));
                   ("originalTopic", "unknown");
                   ("failureReason", Err.name e);
                   ("timestamp", toISOString runtime (clock w))] |} ] |}
      :: accepted w.
Proof.
  intros H Hf. kafka_world w. unfold sendToDeadLetter. run_kafka. eauto.
Qed.

(** Whatever the state, the dead-letter publish touches no handler and
    adds at most one record. *)
Lemma sendToDeadLetter_frame o e w :
  ∃ r w', sendToDeadLetter topics runtime o e w = (r, w') ∧
          messageHandlers w' = messageHandlers w ∧
          (length (accepted w') ≤ S (length (accepted w)))%nat.
Proof.
  kafka_world w. unfold sendToDeadLetter.
  destruct pc; [destruct fs as [|[] fs]|]; run_kafka; eauto 10.
Qed.

Lemma handleFailedMessage_total payload e w :
  ∃ w', handleFailedMessage topics runtime payload e w = (Returns tt, w') ∧
        messageHandlers w' = messageHandlers w ∧
        (length (accepted w') ≤ S (length (accepted w)))%nat.
Proof.
  unfold handleFailedMessage.
  match goal with |- context [sendToDeadLetter _ _ ?o ?e] =>
    destruct (sendToDeadLetter_frame o e w)
      as ([r|e'] & w1 & E & Hh & Hl) end.
  - erewrite tryCatch_returns; [|by erewrite bind_returns]. eauto.
  - erewrite tryCatch_throws; [|by erewrite bind_throws]. run_kafka. eauto.
Qed.

(** [eachMessage] never raises, whatever the handler does. *)
Lemma eachMessage_total payload w :
  ∃ w', eachMessage topics runtime payload w = (Returns tt, w') ∧
        messageHandlers w' = messageHandlers w ∧
        (length (accepted w') ≤ S (length (accepted w)))%nat.
Proof.
  unfold eachMessage. destruct (messageHandlers w !! topic payload) as [h|].
  - unfold tryCatch, bind at 1. unfold logger at 1. unfold bind at 1.
    destruct (h payload) as [[]|e].
    + run_kafka. eauto.
    + simpl. unfold bind at 1. unfold logger at 1.
      match goal with |- context [handleFailedMessage _ _ _ _ ?w1] =>
        destruct (handleFailedMessage_total payload e w1)
          as (w2 & -> & Hh & Hl) end.
      eauto.
  - run_kafka. eauto.
Qed.

(** The processing loop runs to the end of any batch. *)
Lemma processMessages_total payloads w :
  ∃ w', processMessages topics runtime payloads w = (Returns tt, w') ∧
        messageHandlers w' = messageHandlers w.
Proof.
  revert w. induction payloads as [|p ps IH]; intros w; simpl.
  - by eexists.
  - destruct (eachMessage_total p w) as (w1 & E & Hh & _).
    erewrite bind_returns by exact E.
    destruct (IH w1) as (w2 & -> & Hh2). eexists. split; [done|congruence].
Qed.

(** C5.  When the handler registered for the topic of a consumed message
    raises, [eachMessage] still returns, so the loop goes on with the rest
    of the batch and runs to its end, and at most one record is published;
    with the producer connected and the broker healthy, exactly one record
    is published, to the dead-letter topic, and its envelope carries the
    original message (topic, partition, offset, key, value, headers) and
    the message and name of the error raised. *)
Theorem failed_message_is_dead_lettered payload rest h e w :
  messageHandlers w !! topic payload = Some h → h payload = Throws e →
  ∃ w',
    eachMessage topics runtime payload w = (Returns tt, w') ∧
    processMessages topics runtime (payload :: rest) w =
      processMessages topics runtime rest w' ∧
    (∃ w'', processMessages topics runtime rest w' = (Returns tt, w'')) ∧
    (length (accepted w') ≤ S (length (accepted w)))%nat ∧
    (producerConnected w = true → faults w = [] →
     ∃ m env,
       accepted w' =
         {| r_topic := deadLetter topics; messages := [m] |} :: accepted w ∧
       m_value m = DeadLetter env ∧
       originalMessage env =
         {| o_topic := topic payload;
            o_partition := partition payload;
            o_offset := offset (message payload);
            o_key := key (message payload);
            o_value := value (message payload);
            o_headers := headers (message payload) |} ∧
       e_message (error env) = Err.message e ∧
       e_name (error env) = Err.name e).
Proof.
  intros Hh He.
  destruct (eachMessage_total payload w) as (w' & E & _ & Hlen).
  exists w'. split; [done|]. split.
  { simpl. by erewrite bind_returns by exact E. }
  split.
  { destruct (processMessages_total rest w') as (w'' & Hp & _). eauto. }
  split; [done|].
  intros Hc Hf. revert E. unfold eachMessage. rewrite Hh.
  unfold tryCatch, bind at 1. unfold logger at 1. unfold bind at 1.
  rewrite He. simpl. unfold bind at 1. unfold logger at 1.
  unfold handleFailedMessage.
  match goal with
  | |- context [tryCatch (bind (sendToDeadLetter _ _ ?o ?e0) _) _ ?w1] =>
      destruct (sendToDeadLetter_connected o e0 w1)
        as (w2 & r & Hs & Hacc); [done | done |]
  end.
  erewrite tryCatch_returns; [|by erewrite bind_returns].
  intros [= <-]. eexists _, _. split; [exact Hacc|]. done.
Qed.

(** C9.  While the producer is not connected, each of its publishing
    methods raises the [KafkaError] "Producer is not connected to Kafka
    cluster" and nothing reaches the broker; while the consumer is not
    connected, [subscribe] and [startConsuming] raise the [KafkaError]
    "Consumer is not connected to Kafka cluster" and change nothing, the
    handler table included. *)
Theorem not_connected_raises_KafkaError w :
  (producerConnected w = false →
   let refused :=
     KafkaError "Producer is not connected to Kafka cluster" None in
   (∀ ev, ∃ w', publishContentEvent topics runtime ev w = (Throws refused, w')
                ∧ untouched w w') ∧
   (∀ r, ∃ w', publishModerationResult topics runtime r w
                 = (Throws refused, w') ∧ untouched w w') ∧
   (∀ r, ∃ w', publishFlaggedContent topics runtime r w
                 = (Throws refused, w') ∧ untouched w w') ∧
   (∀ o e, ∃ w', sendToDeadLetter topics runtime o e w
                   = (Throws refused, w') ∧ untouched w w')) ∧
  (consumerConnected w = false →
   let refused :=
     KafkaError "Consumer is not connected to Kafka cluster" None in
   (∀ t h, subscribe t h w = (Throws refused, w)) ∧
   startConsuming w = (Throws refused, w)).
Proof.
  split; intros H; kafka_world w.
  - unfold publishContentEvent, publishModerationResult,
      publishFlaggedContent, sendToDeadLetter, untouched.
    repeat split; intros; run_kafka; eexists; done.
  - unfold subscribe, startConsuming. split; intros; run_kafka; done.
Qed.

End KafkaProofs.

(** ** The model on the sample inputs *)



(** C2 on the sample world: the five steps of the lock scenario, the
    middle three ten seconds into a thirty-second lease. *)
Lemma lock_mutual_exclusion_witness :
  ∃ w1 w2 w3 w4 w5,
    CacheManager.acquireLock sample_config "lag" 30 "T1" sample_world
      = (Returns true, w1) ∧
    at_time 1700000010000
      (CacheManager.acquireLock sample_config "lag" 30 "T2") w1
      = (Returns false, w2) ∧
    at_time 1700000010000
      (CacheManager.releaseLock sample_config "lag" "T2") w2
      = (Returns false, w3) ∧
    Redis.keyspace w3 !! lockKeyOf sample_config "lag"
      = Some (Redis.mkEntry "T1" (Some 1700000030000)) ∧
    at_time 1700000010000
      (CacheManager.releaseLock sample_config "lag" "T1") w3
      = (Returns true, w4) ∧
    at_time 1700000010000
      (CacheManager.acquireLock sample_config "lag" 30 "T2") w4
      = (Returns true, w5).
Proof.
  assert (Hne : "T1" ≠ "T2") by discriminate.
  destruct (lock_mutual_exclusion sample_config "lag" 30 "T1" "T2"
              sample_world eq_refl eq_refl Hne) as [_ H].
  apply (H eq_refl 1700000010000 1700000010000 1700000010000
           1700000010000); vm_compute; discriminate.
Defined.


(** C4 on the outage world. *)
Lemma lock_fails_closed_witness :
  ∃ w1 w2 l1 l2,
    CacheManager.acquireLock sample_config "lag" 30 "T1" outage_world
      = (Returns false, w1) ∧
    Redis.keyspace w1 = Redis.keyspace outage_world ∧
    Redis.log w1 = mkLog Error "Failed to acquire distributed lock" :: l1 ∧
    CacheManager.releaseLock sample_config "lag" "T1" outage_world
      = (Returns false, w2) ∧
    Redis.keyspace w2 = Redis.keyspace outage_world ∧
    Redis.log w2 = mkLog Error "Failed to release distributed lock" :: l2.
Proof.
  destruct (lock_fails_closed sample_config "lag" 30 "T1" outage_world)
    as (_ & _ & H & _).
  apply (H [true; true]). reflexivity.
Defined.

(** C5 on the sample world: the handler of [raw-content] raises on the
    message with key [u1]; exactly one record goes to [dead-letter], with
    the key and the error message in its envelope, and the loop goes on. *)
Lemma failed_message_is_dead_lettered_witness :
  ∃ w' m env,
    KafkaConsumerManager.eachMessage sample_topics sample_runtime
      sample_payload consuming_world = (Returns tt, w') ∧
    KafkaConsumerManager.processMessages sample_topics sample_runtime
      [sample_payload; sample_payload] consuming_world =
      KafkaConsumerManager.processMessages sample_topics sample_runtime
        [sample_payload] w' ∧
    Kafka.accepted w' =
      [ {| Kafka.r_topic := "dead-letter"; Kafka.messages := [m] |} ] ∧
    Kafka.m_value m = Kafka.DeadLetter env ∧
    Kafka.o_key (Kafka.originalMessage env) = Some "u1" ∧
    Kafka.e_message (Kafka.error env) = "boom".
Proof.
  destruct (failed_message_is_dead_lettered sample_topics sample_runtime
              sample_payload [sample_payload] failing_handler sample_failure
              consuming_world eq_refl eq_refl)
    as (w' & Hrun & Hloop & _ & _ & Hpub).
  destruct (Hpub eq_refl eq_refl) as (m & env & Hacc & Hval & Horig & Hmsg & _).
  exists w', m, env. split; [exact Hrun|]. split; [exact Hloop|].
  split; [exact Hacc|]. split; [exact Hval|]. split; [|exact Hmsg].
  rewrite Horig. reflexivity.
Defined.

(** C6 on the sample world.  The record published for the failed message
    of topic [raw-content] carries the original message, the message and
    name of the error, [failedAt] and [messageId], and the header
    [failureReason]; but its header [originalTopic] is the constant
    ["unknown"], not the topic of the original message. *)
Theorem dead_letter_originalTopic_is_unknown :
  ∃ w' m env,
    KafkaConsumerManager.eachMessage sample_topics sample_runtime
      sample_payload consuming_world = (Returns tt, w') ∧
    Kafka.accepted w' =
      [ {| Kafka.r_topic := "dead-letter"; Kafka.messages := [m] |} ] ∧
    Kafka.m_value m = Kafka.DeadLetter env ∧
    Kafka.o_topic (Kafka.originalMessage env) = "raw-content" ∧
    Kafka.error env = Kafka.mkErrorObject "boom" "" "TypeError" ∧
    Kafka.failedAt env = Kafka.toISOString sample_runtime 1700000000000 ∧
    Kafka.messageId env = Kafka.uuid_text sample_runtime 0 ∧
    Kafka.m_headers m !! 2%nat = Some ("failureReason", "TypeError") ∧
    Kafka.m_headers m !! 1%nat = Some ("originalTopic", "unknown") ∧
    ("originalTopic", "raw-content") ∉ Kafka.m_headers m.
Proof.
  eexists _, _, _. split; [vm_compute; reflexivity|].
  split; [reflexivity|]. split; [reflexivity|].
  repeat (split; [reflexivity|]).
  intros Hin. repeat (apply elem_of_cons in Hin as [Hin | Hin];
                      [discriminate Hin|]).
  by apply elem_of_nil in Hin.
Qed.


(** C9 on the disconnected world. *)
Lemma not_connected_raises_KafkaError_witness :
  (∃ w', KafkaProducerManager.publishContentEvent sample_topics
           sample_runtime sample_event disconnected_world
         = (Throws
              (KafkaError "Producer is not connected to Kafka cluster" None),
            w') ∧
         untouched disconnected_world w') ∧
  (∃ w', KafkaProducerManager.publishModerationResult sample_topics
           sample_runtime sample_result disconnected_world
         = (Throws
              (KafkaError "Producer is not connected to Kafka cluster" None),
            w') ∧
         untouched disconnected_world w') ∧
  (∃ w', KafkaProducerManager.publishFlaggedContent sample_topics
           sample_runtime sample_result disconnected_world
         = (Throws
              (KafkaError "Producer is not connected to Kafka cluster" None),
            w') ∧
         untouched disconnected_world w') ∧
  (∃ w', KafkaProducerManager.sendToDeadLetter sample_topics sample_runtime
           (Kafka.mkOriginal "raw-content" 0 "42" (Some "u1") (Some "x") [])
           sample_failure disconnected_world
         = (Throws
              (KafkaError "Producer is not connected to Kafka cluster" None),
            w') ∧
         untouched disconnected_world w') ∧
  KafkaConsumerManager.subscribe "raw-content" failing_handler
    disconnected_world
  = (Throws (KafkaError "Consumer is not connected to Kafka cluster" None),
     disconnected_world) ∧
  KafkaConsumerManager.startConsuming disconnected_world
  = (Throws (KafkaError "Consumer is not connected to Kafka cluster" None),
     disconnected_world).
Proof.
  destruct (not_connected_raises_KafkaError sample_topics sample_runtime
              disconnected_world) as [Hprod Hcons].
  destruct (Hprod eq_refl) as (Hcontent & Hresult & Hflagged & Hdead).
  destruct (Hcons eq_refl) as [Hsub Hstart].
  split; [apply Hcontent|]. split; [apply Hresult|].
  split; [apply Hflagged|]. split; [apply Hdead|].
  split; [apply Hsub | exact Hstart].
Defined.


(** * Properties of the rest of the code *)

(** ** The cache manager as a key-value store *)

Ltac run_more :=
  unfold RedisMore.client_del, RedisMore.client_exists,
    RedisMore.client_incrBy, RedisMore.client_expire,
    RedisMore.client_connect, RedisMore.client_disconnect, RedisMore.call;
  run_redis.

Section CacheStore.
Import Redis CacheManager.
Context (cfg : RedisConfig) {reply : RedisMore.IntegerReply}.

(** What a read at instant [t] sees of an entry written under the key. *)
Lemma get_written key val exp t w :
  faults w = [] →
  keyspace w !! (keyPrefix cfg +:+ key) = Some (mkEntry val exp) →
  ∃ w', at_time t (get cfg key) w =
          (Returns (if live t (mkEntry val exp) then Some val else None), w') ∧
        keyspace w' = keyspace w ∧ faults w' = [].
Proof.
  intros Hf Hk. unfold at_time.
  rewrite get_succeeds by (left; exact Hf). eexists. split.
  - unfold lookup. simpl. rewrite Hk. by destruct (live t _).
  - simpl. by rewrite Hf.
Qed.

(** [set] on a healthy store with a time to live of [n > 0] whole
    seconds. *)
Lemma set_seconds key val (q : Q) w :
  faults w = [] → valid_seconds q = true →
  set cfg key val (Some (Finite q)) w =
    (Returns tt,
     {| keyspace :=
          <[keyPrefix cfg +:+ key :=
              mkEntry val (Some (clock w + 1000 * Qfloor q))]> (keyspace w);
        clock := clock w; faults := [];
        sent := SETEX (keyPrefix cfg +:+ key) (Finite q) val :: sent w;
        log := mkLog Debug "Cache value set successfully" :: log w |}).
Proof.
  intros Hf Hv. world w. unfold set.
  pose proof Hv as Hv'. unfold valid_seconds in Hv'.
  apply andb_true_iff in Hv' as [_ Hpos]. apply negb_true_iff in Hpos.
  assert (Hnz : Qeq_bool q 0 = false).
  { apply not_true_is_false. intros E. apply Qeq_bool_iff in E.
    apply Qle_bool_false in Hpos. lra. }
  simpl. rewrite Hnz. simpl. rewrite Hpos. simpl.
  unfold tryCatch, bind. rewrite client_setEx_healthy by done.
  run_redis. done.
Qed.

(** A value written for [n] whole seconds, read at instant [t]. *)
Lemma set_get_seconds key val (n : Z) t w :
  faults w = [] → 0 < n →
  ∃ w1 w2,
    set cfg key val (Some (Finite (inject_Z n))) w = (Returns tt, w1) ∧
    at_time t (get cfg key) w1 =
      (Returns (if decide (t ≤ clock w + 1000 * n) then Some val else None),
       w2).
Proof.
  intros Hf Hn.
  assert (Hv : valid_seconds (inject_Z n) = true).
  { unfold valid_seconds. rewrite (is_integer_inject n).
    apply negb_true_iff, Qle_bool_false.
    rewrite Zlt_Qlt in Hn. exact Hn. }
  rewrite (set_seconds key val _ w Hf Hv). rewrite Qfloor_Z.
  match goal with |- context [(Returns tt, ?w1)] =>
    destruct (get_written key val (Some (clock w + 1000 * n)) t w1)
      as (w2 & Hg & _); [done | simpl; by rewrite lookup_insert_eq |];
    exists w1, w2 end.
  split; [done|]. rewrite Hg. unfold live. simpl.
  destruct (decide _) as [Hle | Hgt].
  - by rewrite (proj2 (Z.leb_le _ _) Hle).
  - by rewrite (proj2 (Z.leb_gt _ _)) by lia.
Qed.

(** X1.  A value set with a time to live of [n] whole seconds is read
    back until [n] seconds have passed, and is gone afterwards. *)
Theorem set_then_get key val (n : Z) t w :
  faults w = [] → 0 < n →
  ∃ w1 w2,
    set cfg key val (Some (Finite (inject_Z n))) w = (Returns tt, w1) ∧
    at_time t (get cfg key) w1 =
      (Returns (if decide (t ≤ clock w + 1000 * n) then Some val else None),
       w2).
Proof. apply set_get_seconds. Qed.



(** [set] without a time to live: the value is kept for ever. *)
Lemma set_for_ever key val n w :
  faults w = [] →
  js_gt0 (match n with
          | Some x => if truthy_number x then x
                      else Finite (inject_Z (ttl cfg))
          | None => Finite (inject_Z (ttl cfg))
          end) = false →
  set cfg key val n w =
    (Returns tt,
     {| keyspace :=
          <[keyPrefix cfg +:+ key := mkEntry val None]> (keyspace w);
        clock := clock w; faults := [];
        sent := SET (keyPrefix cfg +:+ key) val :: sent w;
        log := mkLog Debug "Cache value set successfully" :: log w |}).
Proof.
  intros Hf Hgt. world w. unfold set. rewrite Hgt. run_redis. done.
Qed.

(** X2.  [set] called without a time to live, or with [0] or [NaN], uses
    the [ttl] of the configuration: the value is read back until that
    many seconds have passed, and for ever when the configured [ttl] is
    not positive. *)
Theorem set_default_ttl key val n t w :
  faults w = [] →
  n = None ∨ n = Some NaN ∨ (∃ q, n = Some (Finite q) ∧ (q == 0)%Q) →
  ∃ w1 w2,
    set cfg key val n w = (Returns tt, w1) ∧
    at_time t (get cfg key) w1 =
      (Returns (if decide (0 < ttl cfg ∧ clock w + 1000 * ttl cfg < t)
                then None else Some val), w2).
Proof.
  intros Hf Hn.
  assert (Heq : set cfg key val n w =
                set cfg key val (Some (Finite (inject_Z (ttl cfg)))) w).
  { unfold set.
    destruct Hn as [-> | [-> | (q & -> & Hq)]]; simpl;
      try (apply Qeq_bool_iff in Hq; rewrite Hq; simpl);
      by destruct (Qeq_bool (inject_Z (ttl cfg)) 0). }
  rewrite Heq. destruct (decide (0 < ttl cfg)) as [Hpos | Hneg].
  - destruct (set_get_seconds key val (ttl cfg) t w Hf Hpos)
      as (w1 & w2 & Hs & Hg).
    exists w1, w2. split; [done|]. rewrite Hg.
    repeat destruct (decide _); try done; lia.
  - rewrite set_for_ever; [|done|].
    2:{ assert (Hle : Qle_bool (inject_Z (ttl cfg)) 0 = true).
        { apply Qle_bool_iff. change 0%Q with (inject_Z 0).
          rewrite <- Zle_Qle. lia. }
        simpl. destruct (Qeq_bool (inject_Z (ttl cfg)) 0); simpl;
          by rewrite Hle. }
    match goal with |- context [(Returns tt, ?w1)] =>
      destruct (get_written key val None t w1) as (w2 & Hg & _);
        [done | simpl; by rewrite lookup_insert_eq |];
      exists w1, w2 end.
    split; [done|]. rewrite Hg. simpl.
    destruct (decide _); [lia | done].
Qed.

(** X3.  A negative time to live stores the value for ever; a positive
    one that is not a whole number of seconds is refused by the server,
    and [set] raises a [DatabaseError] without storing anything. *)
Theorem set_odd_ttl key val (q : Q) w :
  faults w = [] →
  ((q < 0)%Q →
   ∃ w1, set cfg key val (Some (Finite q)) w = (Returns tt, w1) ∧
         ∀ t, ∃ w2, at_time t (get cfg key) w1 = (Returns (Some val), w2)) ∧
  ((0 < q)%Q → ¬ is_integer q →
   ∃ w1, set cfg key val (Some (Finite q)) w =
           (Throws (DatabaseError
                      ("Failed to set cache value for key " +:+ key) None),
            w1) ∧
         keyspace w1 = keyspace w).
Proof.
  intros Hf. split.
  - intros Hq. rewrite set_for_ever; [|done|].
    2:{ simpl. replace (Qeq_bool q 0) with false.
        - simpl. replace (Qle_bool q 0) with true; [done|].
          symmetry. apply Qle_bool_iff. lra.
        - symmetry. apply not_true_is_false. intros E.
          apply Qeq_bool_iff in E. lra. }
    eexists. split; [done|]. intros t.
    match goal with |- context [at_time t _ ?w1] =>
      destruct (get_written key val None t w1) as (w2 & Hg & _);
        [done | simpl; by rewrite lookup_insert_eq |] end.
    exists w2. by rewrite Hg.
  - intros Hq Hint. world w. unfold set. simpl.
    replace (Qeq_bool q 0) with false.
    2:{ symmetry. apply not_true_is_false. intros E.
        apply Qeq_bool_iff in E. lra. }
    simpl. replace (Qle_bool q 0) with false
      by (symmetry; by apply Qle_bool_false).
    simpl. run_redis. unfold valid_seconds.
    replace (Qeq_bool q (inject_Z (Qfloor q))) with false
      by (symmetry; by apply not_true_is_false).
    simpl. eauto.
Qed.


(** X4.  When the server fails the command, every key operation raises a
    [DatabaseError] that names the key as the caller gave it, logs the
    failure at error level and leaves the keyspace alone. *)
Theorem key_operations_raise_DatabaseError key val n (q : Q) w fs :
  faults w = true :: fs →
  let failed {A} (r : Outcome A * World) (msg : string) :=
    r.1 = Throws (DatabaseError (msg +:+ key) None) ∧
    keyspace r.2 = keyspace w ∧
    ∃ what rest, log r.2 = mkLog Error what :: rest in
  failed (get cfg key w) "Failed to get cache value for key " ∧
  failed (set cfg key val n w) "Failed to set cache value for key " ∧
  failed (Cache.delete cfg key w) "Failed to delete cache value for key " ∧
  failed (Cache.exists_ cfg key w)
    "Failed to check existence of cache key " ∧
  failed (Cache.increment cfg key q w)
    "Failed to increment cache value for key " ∧
  failed (Cache.expire cfg key q w)
    "Failed to set expiration for cache key ".
Proof.
  intros Hf. world w.
  unfold get, set, Cache.delete, Cache.exists_, Cache.increment,
    Cache.expire.
  repeat split; try (run_more; eauto; fail).
  all: match goal with |- context [js_gt0 ?x] => destruct (js_gt0 x) end;
    run_more; eauto.
Qed.

(** An entry that has expired stays expired. *)
Lemma lookup_expired_later key t w :
  lookup w key = None → clock w ≤ t → lookup (with_clock t w) key = None.
Proof.
  unfold lookup, live. simpl. destruct (keyspace w !! key) as [e|]; [|done].
  destruct (expireAt e) as [x|]; [|done].
  destruct (clock w <=? x) eqn:E; [done|]. intros _ Ht.
  apply Z.leb_gt in E. by rewrite (proj2 (Z.leb_gt _ _)) by lia.
Qed.

(** X5.  [delete] returns [1] when the key held a live value and [0]
    otherwise; from then on the key reads as missing. *)
Theorem delete_removes key w :
  faults w = [] →
  ∃ w1,
    Cache.delete cfg key w =
      (Returns (match lookup w (keyPrefix cfg +:+ key) with
                | Some _ => 1
                | None => 0
                end), w1) ∧
    (∀ t, clock w ≤ t →
       ∃ w2, at_time t (get cfg key) w1 = (Returns None, w2)) ∧
    (lookup w (keyPrefix cfg +:+ key) = None → keyspace w1 = keyspace w).
Proof.
  intros Hf. unfold Cache.delete.
  destruct (lookup w (keyPrefix cfg +:+ key)) as [e|] eqn:Hl.
  - world w. run_more. rewrite Hl. eexists. split; [done|].
    split; [|done]. intros t _. unfold get. run_redis.
    unfold lookup. simpl. rewrite lookup_delete_eq. eauto.
  - pose proof (λ t, lookup_expired_later _ t w Hl) as Hlater.
    world w. run_more. rewrite Hl. eexists. split; [done|].
    split; [|done]. intros t Ht. unfold get. run_redis.
    specialize (Hlater t Ht). unfold lookup in *. simpl in *.
    rewrite Hlater. eauto.
Qed.

(** [exists] says [true] exactly when [get] at the same instant
    returns a value. *)
Lemma exists_agrees_with_get key w :
  faults w = [] →
  ∃ found value w1 w2,
    Cache.exists_ cfg key w = (Returns found, w1) ∧
    get cfg key w = (Returns value, w2) ∧
    (found = true ↔ is_Some value) ∧
    keyspace w1 = keyspace w.
Proof.
  intros Hf. world w. unfold Cache.exists_, get. run_more.
  destruct (lookup _ _) as [e|]; simpl; eexists _, _, _, _;
    (split; [done|]); (split; [done|]); (split; [|done]);
    split; try done; try (by eexists); by intros [? [=]].
Qed.


(** *** Counters *)


Lemma as_int64_inject (n : Z) :
  RedisMore.int64 n = true → RedisMore.as_int64 (inject_Z n) = Some n.
Proof.
  intros Hn. unfold RedisMore.as_int64.
  pose proof (is_integer_inject n) as Hi. unfold is_integer in Hi.
  rewrite Hi, Qfloor_Z, Hn. done.
Qed.




(** X8.  [expire] on a missing key returns [false] and changes nothing;
    on a live key with [s > 0] whole seconds it returns [true], and the
    value is then read back until [s] seconds have passed and is gone
    afterwards; with [s ≤ 0] the key is removed at once. *)
Theorem expire_sets_the_deadline key (s : Z) w :
  faults w = [] → RedisMore.int64 s = true →
  match lookup w (keyPrefix cfg +:+ key) with
  | None =>
      ∃ w1, Cache.expire cfg key (inject_Z s) w = (Returns false, w1) ∧
            keyspace w1 = keyspace w
  | Some e =>
      ∃ w1, Cache.expire cfg key (inject_Z s) w = (Returns true, w1) ∧
            ∀ t, ∃ w2,
              at_time t (get cfg key) w1 =
                (Returns (if decide (0 < s ∧ t ≤ clock w + 1000 * s)
                          then Some (Redis.value e) else None), w2)
  end.
Proof.
  intros Hf Hs. unfold Cache.expire.
  destruct (lookup w (keyPrefix cfg +:+ key)) as [e|] eqn:Hl;
    world w; run_more; rewrite (as_int64_inject s Hs), Hl.
  - destruct (s <=? 0) eqn:E; eexists; (split; [done|]); intros t;
      unfold get; run_redis; unfold lookup, live; simpl.
    + rewrite lookup_delete_eq. apply Z.leb_le in E.
      destruct (decide _); [lia | eauto].
    + rewrite lookup_insert_eq. simpl. apply Z.leb_gt in E.
      destruct (decide _) as [[_ Hle] | Hn].
      * rewrite (proj2 (Z.leb_le _ _) Hle). eauto.
      * rewrite (proj2 (Z.leb_gt _ _)) by lia. eauto.
  - eexists. done.
Qed.

(** The keys of the manager under one prefix are distinct when the keys
    given by the callers are. *)
Lemma prefixed_ne (k k' : string) :
  k ≠ k' → keyPrefix cfg +:+ k ≠ keyPrefix cfg +:+ k'.
Proof. intros Hne Heq. by apply (inj (String.app _)) in Heq. Qed.

(** X9.  Whatever the faults, an operation on one key leaves what is
    stored under every other key as it was. *)
Theorem other_keys_are_untouched key other val n (q : Q) w :
  key ≠ other →
  let same (w' : World) :=
    keyspace w' !! (keyPrefix cfg +:+ other)
      = keyspace w !! (keyPrefix cfg +:+ other) ∧
    clock w' = clock w in
  same (set cfg key val n w).2 ∧
  same (get cfg key w).2 ∧
  same (Cache.delete cfg key w).2 ∧
  same (Cache.exists_ cfg key w).2 ∧
  same (Cache.increment cfg key q w).2 ∧
  same (Cache.expire cfg key q w).2.
Proof.
  intros Hne same. subst same. apply prefixed_ne in Hne.
  split; [|split; [|split; [|split; [|split]]]].
  - destruct (set_cases cfg key val n w)
      as (r & w' & E & Hc & [Hk | [e Hk]]);
      rewrite E; simpl; rewrite Hk; [done|]. by rewrite lookup_insert_ne.
  - destruct (get_cases cfg key w) as (r & w' & E & Hk & Hc & _).
    rewrite E. simpl. by rewrite Hk, Hc.
  - world w. unfold Cache.delete.
    destruct fs as [|[] fs]; run_more; try done;
      destruct (lookup _ _); simpl; by rewrite ?lookup_delete_ne.
  - world w. unfold Cache.exists_.
    destruct fs as [|[] fs]; run_more; done.
  - world w. unfold Cache.increment.
    destruct fs as [|[] fs]; run_more; try done;
      destruct (RedisMore.as_int64 q); try done;
      destruct (lookup _ _) as [e|]; simpl;
      try destruct (RedisMore.parse_int64 _); simpl; try done;
      destruct (RedisMore.int64 _); simpl; by rewrite ?lookup_insert_ne.
  - world w. unfold Cache.expire.
    destruct fs as [|[] fs]; run_more; try done;
      destruct (RedisMore.as_int64 q); try done;
      destruct (lookup _ _) as [e|]; simpl; try done;
      destruct (_ <=? 0); simpl;
      by rewrite ?lookup_insert_ne, ?lookup_delete_ne.
Qed.


(** X10.  [connect] on a connected manager and [disconnect] on a
    disconnected one do nothing.  A failed [connect] raises a
    [DatabaseError] and leaves the manager disconnected.  [disconnect]
    never raises: when the client fails to disconnect, the failure is
    logged and the manager stays connected. *)
Theorem cache_connection_lifecycle (s : Cache.State) :
  (Cache.isConnected s = true → Cache.connect s = (Returns tt, s)) ∧
  (Cache.isConnected s = false → Cache.disconnect s = (Returns tt, s)) ∧
  (Cache.isConnected s = false → next_ok (faults (Cache.world s)) →
   ∃ s', Cache.connect s = (Returns tt, s') ∧
         Cache.isConnected s' = true) ∧
  (Cache.isConnected s = false →
   ∀ fs, faults (Cache.world s) = true :: fs →
   ∃ s', Cache.connect s =
           (Throws (DatabaseError "Failed to connect to Redis cache" None),
            s') ∧
         Cache.isConnected s' = false) ∧
  (Cache.isConnected s = true → next_ok (faults (Cache.world s)) →
   ∃ s', Cache.disconnect s = (Returns tt, s') ∧
         Cache.isConnected s' = false) ∧
  (Cache.isConnected s = true →
   ∀ fs, faults (Cache.world s) = true :: fs →
   ∃ s' rest,
     Cache.disconnect s = (Returns tt, s') ∧
     Cache.isConnected s' = true ∧
     log (Cache.world s') =
       mkLog Error "Failed to disconnect from Redis cache" :: rest).
Proof.
  destruct s as [w c]. unfold Cache.connect, Cache.disconnect. simpl.
  repeat split; intros; subst; try done.
  - destruct H0 as [Hf | [fs Hf]]; world w;
      unfold Cache.lift, Cache.with_world, Cache.with_isConnected;
      run_more; eauto.
  - world w.
    unfold Cache.lift, Cache.with_world, Cache.with_isConnected;
      run_more; eauto.
  - destruct H0 as [Hf | [fs Hf]]; world w;
      unfold Cache.lift, Cache.with_world, Cache.with_isConnected;
      run_more; eauto.
  - world w.
    unfold Cache.lift, Cache.with_world, Cache.with_isConnected;
      run_more; eauto.
Qed.

End CacheStore.

Lemma set_then_get_witness :
  ∃ w1 w2,
    CacheManager.set sample_config "session" "abc" (Some (Finite 60))
      sample_world = (Returns tt, w1) ∧
    at_time 1700000060000 (CacheManager.get sample_config "session") w1 =
      (Returns (Some "abc"), w2).
Proof.
  destruct (set_then_get sample_config "session" "abc" 60 1700000060000
              sample_world eq_refl eq_refl) as (w1 & w2 & H1 & H2).
  exists w1, w2. split; [exact H1 | exact H2].
Defined.

Lemma set_default_ttl_witness :
  ∃ w1 w2,
    CacheManager.set sample_config "session" "abc" (Some (Finite 0))
      sample_world = (Returns tt, w1) ∧
    at_time 1700003600001 (CacheManager.get sample_config "session") w1 =
      (Returns None, w2).
Proof.
  destruct (set_default_ttl sample_config "session" "abc" (Some (Finite 0))
              1700003600001 sample_world eq_refl) as (w1 & w2 & H1 & H2).
  { right. right. exists 0%Q. split; reflexivity. }
  exists w1, w2. split; [exact H1 | exact H2].
Defined.

Lemma set_odd_ttl_witness :
  (∃ w1, CacheManager.set sample_config "session" "abc"
           (Some (Finite (-5))) sample_world = (Returns tt, w1) ∧
         ∃ w2, at_time 1800000000000
                 (CacheManager.get sample_config "session") w1
               = (Returns (Some "abc"), w2)) ∧
  (∃ w1, CacheManager.set sample_config "session" "abc"
           (Some (Finite (3 # 2))) sample_world =
           (Throws (DatabaseError
                      "Failed to set cache value for key session" None),
            w1) ∧
         Redis.keyspace w1 = Redis.keyspace sample_world).
Proof.
  split.
  - destruct (set_odd_ttl sample_config "session" "abc" (-5) sample_world
                eq_refl) as [H _].
    destruct (H eq_refl) as (w1 & Hs & Hg). exists w1. split; [exact Hs|].
    apply Hg.
  - destruct (set_odd_ttl sample_config "session" "abc" (3 # 2) sample_world
                eq_refl) as [_ H].
    apply H; [reflexivity | discriminate].
Defined.

Lemma key_operations_raise_DatabaseError_witness :
  (CacheManager.get sample_config "k" outage_world).1 =
    Throws (DatabaseError "Failed to get cache value for key k" None) ∧
  (Cache.increment sample_config "k" 1 outage_world).1 =
    Throws (DatabaseError "Failed to increment cache value for key k" None).
Proof.
  destruct (key_operations_raise_DatabaseError sample_config "k" "v" None 1
              outage_world [true; true] eq_refl)
    as ((Hg & _) & _ & _ & _ & (Hi & _) & _).
  split; [exact Hg | exact Hi].
Defined.

Lemma delete_removes_witness :
  ∃ w1 w2,
    Cache.delete sample_config "u1" sample_world = (Returns 0, w1) ∧
    at_time 1700000000000 (CacheManager.get sample_config "u1") w1 =
      (Returns None, w2).
Proof.
  destruct (delete_removes sample_config "u1" sample_world eq_refl)
    as (w1 & Hd & Hg & _).
  destruct (Hg 1700000000000) as [w2 Hg2]; [vm_compute; discriminate|].
  exists w1, w2. split; [exact Hd | exact Hg2].
Defined.

Lemma exists_agrees_with_get_witness :
  ∃ w1 w2,
    Cache.exists_ sample_config "rate_limit:u1" garbled_world
      = (Returns true, w1) ∧
    CacheManager.get sample_config "rate_limit:u1" garbled_world
      = (Returns (Some "not json"), w2).
Proof.
  destruct (exists_agrees_with_get sample_config "rate_limit:u1"
              garbled_world eq_refl)
    as (found & value & w1 & w2 & He & Hg & _ & _).
  exists w1, w2. split.
  - rewrite He. vm_compute in He. by injection He as <- _.
  - rewrite Hg. vm_compute in Hg. by injection Hg as <- _.
Defined.



Lemma expire_sets_the_deadline_witness :
  ∃ w1 w2,
    Cache.expire sample_config "rate_limit:u1" 30 garbled_world
      = (Returns true, w1) ∧
    at_time 1700000030001 (CacheManager.get sample_config "rate_limit:u1") w1
      = (Returns None, w2).
Proof.
  pose proof (expire_sets_the_deadline sample_config "rate_limit:u1" 30
                garbled_world eq_refl eq_refl) as H.
  change (Redis.lookup garbled_world
            (keyPrefix sample_config +:+ "rate_limit:u1"))
    with (Some (Redis.mkEntry "not json" None)) in H.
  destruct H as (w1 & He & Hg). destruct (Hg 1700000030001) as (w2 & Hg2).
  exists w1, w2. split; [exact He | exact Hg2].
Defined.

Lemma other_keys_are_untouched_witness :
  Redis.keyspace (Cache.delete sample_config "other" garbled_world).2
    !! "ads:rate_limit:u1"
  = Some (Redis.mkEntry "not json" None).
Proof.
  assert (Hne : "other" ≠ "rate_limit:u1") by discriminate.
  destruct (other_keys_are_untouched sample_config "other" "rate_limit:u1"
              "v" None 1 garbled_world Hne)
    as (_ & _ & (Hd & _) & _).
  exact Hd.
Defined.

Lemma cache_connection_lifecycle_witness :
  (∃ s', Cache.connect (Cache.mkState sample_world false)
           = (Returns tt, s') ∧ Cache.isConnected s' = true) ∧
  (∃ s', Cache.connect (Cache.mkState outage_world false) =
           (Throws (DatabaseError "Failed to connect to Redis cache" None),
            s') ∧ Cache.isConnected s' = false) ∧
  (∃ s' rest,
     Cache.disconnect (Cache.mkState outage_world true) = (Returns tt, s') ∧
     Cache.isConnected s' = true ∧
     Redis.log (Cache.world s') =
       mkLog Error "Failed to disconnect from Redis cache" :: rest).
Proof.
  split; [|split].
  - destruct (cache_connection_lifecycle (Cache.mkState sample_world false))
      as (_ & _ & H & _).
    apply H; [reflexivity | left; reflexivity].
  - destruct (cache_connection_lifecycle (Cache.mkState outage_world false))
      as (_ & _ & _ & H & _).
    apply (H eq_refl [true; true]). reflexivity.
  - destruct (cache_connection_lifecycle (Cache.mkState outage_world true))
      as (_ & _ & _ & _ & _ & H).
    apply (H eq_refl [true; true]). reflexivity.
Defined.

(** ** The limiter and the lock side by side *)

Section CacheKeys.
Import Redis CacheManager.
Context (cfg : RedisConfig) {json : BucketJSON}.

Lemma bucketKey_ne_lockKey id K : bucketKey cfg id ≠ lockKeyOf cfg K.
Proof.
  unfold bucketKey, lockKeyOf. intros Heq.
  apply (inj (String.app _)) in Heq. discriminate Heq.
Qed.

Lemma bucketKey_inj id id' : id ≠ id' → bucketKey cfg id ≠ bucketKey cfg id'.
Proof.
  unfold bucketKey. intros Hne Heq.
  apply (inj (String.app _)) in Heq. by apply (inj (String.app _)) in Heq.
Qed.

Lemma lockKeyOf_inj K K' : K ≠ K' → lockKeyOf cfg K ≠ lockKeyOf cfg K'.
Proof.
  unfold lockKeyOf. intros Hne Heq.
  apply (inj (String.app _)) in Heq. by apply (inj (String.app _)) in Heq.
Qed.

(** A check changes at most the bucket of its identifier. *)
Lemma rateLimitCheck_only_its_bucket id (M R req : Q) key w :
  key ≠ bucketKey cfg id →
  keyspace (rateLimitCheck cfg id M R req w).2 !! key = keyspace w !! key.
Proof.
  intros Hne.
  destruct (rateLimitCheck_cases cfg id M R req w)
    as (b & w' & E & _ & [Hk | (a & e & _ & _ & Hk)]);
    rewrite E; simpl; rewrite Hk; [done|]. by rewrite lookup_insert_ne.
Qed.

(** A lock operation changes at most the key of its lock. *)
Lemma lock_only_its_key K (ttlSeconds : Q) T key w :
  key ≠ lockKeyOf cfg K →
  keyspace (acquireLock cfg K ttlSeconds T w).2 !! key = keyspace w !! key ∧
  keyspace (releaseLock cfg K T w).2 !! key = keyspace w !! key.
Proof.
  intros Hne. world w. unfold acquireLock, releaseLock.
  fold (lockKeyOf cfg K). split.
  - destruct fs as [|[] fs]; run_redis; try done;
      destruct (valid_seconds ttlSeconds); try done;
      destruct (lookup _ _); simpl; by rewrite ?lookup_insert_ne.
  - destruct fs as [|[] fs]; run_redis; try done;
      destruct (lookup _ _); try done; destruct (decide _); simpl;
      by rewrite ?lookup_delete_ne.
Qed.

(** X11.  Whatever the faults, a rate-limit check never touches a lock
    nor the bucket of another identifier, and acquiring or releasing a
    lock never touches a bucket nor another lock. *)
Theorem limiter_and_lock_are_separate id K (M R req ttlSeconds : Q) T w :
  (∀ K', keyspace (rateLimitCheck cfg id M R req w).2 !! lockKeyOf cfg K'
         = keyspace w !! lockKeyOf cfg K') ∧
  (∀ id', id ≠ id' →
     keyspace (rateLimitCheck cfg id M R req w).2 !! bucketKey cfg id'
       = keyspace w !! bucketKey cfg id') ∧
  (∀ id',
     keyspace (acquireLock cfg K ttlSeconds T w).2 !! bucketKey cfg id'
       = keyspace w !! bucketKey cfg id' ∧
     keyspace (releaseLock cfg K T w).2 !! bucketKey cfg id'
       = keyspace w !! bucketKey cfg id') ∧
  (∀ K', K ≠ K' →
     keyspace (acquireLock cfg K ttlSeconds T w).2 !! lockKeyOf cfg K'
       = keyspace w !! lockKeyOf cfg K' ∧
     keyspace (releaseLock cfg K T w).2 !! lockKeyOf cfg K'
       = keyspace w !! lockKeyOf cfg K').
Proof.
  split; [|split; [|split]].
  - intros K'. apply rateLimitCheck_only_its_bucket.
    intros H. by apply (bucketKey_ne_lockKey id K').
  - intros id' Hne. apply rateLimitCheck_only_its_bucket.
    intros H. by apply (bucketKey_inj id id').
  - intros id'. apply lock_only_its_key. apply bucketKey_ne_lockKey.
  - intros K' Hne. apply lock_only_its_key.
    intros H. by apply (lockKeyOf_inj K K').
Qed.

(** X12.  A lock that has expired can be taken by another owner; the
    release of the former owner then returns [false] and leaves the lock
    with its new owner, who can still release it. *)
Theorem expired_lock_is_taken_over K (ttlSeconds : Q) T1 T2 t t' w :
  faults w = [] → valid_seconds ttlSeconds = true → T1 ≠ T2 →
  lookup w (lockKeyOf cfg K) = None →
  clock w + 1000 * Qfloor ttlSeconds < t →
  t' ≤ t + 1000 * Qfloor ttlSeconds →
  ∃ w1 w2 w3 w4,
    acquireLock cfg K ttlSeconds T1 w = (Returns true, w1) ∧
    at_time t (acquireLock cfg K ttlSeconds T2) w1 = (Returns true, w2) ∧
    at_time t' (releaseLock cfg K T1) w2 = (Returns false, w3) ∧
    Redis.value <$> lookup w3 (lockKeyOf cfg K) = Some T2 ∧
    releaseLock cfg K T2 w3 = (Returns true, w4) ∧
    lookup w4 (lockKeyOf cfg K) = None.
Proof.
  intros Hf Hv Hne Hfree Ht Ht'.
  rewrite (acquireLock_healthy cfg K ttlSeconds T1 w Hf Hv), Hfree.
  unfold at_time, with_clock. eexists _, _, _, _. split; [done|].
  cbn [keyspace clock faults sent log].
  rewrite acquireLock_healthy by done.
  unfold lookup at 1, live. cbn [keyspace clock expireAt].
  rewrite lookup_insert_eq. cbn [expireAt].
  rewrite (proj2 (Z.leb_gt _ _)) by lia.
  split; [done|]. cbn [keyspace clock faults sent log].
  rewrite insert_insert_eq.
  rewrite releaseLock_healthy, lookup_lock_held by done.
  cbn [Redis.value]. rewrite decide_False by done.
  split; [done|]. cbn [keyspace clock faults sent log].
  rewrite lookup_lock_held by done.
  split; [done|].
  rewrite releaseLock_healthy by done. cbn [keyspace clock faults sent log].
  rewrite lookup_lock_held by done.
  cbn [Redis.value]. rewrite decide_True by done.
  split; [done|]. unfold lookup. cbn [keyspace]. by rewrite lookup_delete_eq.
Qed.


(** *** A rate of zero *)




End CacheKeys.

Lemma limiter_and_lock_are_separate_witness :
  Redis.keyspace
    (CacheManager.rateLimitCheck sample_config "u1" 10 1 1 garbled_world).2
    !! bucketKey sample_config "u2"
  = Redis.keyspace garbled_world !! bucketKey sample_config "u2".
Proof.
  assert (Hne : "u1" ≠ "u2") by discriminate.
  destruct (limiter_and_lock_are_separate sample_config "u1" "lag" 10 1 1 30
              "T1" garbled_world) as (_ & H & _).
  exact (H "u2" Hne).
Defined.

Lemma expired_lock_is_taken_over_witness :
  ∃ w1 w2 w3 w4,
    CacheManager.acquireLock sample_config "lag" 30 "T1" sample_world
      = (Returns true, w1) ∧
    at_time 1700000030001
      (CacheManager.acquireLock sample_config "lag" 30 "T2") w1
      = (Returns true, w2) ∧
    at_time 1700000031000
      (CacheManager.releaseLock sample_config "lag" "T1") w2
      = (Returns false, w3) ∧
    Redis.value <$> Redis.lookup w3 (lockKeyOf sample_config "lag")
      = Some "T2" ∧
    CacheManager.releaseLock sample_config "lag" "T2" w3
      = (Returns true, w4) ∧
    Redis.lookup w4 (lockKeyOf sample_config "lag") = None.
Proof.
  assert (Hne : "T1" ≠ "T2") by discriminate.
  apply (expired_lock_is_taken_over sample_config "lag" 30 "T1" "T2"
           1700000030001 1700000031000 sample_world eq_refl eq_refl Hne
           eq_refl); vm_compute; [reflexivity | discriminate].
Defined.


(** ** The producer and the consumer *)

Ltac run_kafka_more :=
  unfold Producer.connect, Producer.disconnect, Consumer.connect,
    Consumer.disconnect, Consumer.stopConsuming,
    KafkaMore.producer_connect, KafkaMore.producer_disconnect,
    KafkaMore.consumer_connect, KafkaMore.consumer_disconnect,
    KafkaMore.consumer_stop;
  run_kafka;
  unfold KafkaMore.with_producerConnected, KafkaMore.with_consumerConnected;
  simpl.

Section KafkaMoreProofs.
Import Kafka KafkaProducerManager KafkaConsumerManager.
Context (topics : IKafkaTopics) (runtime : Runtime).

(** On a connected producer, when the broker serves the request,
    each publishing method puts exactly one record with one message on
    its topic, keyed by the user (content events) or by the content
    (results and flagged content); the [messageId] header is the one of
    the envelope, and the receipt names the topic. *)
Lemma publish_puts_one_record_on_its_topic w :
  producerConnected w = true → next_ok (faults w) →
  let messageId := uuid_text runtime (drawn w) in
  let now := toISOString runtime (clock w) in
  let receipt t := [mkMetadata t (Z.of_nat (length (accepted w)))] in
  (∀ ev, ∃ w',
     publishContentEvent topics runtime ev w
       = (Returns (receipt (rawContent topics)), w') ∧
     accepted w' =
       {| r_topic := rawContent topics;
          messages :=
            [ {| m_key := userId ev;
                 m_value := ContentEnvelope ev messageId now;
                 m_headers :=
                   [("messageId", messageId);
                    ("contentType", contentType ev);
                    ("userId", userId ev);
                    ("timestamp", toISOString runtime (timestamp ev))] |} ]
       |} :: accepted w) ∧
  (∀ r, ∃ w',
     publishModerationResult topics runtime r w
       = (Returns (receipt (moderationResults topics)), w') ∧
     accepted w' =
       {| r_topic := moderationResults topics;
          messages :=
            [ {| m_key := contentId r;
                 m_value := ObjectEnvelope r messageId now;
                 m_headers :=
                   [("messageId", messageId); ("timestamp", now)] |} ]
       |} :: accepted w) ∧
  (∀ r, ∃ w',
     publishFlaggedContent topics runtime r w
       = (Returns (receipt (Kafka.flaggedContent topics)), w') ∧
     accepted w' =
       {| r_topic := Kafka.flaggedContent topics;
          messages :=
            [ {| m_key := contentId r;
                 m_value := ObjectEnvelope r messageId now;
                 m_headers :=
                   [("messageId", messageId); ("timestamp", now)] |} ]
       |} :: accepted w).
Proof.
  intros Hc Hf. kafka_world w.
  unfold publishContentEvent, publishModerationResult,
    publishFlaggedContent.
  repeat split; intros; destruct Hf as [-> | [fs' ->]]; run_kafka; eauto.
Qed.

(** X15.  On a connected producer, when the broker fails the request,
    each publishing method raises a [KafkaError] that names the topic and
    carries it; no record is accepted, the failure is logged by
    [sendMessage] and by the method, and the producer stays connected. *)
Theorem publish_failure_names_the_topic w fs :
  producerConnected w = true → faults w = true :: fs →
  let refused t :=
    KafkaError ("Failed to send message to topic " +:+ t) (Some t) in
  let after w' first :=
    accepted w' = accepted w ∧ producerConnected w' = true ∧
    faults w' = fs ∧
    log w' = mkLog Error first
             :: mkLog Error "Failed to send message to Kafka" :: log w in
  (∀ ev, ∃ w',
     publishContentEvent topics runtime ev w
       = (Throws (refused (rawContent topics)), w') ∧
     after w' "Failed to publish content event") ∧
  (∀ r, ∃ w',
     publishModerationResult topics runtime r w
       = (Throws (refused (moderationResults topics)), w') ∧
     after w' "Failed to publish moderation result") ∧
  (∀ r, ∃ w',
     publishFlaggedContent topics runtime r w
       = (Throws (refused (Kafka.flaggedContent topics)), w') ∧
     after w' "Failed to publish flagged content") ∧
  (∀ o e, ∃ w',
     sendToDeadLetter topics runtime o e w
       = (Throws (refused (deadLetter topics)), w') ∧
     after w' "Failed to send message to dead letter queue").
Proof.
  intros Hc Hf. kafka_world w.
  unfold publishContentEvent, publishModerationResult,
    publishFlaggedContent, sendToDeadLetter.
  repeat split; intros; run_kafka; eexists; done.
Qed.

(** X16.  Whatever the state and the faults, each publishing method
    draws exactly one UUID, leaves the connection flags, the handlers,
    the subscriptions, the runner and the clock alone, and keeps the
    records accepted so far, adding at most one in front. *)
Theorem publish_changes_nothing_else w :
  (∀ ev, publishes_at_most_one w
           (publishContentEvent topics runtime ev w).2) ∧
  (∀ r, publishes_at_most_one w
          (publishModerationResult topics runtime r w).2) ∧
  (∀ r, publishes_at_most_one w
          (publishFlaggedContent topics runtime r w).2) ∧
  (∀ o e, publishes_at_most_one w
            (sendToDeadLetter topics runtime o e w).2).
Proof.
  kafka_world w.
  unfold publishContentEvent, publishModerationResult,
    publishFlaggedContent, sendToDeadLetter, publishes_at_most_one.
  repeat split; intros;
    (destruct pc; [destruct fs as [|[] fs]|]); run_kafka; eauto.
Qed.

(** X17.  On a connected consumer and a healthy broker, subscribing
    twice to a topic leaves the handler given last: it is the one that
    [eachMessage] calls; the handlers of the other topics stay. *)
Theorem subscribe_keeps_the_last_handler t h1 h2 w :
  consumerConnected w = true → faults w = [] →
  ∃ w1 w2,
    subscribe t h1 w = (Returns tt, w1) ∧
    subscribe t h2 w1 = (Returns tt, w2) ∧
    messageHandlers w2 !! t = Some h2 ∧
    (∀ t', t' ≠ t → messageHandlers w2 !! t' = messageHandlers w !! t') ∧
    subscribed w2 = t :: t :: subscribed w ∧
    (∀ payload, topic payload = t →
       fails (messageHandlers w2) payload
       = match h2 payload with Throws _ => true | Returns _ => false end).
Proof.
  intros Hc Hf. kafka_world w. unfold subscribe. run_kafka.
  eexists _, _. split; [done|]. split; [done|]. simpl.
  split; [by rewrite lookup_insert_eq|].
  split; [intros t' Hne; by rewrite !lookup_insert_ne|].
  split; [done|].
  intros payload <-. unfold fails. by rewrite lookup_insert_eq.
Qed.

(** X18.  When the broker fails the subscription, [subscribe] raises a
    [KafkaError] that names the topic and carries it, and the handler is
    not registered: the handler table and the subscriptions stay as they
    were. *)
Theorem failed_subscribe_registers_nothing t h w fs :
  consumerConnected w = true → faults w = true :: fs →
  ∃ w',
    subscribe t h w =
      (Throws (KafkaError ("Failed to subscribe to topic " +:+ t) (Some t)),
       w') ∧
    messageHandlers w' = messageHandlers w ∧
    subscribed w' = subscribed w ∧
    log w' = mkLog Error "Failed to subscribe to topic" :: log w.
Proof.
  intros Hc Hf. kafka_world w. unfold subscribe. run_kafka.
  eexists. done.
Qed.

(** X19.  A message for a topic without handler, or whose handler
    returns, publishes nothing: whatever the state of the producer and
    the faults to come, [eachMessage] returns, draws no UUID, sends no
    request and changes only the log. *)
Theorem handled_message_publishes_nothing payload w :
  fails (messageHandlers w) payload = false →
  eachMessage topics runtime payload w =
    (Returns tt,
     with_log
       (match messageHandlers w !! topic payload with
        | None => [mkLog Warn "No handler found for topic"]
        | Some _ => [mkLog Debug "Message processed successfully";
                     mkLog Debug "Processing message"]
        end ++ log w)%list w).
Proof.
  unfold fails, eachMessage. intros Hok. kafka_world w.
  destruct (hs !! topic payload) as [h|]; simpl.
  - destruct (h payload) as [[]|e] eqn:E; [|done].
    run_kafka. by rewrite ?E.
  - by run_kafka.
Qed.

(** X20.  When the handler raises and the dead-letter record cannot be
    published (the producer is not connected, or the broker fails the
    request), [eachMessage] still returns: the failure is logged by the
    producer and by the consumer, no record is accepted, and the message
    is dropped. *)
Theorem lost_dead_letter_is_swallowed payload w :
  fails (messageHandlers w) payload = true →
  producerConnected w = false ∨ (∃ fs, faults w = true :: fs) →
  ∃ w' rest,
    eachMessage topics runtime payload w = (Returns tt, w') ∧
    accepted w' = accepted w ∧
    messageHandlers w' = messageHandlers w ∧
    log w' =
      mkLog Error "Failed to send message to dead letter queue"
      :: mkLog Error "Failed to send message to dead letter queue"
      :: rest.
Proof.
  unfold fails, eachMessage. intros Hfail Hlost. kafka_world w.
  destruct (hs !! topic payload) as [h|]; simpl in *; [|done].
  destruct (h payload) as [[]|e] eqn:E; [done|].
  unfold handleFailedMessage, sendToDeadLetter.
  destruct Hlost as [-> | [fs' ->]].
  - run_kafka. rewrite ?E. simpl. eexists _, _. done.
  - destruct pc; run_kafka; rewrite ?E; simpl; eexists _, _; done.
Qed.

(** One message on a connected producer and a healthy broker. *)
Lemma eachMessage_healthy payload w :
  producerConnected w = true → faults w = [] →
  ∃ w',
    eachMessage topics runtime payload w = (Returns tt, w') ∧
    producerConnected w' = true ∧ faults w' = [] ∧
    messageHandlers w' = messageHandlers w ∧
    dead_lettered w' =
      ((if fails (messageHandlers w) payload then [original_of payload]
        else []) ++ dead_lettered w)%list ∧
    length (accepted w') =
      ((if fails (messageHandlers w) payload then 1 else 0)
       + length (accepted w))%nat.
Proof.
  intros Hc Hf. unfold fails, eachMessage, dead_lettered. kafka_world w.
  destruct (hs !! topic payload) as [h|]; simpl.
  - destruct (h payload) as [[]|e] eqn:E.
    + run_kafka. rewrite ?E. simpl. eexists. done.
    + unfold handleFailedMessage, sendToDeadLetter. run_kafka.
      rewrite ?E. simpl. eexists. done.
  - run_kafka. eexists. done.
Qed.

(** X21.  On a connected producer and a healthy broker, a batch
    dead-letters exactly the messages whose handler raised, each once
    and in the order of the batch, and publishes nothing else. *)
Theorem batch_dead_letters_the_failures payloads w :
  producerConnected w = true → faults w = [] →
  ∃ w',
    processMessages topics runtime payloads w = (Returns tt, w') ∧
    dead_lettered w' =
      (rev (original_of
              <$> List.filter (fails (messageHandlers w)) payloads)
       ++ dead_lettered w)%list ∧
    length (accepted w') =
      (length (List.filter (fails (messageHandlers w)) payloads)
       + length (accepted w))%nat.
Proof.
  revert w. induction payloads as [|p ps IH]; intros w Hc Hf.
  - exists w. done.
  - destruct (eachMessage_healthy p w Hc Hf)
      as (w1 & E & Hc1 & Hf1 & Hh1 & Hd1 & Hl1).
    destruct (IH w1 Hc1 Hf1) as (w2 & E2 & Hd2 & Hl2).
    exists w2. cbn [processMessages].
    erewrite bind_returns by exact E. split; [exact E2|].
    rewrite Hd2, Hl2, Hd1, Hl1, Hh1. cbn [List.filter].
    destruct (fails (messageHandlers w) p); simpl.
    + split; [|lia]. by rewrite <- app_assoc.
    + done.
Qed.

(** X22.  The connection methods of the producer and of the consumer:
    [connect] on a connected manager and [disconnect] on a disconnected
    one do nothing; a failed [connect] raises the [KafkaError] "Failed to
    connect to Kafka cluster" and leaves the manager disconnected;
    [disconnect] and [stopConsuming] never raise, and a failed
    [disconnect] leaves the manager connected. *)
Theorem kafka_connection_lifecycle w :
  (producerConnected w = true → Producer.connect w = (Returns tt, w)) ∧
  (producerConnected w = false → Producer.disconnect w = (Returns tt, w)) ∧
  (consumerConnected w = true → Consumer.connect w = (Returns tt, w)) ∧
  (consumerConnected w = false → Consumer.disconnect w = (Returns tt, w)) ∧
  (next_ok (faults w) →
   (producerConnected w = false →
    ∃ w', Producer.connect w = (Returns tt, w') ∧
          producerConnected w' = true) ∧
   (producerConnected w = true →
    ∃ w', Producer.disconnect w = (Returns tt, w') ∧
          producerConnected w' = false) ∧
   (consumerConnected w = false →
    ∃ w', Consumer.connect w = (Returns tt, w') ∧
          consumerConnected w' = true) ∧
   (consumerConnected w = true →
    ∃ w', Consumer.disconnect w = (Returns tt, w') ∧
          consumerConnected w' = false) ∧
   (∃ w', Consumer.stopConsuming w = (Returns tt, w') ∧
          running w' = false ∧
          consumerConnected w' = consumerConnected w)) ∧
  (∀ fs, faults w = true :: fs →
   let refused := KafkaError "Failed to connect to Kafka cluster" None in
   (producerConnected w = false →
    ∃ w', Producer.connect w = (Throws refused, w') ∧
          producerConnected w' = false) ∧
   (producerConnected w = true →
    ∃ w', Producer.disconnect w = (Returns tt, w') ∧
          producerConnected w' = true) ∧
   (consumerConnected w = false →
    ∃ w', Consumer.connect w = (Throws refused, w') ∧
          consumerConnected w' = false) ∧
   (consumerConnected w = true →
    ∃ w', Consumer.disconnect w = (Returns tt, w') ∧
          consumerConnected w' = true) ∧
   (∃ w' rest,
      Consumer.stopConsuming w = (Returns tt, w') ∧
      log w' = mkLog Error "Failed to stop Kafka consumer" :: rest)).
Proof.
  kafka_world w.
  split; [by intros ->|].
  split; [by intros ->|].
  split; [by intros ->|].
  split; [by intros ->|].
  split.
  - intros [-> | [fs' ->]]; repeat split; try intros ->;
      run_kafka_more; eexists; done.
  - intros fs' ->. repeat split; try intros ->;
      run_kafka_more; repeat eexists.
Qed.

End KafkaMoreProofs.

Lemma publish_puts_one_record_on_its_topic_witness :
  ∃ w',
    KafkaProducerManager.publishContentEvent sample_topics sample_runtime
      sample_event consuming_world
      = (Returns [Kafka.mkMetadata "raw-content" 0], w') ∧
    Kafka.r_topic <$> Kafka.accepted w' = ["raw-content"].
Proof.
  pose proof (publish_puts_one_record_on_its_topic sample_topics
                sample_runtime consuming_world eq_refl (or_introl eq_refl))
    as H.
  cbv zeta in H. destruct H as (H & _).
  destruct (H sample_event) as (w' & E & Hacc).
  exists w'. split; [exact E|]. rewrite Hacc. reflexivity.
Defined.

Lemma publish_failure_names_the_topic_witness :
  ∃ w',
    KafkaProducerManager.publishModerationResult sample_topics
      sample_runtime sample_result broker_outage_world
      = (Throws (KafkaError "Failed to send message to topic moderation-results"
                   (Some "moderation-results")), w') ∧
    Kafka.accepted w' = [].
Proof.
  pose proof (publish_failure_names_the_topic sample_topics sample_runtime
                broker_outage_world [] eq_refl eq_refl) as H.
  cbv zeta in H. destruct H as (_ & H & _).
  destruct (H sample_result) as (w' & E & Hacc & _).
  exists w'. split; [exact E | exact Hacc].
Defined.

Lemma subscribe_keeps_the_last_handler_witness :
  ∃ w1 w2,
    KafkaConsumerManager.subscribe "raw-content" failing_handler
      consuming_world = (Returns tt, w1) ∧
    KafkaConsumerManager.subscribe "raw-content" passing_handler w1
      = (Returns tt, w2) ∧
    fails (Kafka.messageHandlers w2) sample_payload = false.
Proof.
  destruct (subscribe_keeps_the_last_handler "raw-content" failing_handler
              passing_handler consuming_world eq_refl eq_refl)
    as (w1 & w2 & E1 & E2 & _ & _ & _ & H).
  exists w1, w2. split; [exact E1|]. split; [exact E2|].
  exact (H sample_payload eq_refl).
Defined.

Lemma failed_subscribe_registers_nothing_witness :
  ∃ w',
    KafkaConsumerManager.subscribe "flagged-content" passing_handler
      broker_outage_world
      = (Throws (KafkaError "Failed to subscribe to topic flagged-content"
                   (Some "flagged-content")), w') ∧
    Kafka.messageHandlers w' = Kafka.messageHandlers broker_outage_world.
Proof.
  destruct (failed_subscribe_registers_nothing "flagged-content"
              passing_handler broker_outage_world [] eq_refl eq_refl)
    as (w' & E & Hh & _).
  exists w'. split; [exact E | exact Hh].
Defined.

Lemma handled_message_publishes_nothing_witness :
  KafkaConsumerManager.eachMessage sample_topics sample_runtime
    unhandled_payload consuming_world
  = (Returns tt,
     Kafka.with_log [mkLog Warn "No handler found for topic"]
       consuming_world).
Proof.
  exact (handled_message_publishes_nothing sample_topics sample_runtime
           unhandled_payload consuming_world eq_refl).
Defined.

Lemma lost_dead_letter_is_swallowed_witness :
  ∃ w',
    KafkaConsumerManager.eachMessage sample_topics sample_runtime
      sample_payload broker_outage_world = (Returns tt, w') ∧
    Kafka.accepted w' = [].
Proof.
  destruct (lost_dead_letter_is_swallowed sample_topics sample_runtime
              sample_payload broker_outage_world eq_refl
              (or_intror (ex_intro _ [] eq_refl)))
    as (w' & rest & E & Hacc & _).
  exists w'. split; [exact E | exact Hacc].
Defined.

Lemma batch_dead_letters_the_failures_witness :
  ∃ w',
    KafkaConsumerManager.processMessages sample_topics sample_runtime
      [sample_payload; unhandled_payload; sample_payload] consuming_world
      = (Returns tt, w') ∧
    dead_lettered w' =
      [original_of sample_payload; original_of sample_payload] ∧
    length (Kafka.accepted w') = 2%nat.
Proof.
  exact (batch_dead_letters_the_failures sample_topics sample_runtime
           [sample_payload; unhandled_payload; sample_payload]
           consuming_world eq_refl eq_refl).
Defined.

Lemma kafka_connection_lifecycle_witness :
  (∃ w', Producer.connect disconnected_world = (Returns tt, w') ∧
         Kafka.producerConnected w' = true) ∧
  (∃ w', Consumer.disconnect broker_outage_world = (Returns tt, w') ∧
         Kafka.consumerConnected w' = true).
Proof.
  split.
  - destruct (kafka_connection_lifecycle disconnected_world)
      as (_ & _ & _ & _ & H & _).
    destruct (H (or_introl eq_refl)) as (Hp & _). exact (Hp eq_refl).
  - destruct (kafka_connection_lifecycle broker_outage_world)
      as (_ & _ & _ & _ & _ & H).
    destruct (H [] eq_refl) as (_ & _ & _ & Hd & _). exact (Hd eq_refl).
Defined.

(** ** The database manager on the pool model *)

Ltac pg_world w :=
  destruct w as [?out ?stmts ?scr ?conn ?lg]; simpl in *; subst.

Ltac run_pg :=
  unfold DatabaseManager.connect, DatabaseManager.query,
    DatabaseManager.queryOne, DatabaseManager.transaction, finally,
    Postgres.pool_connect, Postgres.client_release, Postgres.client_query,
    Postgres.pool_query, Postgres.send_statement, Postgres.exchange,
    Postgres.logger, ret, throw, bind, tryCatch;
  unfold Postgres.with_checkedOut, Postgres.with_statements,
    Postgres.with_script, Postgres.with_isConnected, Postgres.with_log;
  simpl.

Section DatabaseProofs.
Import Postgres DatabaseManager.

Lemma exchange_cases w :
  ∃ r w', exchange w = (r, w') ∧ checkedOut w' = checkedOut w.
Proof. pg_world w. destruct scr as [|[rs|e] s]; run_pg; eauto. Qed.

(** An attempt at a statement: what it does to the state, whatever the
    reply. *)
Lemma client_query_cases text w :
  ∃ r w', client_query text w = (r, w') ∧
          checkedOut w' = checkedOut w ∧
          statements w' = (text, []) :: statements w ∧
          isConnected w' = isConnected w.
Proof.
  pg_world w. destruct scr as [|[rs|e] s]; run_pg; eauto 10.
Qed.

(** X23.  [connect] on a manager not yet connected checks a client out,
    probes the server with [SELECT NOW()] and releases the client.  When
    the checkout is refused, [connect] raises a [DatabaseError] and no
    client is held.  When the probe is refused, [connect] raises the
    same error, the manager stays disconnected, and the client is not
    released. *)
Theorem database_connect_probes_the_server w :
  isConnected w = false →
  (served (script w) → served (tail (script w)) →
   ∃ w', connect w = (Returns tt, w') ∧
         isConnected w' = true ∧ checkedOut w' = checkedOut w ∧
         statements w' = ("SELECT NOW()", []) :: statements w) ∧
  (∀ e s, script w = Refused e :: s →
   ∃ w', connect w =
           (Throws (DatabaseError "Failed to connect to database" None),
            w') ∧
         isConnected w' = false ∧ checkedOut w' = checkedOut w ∧
         statements w' = statements w) ∧
  (∀ rs e s, script w = Rows rs :: Refused e :: s →
   ∃ w', connect w =
           (Throws (DatabaseError "Failed to connect to database" None),
            w') ∧
         isConnected w' = false ∧ checkedOut w' = S (checkedOut w)).
Proof.
  intros Hc. pg_world w. split; [|split].
  - intros [-> | (rs & s' & ->)] Ht; [run_pg; eauto|].
    simpl in Ht. destruct Ht as [-> | (rs' & s'' & ->)]; run_pg; eauto.
  - intros e s ->. run_pg. eauto.
  - intros rs e s ->. run_pg. eauto.
Qed.

(** X24.  [query] sends the statement whatever the [isConnected] flag;
    a reply with rows is returned as it is, and a refusal is raised as a
    [DatabaseError] that carries the message of the server after "Query
    execution failed: " and its code.  [queryOne] returns the first row,
    or nothing when there is none, and raises what [query] raises. *)
Theorem query_wraps_the_refusal text params w :
  (∀ rs s, script w = Rows rs :: s →
   ∃ w', query text params w = (Returns (mkResult rs), w') ∧
         queryOne text params w = (Returns (head rs), w') ∧
         statements w' = (text, params) :: statements w ∧
         script w' = s) ∧
  (∀ e s, script w = Refused e :: s →
   let raised :=
     DatabaseError ("Query execution failed: " +:+ Err.message e)
       (Err.code e) in
   ∃ w', query text params w = (Throws raised, w') ∧
         queryOne text params w = (Throws raised, w') ∧
         statements w' = (text, params) :: statements w ∧
         script w' = s ∧
         log w' = mkLog Error "Query execution failed"
                  :: mkLog Debug "Executing query" :: log w).
Proof.
  pg_world w. split.
  - intros rs s ->. run_pg. eauto 10.
  - intros e s ->. run_pg. eauto 10.
Qed.

(** The body of [transaction] after the checkout, for a callback that
    leaves the count of clients alone. *)
Lemma transaction_body_keeps_client {T} (callback : Async World T) w :
  (∀ w0, checkedOut (callback w0).2 = checkedOut w0) →
  checkedOut
    (tryCatch
       (client_query "BEGIN" ;;;
        logger Debug "Transaction started" ;;;
        result <- callback ;;
        client_query "COMMIT" ;;;
        logger Debug "Transaction committed" ;;;
        ret result)
       (λ error,
          client_query "ROLLBACK" ;;;
          logger Error "Transaction rolled back" ;;;
          throw (DatabaseError
                   ("Transaction failed: " +:+ Err.message error)
                   (Err.code error))) w).2
  = checkedOut w.
Proof.
  intros Hcb.
  assert (Hrb : ∀ (error : JSError) w1,
    checkedOut
      ((client_query "ROLLBACK" ;;;
        logger Error "Transaction rolled back" ;;;
        throw (A := T) (DatabaseError
                 ("Transaction failed: " +:+ Err.message error)
                 (Err.code error))) w1).2 = checkedOut w1).
  { intros error w1.
    destruct (client_query_cases "ROLLBACK" w1) as ([r|e] & w2 & E & H & _).
    - erewrite bind_returns by exact E. by run_pg.
    - erewrite bind_throws by exact E. done. }
  unfold tryCatch.
  destruct (client_query_cases "BEGIN" w) as ([r|e] & w1 & E & H1 & _).
  2:{ erewrite bind_throws by exact E. rewrite Hrb. exact H1. }
  erewrite bind_returns by exact E.
  unfold bind at 1. unfold logger at 1. unfold bind at 1.
  set (w2 := with_log _ w1).
  assert (H2 : checkedOut w2 = checkedOut w) by (by destruct w1).
  specialize (Hcb w2). destruct (callback w2) as [[a|e] w3]; simpl in Hcb.
  2:{ rewrite Hrb. congruence. }
  destruct (client_query_cases "COMMIT" w3) as ([r'|e] & w4 & E4 & H4 & _).
  - erewrite bind_returns by exact E4. run_pg. congruence.
  - erewrite bind_throws by exact E4. rewrite Hrb. congruence.
Qed.

(** X25.  Whatever the replies of the server and whatever the callback
    does, short of checking clients out or releasing them itself,
    [transaction] holds no client when it settles: the client it checked
    out is released on every path. *)
Theorem transaction_releases_its_client {T} (callback : Async World T) w :
  (∀ w0, checkedOut (callback w0).2 = checkedOut w0) →
  checkedOut (transaction callback w).2 = checkedOut w.
Proof.
  intros Hcb. unfold transaction, pool_connect.
  unfold bind at 1. unfold bind at 1.
  destruct (exchange_cases w) as ([rs|e] & w1 & E & H1); rewrite E;
    [|exact H1].
  cbv beta iota. unfold finally.
  match goal with |- context [tryCatch ?b ?h ?w0] =>
    pose proof (transaction_body_keeps_client callback w0 Hcb) as Hb;
    destruct (tryCatch b h w0) as [r w2] end.
  simpl in Hb. unfold client_release. simpl. rewrite Hb.
  unfold with_checkedOut. simpl. exact H1.
Qed.

(** X26.  With a client checked out and [BEGIN] accepted: a callback
    that returns is followed by [COMMIT], and its result is returned; a
    callback that raises is followed by [ROLLBACK], never by [COMMIT],
    and [transaction] raises a [DatabaseError] with the message of the
    failure after "Transaction failed: " and its code; a refused
    [COMMIT] is followed by [ROLLBACK] as well; and when [ROLLBACK] is
    itself refused, what [transaction] raises is that refusal as it is. *)
Theorem transaction_commits_or_rolls_back {T} (callback : Async World T) w :
  served (script w) → served (tail (script w)) →
  let started :=
    {| checkedOut := S (checkedOut w);
       statements := ("BEGIN", []) :: statements w;
       script := tail (tail (script w));
       isConnected := isConnected w;
       log := mkLog Debug "Transaction started" :: log w |} in
  let after := (callback started).2 in
  let wrapped e :=
    DatabaseError ("Transaction failed: " +:+ Err.message e) (Err.code e) in
  match (callback started).1 with
  | Returns result =>
      (served (script after) →
       ∃ w', transaction callback w = (Returns result, w') ∧
             statements w' = ("COMMIT", []) :: statements after) ∧
      (∀ e s, script after = Refused e :: s → served s →
       ∃ w', transaction callback w = (Throws (wrapped e), w') ∧
             statements w' =
               ("ROLLBACK", []) :: ("COMMIT", []) :: statements after)
  | Throws e =>
      (served (script after) →
       ∃ w', transaction callback w = (Throws (wrapped e), w') ∧
             statements w' = ("ROLLBACK", []) :: statements after) ∧
      (∀ e' s, script after = Refused e' :: s →
       ∃ w', transaction callback w = (Throws e', w') ∧
             statements w' = ("ROLLBACK", []) :: statements after)
  end.
Proof.
  intros H1 H2. cbv zeta.
  set (started := mkWorld _ _ _ _ _).
  assert (Hstart : ∀ k : Async World T,
    (pool_connect ;;;
     finally
       (tryCatch
          (client_query "BEGIN" ;;;
           logger Debug "Transaction started" ;;; k)
          (λ error,
             client_query "ROLLBACK" ;;;
             logger Error "Transaction rolled back" ;;;
             throw (DatabaseError
                      ("Transaction failed: " +:+ Err.message error)
                      (Err.code error))))
       client_release) w
    = finally
        (tryCatch k
           (λ error,
              client_query "ROLLBACK" ;;;
              logger Error "Transaction rolled back" ;;;
              throw (DatabaseError
                       ("Transaction failed: " +:+ Err.message error)
                       (Err.code error))))
        client_release started).
  { intros k. subst started. pg_world w.
    destruct H1 as [-> | (rs & s' & ->)]; simpl in *.
    - run_pg. done.
    - destruct H2 as [-> | (rs' & s'' & ->)]; run_pg; done. }
  assert (Hrun : ∀ r after,
    callback started = (r, after) →
    transaction callback w =
      finally
        (λ _,
           tryCatch
             (λ w0, match r with
                    | Returns result =>
                        (client_query "COMMIT" ;;;
                         logger Debug "Transaction committed" ;;;
                         ret result) w0
                    | Throws e => (Throws e, w0)
                    end)
             (λ error,
                client_query "ROLLBACK" ;;;
                logger Error "Transaction rolled back" ;;;
                throw (DatabaseError
                         ("Transaction failed: " +:+ Err.message error)
                         (Err.code error)))
             after)
        client_release started).
  { intros r after Ecb. unfold transaction. rewrite Hstart.
    unfold finally, tryCatch. unfold bind at 1. rewrite Ecb.
    by destruct r. }
  clear Hstart.
  destruct (callback started) as [[result|e] after] eqn:Ecb; cbn [fst snd];
    rewrite (Hrun _ _ eq_refl); clear Hrun Ecb; clearbody started.
  - split.
    + intros Hs. pg_world after.
      destruct Hs as [-> | (rs & s' & ->)]; run_pg; eauto 10.
    + intros e s Hscr Hs. pg_world after.
      destruct Hs as [-> | (rs & s' & ->)]; run_pg; eauto 10.
  - split.
    + intros Hs. pg_world after.
      destruct Hs as [-> | (rs & s' & ->)]; run_pg; eauto 10.
    + intros e' s Hscr. pg_world after. run_pg. eauto 10.
Qed.

End DatabaseProofs.

Lemma database_connect_probes_the_server_witness :
  (∃ w', DatabaseManager.connect fresh_pool = (Returns tt, w') ∧
         Postgres.isConnected w' = true ∧ Postgres.checkedOut w' = 0%nat) ∧
  (∃ w', DatabaseManager.connect
           (Postgres.with_script
              [Postgres.Rows []; Postgres.Refused connection_lost]
              fresh_pool)
         = (Throws (DatabaseError "Failed to connect to database" None), w')
         ∧ Postgres.isConnected w' = false
         ∧ Postgres.checkedOut w' = 1%nat).
Proof.
  split.
  - destruct (database_connect_probes_the_server fresh_pool eq_refl)
      as (H & _).
    destruct (H (or_introl eq_refl) (or_introl eq_refl))
      as (w' & E & Hc & Ho & _).
    exists w'. split; [exact E|]. split; [exact Hc | exact Ho].
  - destruct (database_connect_probes_the_server
                (Postgres.with_script
                   [Postgres.Rows []; Postgres.Refused connection_lost]
                   fresh_pool) eq_refl) as (_ & _ & H).
    exact (H [] connection_lost [] eq_refl).
Defined.

Lemma query_wraps_the_refusal_witness :
  ∃ w',
    DatabaseManager.queryOne "INSERT INTO users VALUES ($1)" ["u1"]
      (Postgres.with_script [Postgres.Refused unique_violation] fresh_pool)
    = (Throws
         (DatabaseError
            "Query execution failed: duplicate key value violates unique constraint"
            (Some "23505")), w') ∧
    Postgres.statements w' = [("INSERT INTO users VALUES ($1)", ["u1"])].
Proof.
  destruct (query_wraps_the_refusal "INSERT INTO users VALUES ($1)" ["u1"]
              (Postgres.with_script [Postgres.Refused unique_violation]
                 fresh_pool)) as (_ & H).
  destruct (H unique_violation [] eq_refl) as (w' & _ & E & Hs & _).
  exists w'. split; [exact E | exact Hs].
Defined.

Lemma insert_row_keeps_clients w0 :
  Postgres.checkedOut (insert_row w0).2 = Postgres.checkedOut w0.
Proof. destruct w0 as [out stmts [|[rs|e] s] conn lg]; reflexivity. Defined.

Lemma transaction_releases_its_client_witness :
  Postgres.checkedOut
    (DatabaseManager.transaction insert_row
       (Postgres.with_script
          [Postgres.Rows []; Postgres.Rows [];
           Postgres.Refused unique_violation;
           Postgres.Refused connection_lost] fresh_pool)).2
  = 0%nat.
Proof.
  exact (transaction_releases_its_client insert_row
           (Postgres.with_script
              [Postgres.Rows []; Postgres.Rows [];
               Postgres.Refused unique_violation;
               Postgres.Refused connection_lost] fresh_pool)
           insert_row_keeps_clients).
Defined.

Lemma transaction_commits_or_rolls_back_witness :
  (∃ w', DatabaseManager.transaction insert_row fresh_pool
           = (Returns (Postgres.mkResult []), w') ∧
         Postgres.statements w' =
           [("COMMIT", []);
            ("INSERT INTO audit_logs DEFAULT VALUES", []);
            ("BEGIN", [])]) ∧
  (∃ w', DatabaseManager.transaction insert_row
           (Postgres.with_script
              [Postgres.Rows []; Postgres.Rows [];
               Postgres.Refused unique_violation] fresh_pool)
         = (Throws
              (DatabaseError
                 "Transaction failed: duplicate key value violates unique constraint"
                 (Some "23505")), w') ∧
         Postgres.statements w' =
           [("ROLLBACK", []);
            ("INSERT INTO audit_logs DEFAULT VALUES", []);
            ("BEGIN", [])]).
Proof.
  split.
  - pose proof (transaction_commits_or_rolls_back insert_row fresh_pool
                  (or_introl eq_refl) (or_introl eq_refl)) as H.
    cbv zeta in H. simpl in H. destruct H as (H & _).
    exact (H (or_introl eq_refl)).
  - pose proof (transaction_commits_or_rolls_back insert_row
                  (Postgres.with_script
                     [Postgres.Rows []; Postgres.Rows [];
                      Postgres.Refused unique_violation] fresh_pool)
                  (or_intror (ex_intro _ [] (ex_intro _ _ eq_refl)))
                  (or_intror (ex_intro _ [] (ex_intro _ _ eq_refl)))) as H.
    cbv zeta in H. simpl in H. destruct H as (H & _).
    exact (H (or_introl eq_refl)).
Defined.

(** ** The configuration manager *)

Lemma and_then_Returns {A B} (m : Outcome A) (k : A → Outcome B) b :
  and_then m k = Returns b → ∃ a, m = Returns a ∧ k a = Returns b.
Proof. destruct m as [a|e]; simpl; [eauto | discriminate]. Qed.

Lemma and_then_Throws {A B} (m : Outcome A) (k : A → Outcome B) e :
  and_then m k = Throws e →
  m = Throws e ∨ ∃ a, m = Returns a ∧ k a = Throws e.
Proof. destruct m as [a|e']; simpl; [eauto | intros [= ->]; by left]. Qed.

Lemma split_comma_nonempty s : split_comma s ≠ [].
Proof.
  destruct s as [|c rest]; simpl; [done|].
  destruct (Ascii.eqb c ","); [done|]. by destruct (split_comma rest).
Qed.

Lemma truthy_string_nonempty s : truthy_string s = true → s ≠ "".
Proof. by intros H ->. Qed.

Section ConfigProofs.
Import ConfigManager.
Context (parseInt : string → JSNumber) (env : gmap string string).

Lemma getEnvAsString_Returns key d v :
  getEnvAsString env key d = Returns v →
  truthy_string v = true ∧
  (env !! key = Some v ∨ (unset (env !! key) = true ∧ v = d)).
Proof.
  unfold getEnvAsString, unset.
  destruct (env !! key) as [s|]; [destruct (truthy_string s) eqn:Es|];
    destruct (truthy_string d) eqn:Ed; simpl; try discriminate;
    intros [= <-]; auto.
Qed.

Lemma getEnvAsString_Throws key d e :
  getEnvAsString env key d = Throws e → of_environment e.
Proof.
  unfold getEnvAsString.
  destruct (_ && _); [|discriminate]. intros [= <-]. by eexists.
Qed.

Lemma getEnvAsNumber_Returns key d x :
  getEnvAsNumber parseInt env key d = Returns x →
  x ≠ NaN ∧
  ((∃ s, env !! key = Some s ∧ truthy_string s = true ∧ parseInt s = x) ∨
   (unset (env !! key) = true ∧ ∃ q, d = Some q ∧ x = Finite q)).
Proof.
  unfold getEnvAsNumber, unset.
  destruct (env !! key) as [s|]; [destruct (truthy_string s) eqn:Es|].
  - destruct (parseInt s) eqn:Ep; try discriminate; intros [= <-];
      (split; [done|]); left; eauto.
  - destruct d; [|discriminate]. intros [= <-]. split; [done|]. right. eauto.
  - destruct d; [|discriminate]. intros [= <-]. split; [done|]. right. eauto.
Qed.

Lemma getEnvAsNumber_Throws key d e :
  getEnvAsNumber parseInt env key d = Throws e → of_environment e.
Proof.
  unfold getEnvAsNumber.
  destruct (env !! key) as [s|]; [destruct (truthy_string s)|].
  - destruct (parseInt s); try discriminate. intros [= <-]. by eexists.
  - destruct d; [discriminate|]. intros [= <-]. by eexists.
  - destruct d; [discriminate|]. intros [= <-]. by eexists.
Qed.

(** Taking a chain of steps apart. *)
Ltac returned H :=
  repeat
    (let a := fresh "a" in
     let Hm := fresh "Hm" in
     match type of H with and_then _ _ = Returns _ => idtac end;
     apply and_then_Returns in H; destruct H as (a & Hm & H)).

Ltac raised H :=
  repeat
    (let a := fresh "a" in
     let Hm := fresh "Hm" in
     match type of H with and_then _ _ = Throws _ => idtac end;
     apply and_then_Throws in H;
     destruct H as [H | (a & Hm & H)];
     [first [ exact (getEnvAsString_Throws _ _ _ H)
            | exact (getEnvAsNumber_Throws _ _ _ H)
            | idtac ] |]).

Lemma loadKafkaConfig_Returns k :
  loadKafkaConfig env = Returns k → brokers k ≠ [].
Proof.
  unfold loadKafkaConfig. intros H. returned H.
  destruct (getEnvAsBoolean env "KAFKA_SASL_ENABLED" false).
  - returned H. injection H as <-. apply split_comma_nonempty.
  - injection H as <-. apply split_comma_nonempty.
Qed.

Lemma loadKafkaConfig_Throws e :
  loadKafkaConfig env = Throws e → of_environment e.
Proof.
  unfold loadKafkaConfig. intros H. raised H.
  destruct (getEnvAsBoolean env "KAFKA_SASL_ENABLED" false);
    [|discriminate].
  raised H. discriminate.
Qed.

Lemma loadDatabaseConfig_Returns d :
  loadDatabaseConfig parseInt env = Returns d →
  truthy_string (db_host d) = true.
Proof.
  unfold loadDatabaseConfig. intros H. returned H. injection H as <-.
  simpl. by eapply getEnvAsString_Returns.
Qed.

Lemma loadDatabaseConfig_Throws e :
  loadDatabaseConfig parseInt env = Throws e → of_environment e.
Proof.
  unfold loadDatabaseConfig. intros H. raised H. discriminate.
Qed.

Lemma loadRedisConfig_Returns r :
  loadRedisConfig parseInt env = Returns r →
  truthy_string (host r) = true ∧
  truthy_string (keyPrefix r) = true ∧
  truthy_string (password r) = true ∧
  env !! "REDIS_PASSWORD" = Some (password r).
Proof.
  unfold loadRedisConfig. intros H. returned H. injection H as <-. simpl.
  repeat match goal with
  | Hs : getEnvAsString _ _ _ = Returns _ |- _ =>
      apply getEnvAsString_Returns in Hs; destruct Hs as [? ?]
  end.
  repeat split; try done.
  match goal with
  | Hp : env !! "REDIS_PASSWORD" = Some _ ∨ _ |- _ =>
      destruct Hp as [Hp | [_ ->]]; [exact Hp | done]
  end.
Qed.

Lemma loadRedisConfig_Throws e :
  loadRedisConfig parseInt env = Throws e → of_environment e.
Proof. unfold loadRedisConfig. intros H. raised H. discriminate. Qed.

Lemma loadModelConfig_Returns pk pd vk tk td ek m :
  loadModelConfig parseInt env pk pd vk tk td ek = Returns m →
  threshold m ≠ NaN ∧ threshold_source parseInt env tk td (threshold m).
Proof.
  unfold loadModelConfig. intros H. returned H. injection H as <-. simpl.
  match goal with
  | Hn : getEnvAsNumber _ _ _ _ = Returns _ |- _ =>
      apply getEnvAsNumber_Returns in Hn;
      destruct Hn as [Hnan [Hn | (Hu & q & [= <-] & ->)]]
  end; (split; [done|]); [by left | by right].
Qed.

Lemma loadModelConfig_Throws pk pd vk tk td ek e :
  loadModelConfig parseInt env pk pd vk tk td ek = Throws e →
  of_environment e.
Proof. unfold loadModelConfig. intros H. raised H. discriminate. Qed.

Lemma loadMLConfig_Returns m :
  loadMLConfig parseInt env = Returns m →
  (threshold (textModel m) ≠ NaN ∧
   threshold_source parseInt env "ML_TEXT_THRESHOLD" (8 # 10)
     (threshold (textModel m))) ∧
  (threshold (imageModel m) ≠ NaN ∧
   threshold_source parseInt env "ML_IMAGE_THRESHOLD" (7 # 10)
     (threshold (imageModel m))) ∧
  (threshold (audioModel m) ≠ NaN ∧
   threshold_source parseInt env "ML_AUDIO_THRESHOLD" (75 # 100)
     (threshold (audioModel m))).
Proof.
  unfold loadMLConfig. intros H. returned H. injection H as <-. simpl.
  repeat match goal with
  | Hl : loadModelConfig _ _ _ _ _ _ _ _ = Returns _ |- _ =>
      apply loadModelConfig_Returns in Hl
  end.
  done.
Qed.

Lemma loadMLConfig_Throws e :
  loadMLConfig parseInt env = Throws e → of_environment e.
Proof.
  unfold loadMLConfig. intros H. raised H;
    try discriminate; try exact (loadModelConfig_Throws _ _ _ _ _ _ _ H).
Qed.

Lemma loadSecurityConfig_Throws e :
  loadSecurityConfig parseInt env = Throws e → of_environment e.
Proof. unfold loadSecurityConfig. intros H. raised H. discriminate. Qed.

Lemma loadConfiguration_Throws e :
  loadConfiguration parseInt env = Throws e → of_environment e.
Proof.
  unfold loadConfiguration. intros H. raised H;
    try exact (loadKafkaConfig_Throws _ H);
    try exact (loadDatabaseConfig_Throws _ H);
    try exact (loadRedisConfig_Throws _ H);
    try exact (loadMLConfig_Throws _ H);
    try exact (loadSecurityConfig_Throws _ H); try discriminate.
Qed.

Lemma loadConfiguration_Returns cfg :
  loadConfiguration parseInt env = Returns cfg →
  port cfg ≠ NaN ∧
  brokers (kafka cfg) ≠ [] ∧
  truthy_string (db_host (database_ cfg)) = true ∧
  (truthy_string (host (redis cfg)) = true ∧
   truthy_string (keyPrefix (redis cfg)) = true ∧
   truthy_string (password (redis cfg)) = true ∧
   env !! "REDIS_PASSWORD" = Some (password (redis cfg))) ∧
  ((threshold (textModel (ml cfg)) ≠ NaN ∧
    threshold_source parseInt env "ML_TEXT_THRESHOLD" (8 # 10)
      (threshold (textModel (ml cfg)))) ∧
   (threshold (imageModel (ml cfg)) ≠ NaN ∧
    threshold_source parseInt env "ML_IMAGE_THRESHOLD" (7 # 10)
      (threshold (imageModel (ml cfg)))) ∧
   (threshold (audioModel (ml cfg)) ≠ NaN ∧
    threshold_source parseInt env "ML_AUDIO_THRESHOLD" (75 # 100)
      (threshold (audioModel (ml cfg))))).
Proof.
  unfold loadConfiguration. intros H. returned H. injection H as <-. simpl.
  split; [by eapply getEnvAsNumber_Returns|].
  split; [by eapply loadKafkaConfig_Returns|].
  split; [by eapply loadDatabaseConfig_Returns|].
  split; [by eapply loadRedisConfig_Returns|].
  by eapply loadMLConfig_Returns.
Qed.

Lemma out_of_unit_false x : x ≠ NaN → out_of_unit x = false → in_unit x.
Proof.
  unfold out_of_unit, js_lt. destruct x as [q| | |]; try done.
  intros _ H. apply orb_false_elim in H as [H0 H1].
  apply negb_false_iff in H0. apply negb_false_iff in H1.
  apply Qle_bool_iff in H0. apply Qle_bool_iff in H1.
  exists q. repeat split; assumption.
Qed.

Lemma new_Returns cfg :
  new parseInt env = Returns cfg →
  loadConfiguration parseInt env = Returns cfg ∧
  validateConfiguration cfg = Returns tt.
Proof.
  unfold new. intros H. returned H. injection H as <-.
  split; [done|]. by destruct a0.
Qed.

(** What the constructor has checked of a configuration it returns. *)
Lemma new_accepts cfg :
  new parseInt env = Returns cfg →
  (∃ p, port cfg = Finite p ∧ (1 <= p)%Q ∧ (p <= 65535)%Q) ∧
  in_unit (threshold (textModel (ml cfg))) ∧
  in_unit (threshold (imageModel (ml cfg))) ∧
  in_unit (threshold (audioModel (ml cfg))) ∧
  brokers (kafka cfg) ≠ [] ∧
  db_host (database_ cfg) ≠ "" ∧
  host (redis cfg) ≠ "" ∧
  keyPrefix (redis cfg) ≠ "" ∧
  password (redis cfg) ≠ "" ∧
  env !! "REDIS_PASSWORD" = Some (password (redis cfg)) ∧
  (environment cfg = "production" →
   jwtSecret (security cfg) ≠ default_jwtSecret).
Proof.
  intros H. apply new_Returns in H as [Hl Hv].
  apply loadConfiguration_Returns in Hl
    as (Hport & Hb & Hd & (Hh & Hk & Hp & Henv) & (Nt & _) & (Ni & _)
        & (Na & _)).
  revert Hv. unfold validateConfiguration.
  destruct (js_lt (port cfg) (Finite 1) || js_lt (Finite 65535) (port cfg))
    eqn:Eport; [discriminate|].
  destruct (length (brokers (kafka cfg)) =? 0)%nat; [discriminate|].
  rewrite Hd, Hh. cbn [negb].
  destruct (String.eqb (environment cfg) "production"
            && String.eqb (jwtSecret (security cfg)) default_jwtSecret)
    eqn:Ejwt; [discriminate|].
  destruct (out_of_unit (threshold (textModel (ml cfg)))) eqn:Et;
    [discriminate|].
  destruct (out_of_unit (threshold (imageModel (ml cfg)))) eqn:Ei;
    [discriminate|].
  destruct (out_of_unit (threshold (audioModel (ml cfg)))) eqn:Ea;
    [discriminate|].
  intros _.
  split.
  { apply orb_false_elim in Eport as [E1 E2]. unfold js_lt in E1, E2.
    destruct (port cfg) as [p| | |]; try done.
    apply negb_false_iff in E1. apply negb_false_iff in E2.
    apply Qle_bool_iff in E1. apply Qle_bool_iff in E2.
    exists p. repeat split; assumption. }
  split; [by apply out_of_unit_false|].
  split; [by apply out_of_unit_false|].
  split; [by apply out_of_unit_false|].
  split; [done|].
  split; [by apply truthy_string_nonempty|].
  split; [by apply truthy_string_nonempty|].
  split; [by apply truthy_string_nonempty|].
  split; [by apply truthy_string_nonempty|].
  split; [done|].
  intros Hprod Hsecret. rewrite Hprod, Hsecret in Ejwt.
  by rewrite !String.eqb_refl in Ejwt.
Qed.

(** X27.  A configuration that the constructor accepts has a port from
    1 to 65535, the three thresholds between 0 and 1, at least one
    broker, and non-empty database host, Redis host and key prefix; its
    Redis password is the non-empty [REDIS_PASSWORD] of the environment,
    which therefore has to be set; and in production its JWT secret is
    not the default one. *)
Theorem accepted_configuration_is_valid cfg :
  new parseInt env = Returns cfg →
  (∃ p, port cfg = Finite p ∧ (1 <= p)%Q ∧ (p <= 65535)%Q) ∧
  in_unit (threshold (textModel (ml cfg))) ∧
  in_unit (threshold (imageModel (ml cfg))) ∧
  in_unit (threshold (audioModel (ml cfg))) ∧
  brokers (kafka cfg) ≠ [] ∧
  db_host (database_ cfg) ≠ "" ∧
  host (redis cfg) ≠ "" ∧
  keyPrefix (redis cfg) ≠ "" ∧
  password (redis cfg) ≠ "" ∧
  env !! "REDIS_PASSWORD" = Some (password (redis cfg)) ∧
  (environment cfg = "production" →
   jwtSecret (security cfg) ≠ default_jwtSecret).
Proof. apply new_accepts. Qed.

(** X28.  Three of the checks of [validateConfiguration] can never
    fire: whatever the environment, the constructor does not raise "At
    least one Kafka broker must be configured", "Database host is
    required" or "Redis host is required", because splitting gives at
    least one broker and [getEnvAsString] never returns the empty
    string. *)
Theorem host_and_broker_checks_never_fire :
  new parseInt env
    ≠ Throws (Error_ "At least one Kafka broker must be configured") ∧
  new parseInt env ≠ Throws (Error_ "Database host is required") ∧
  new parseInt env ≠ Throws (Error_ "Redis host is required").
Proof.
  assert (Hnew : ∀ e,
    new parseInt env = Throws e →
    of_environment e ∨
    ∃ cfg, loadConfiguration parseInt env = Returns cfg ∧
           validateConfiguration cfg = Throws e).
  { intros e H. unfold new in H.
    apply and_then_Throws in H as [H | (cfg & Hl & H)];
      [left; by apply loadConfiguration_Throws|].
    apply and_then_Throws in H as [H | (? & _ & H)]; [|discriminate].
    right. eauto. }
  assert (Hval : ∀ cfg e,
    loadConfiguration parseInt env = Returns cfg →
    validateConfiguration cfg = Throws e →
    e ≠ Error_ "At least one Kafka broker must be configured" ∧
    e ≠ Error_ "Database host is required" ∧
    e ≠ Error_ "Redis host is required").
  { intros cfg e Hl. apply loadConfiguration_Returns in Hl
      as (_ & Hb & Hd & (Hh & _) & _).
    unfold validateConfiguration.
    destruct (_ || _); [intros [= <-]; done|].
    destruct (brokers (kafka cfg)); [done|]. cbn [length Nat.eqb].
    rewrite Hd, Hh. cbn [negb].
    destruct (_ && _); [intros [= <-]; done|].
    repeat (destruct (out_of_unit _); [intros [= <-]; done|]).
    discriminate. }
  repeat split; intros H; apply Hnew in H as [[rest H] | (cfg & Hl & Hv)];
    try discriminate H;
    destruct (Hval _ _ Hl Hv) as (H1 & H2 & H3); done.
Qed.

(** X29.  A threshold taken from the environment goes through
    [parseInt], which gives whole numbers: in an accepted configuration
    it is 0 or 1, never a fraction. *)
Theorem environment_threshold_is_whole cfg :
  whole_valued parseInt → new parseInt env = Returns cfg →
  let whole x := ∃ q, x = Finite q ∧ (q == 0 ∨ q == 1)%Q in
  (unset (env !! "ML_TEXT_THRESHOLD") = false →
   whole (threshold (textModel (ml cfg)))) ∧
  (unset (env !! "ML_IMAGE_THRESHOLD") = false →
   whole (threshold (imageModel (ml cfg)))) ∧
  (unset (env !! "ML_AUDIO_THRESHOLD") = false →
   whole (threshold (audioModel (ml cfg)))).
Proof.
  intros Hwhole H.
  destruct (new_accepts cfg H) as (_ & Ht & Hi & Ha & _).
  apply new_Returns in H as [Hl _].
  apply loadConfiguration_Returns in Hl
    as (_ & _ & _ & _ & (_ & St) & (_ & Si) & (_ & Sa)).
  assert (Hone : ∀ key d x,
    threshold_source parseInt env key d x → in_unit x → unset (env !! key) = false →
    ∃ q, x = Finite q ∧ (q == 0 ∨ q == 1)%Q).
  { intros key d x [(s & Hs & _ & Hp) | [Hu _]] (q & -> & H0 & H1) Hset;
      [|congruence].
    exists q. split; [done|].
    apply Hwhole in Hp. unfold is_integer in Hp. apply Qeq_bool_iff in Hp.
    assert (Hf0 : 0 ≤ Qfloor q) by (by apply Qfloor_nonneg).
    assert (Hf1 : Qfloor q ≤ 1).
    { change 1 with (Qfloor 1). by apply Qfloor_resp_le. }
    destruct (decide (Qfloor q = 0)) as [E | E].
    - left. by rewrite Hp, E.
    - right. assert (E1 : Qfloor q = 1) by lia. by rewrite Hp, E1. }
  cbv zeta. repeat split; intros Hset; eapply Hone; eassumption.
Qed.

End ConfigProofs.

(** ** The health endpoint *)

Section HealthProofs.
Import IngestApiServer.
Context (cfg : RedisConfig).

Lemma checkDatabaseHealth_settles w :
  ∃ r w', checkDatabaseHealth w = (r, w') ∧
          fulfilled r = Postgres.isConnected w && serves (Postgres.script w).
Proof.
  unfold checkDatabaseHealth. pg_world w.
  destruct conn; simpl; [|by eexists _, _].
  destruct scr as [|[rs|e] s]; run_pg; by eexists _, _.
Qed.

Lemma checkCacheHealth_settles s :
  ∃ r s', checkCacheHealth cfg s = (r, s') ∧
          fulfilled r =
            Cache.isConnected s && passes 2 (Redis.faults (Cache.world s)) ∧
          (Cache.isConnected s = true →
           passes 1 (Redis.faults (Cache.world s)) = true →
           Redis.keyspace (Cache.world s')
             !! (keyPrefix cfg +:+ "health_check")
           = Some (Redis.mkEntry "ok"
                     (Some (Redis.clock (Cache.world s) + 10000)))).
Proof.
  unfold checkCacheHealth. destruct s as [w conn]. simpl.
  destruct conn; simpl; [|by eexists _, _].
  unfold Cache.lift, CacheManager.set, CacheManager.get. simpl.
  world w.
  destruct fs as [|[] [|[] fs]]; run_redis; eexists _, _;
    (split; [reflexivity|]); (split; [reflexivity|]); intros _ Hp;
    try discriminate Hp; simpl; by rewrite lookup_insert_eq.
Qed.

Lemma checkKafkaHealth_settles w :
  ∃ r, checkKafkaHealth w = (r, w) ∧
       fulfilled r = Kafka.producerConnected w.
Proof.
  unfold checkKafkaHealth. destruct (Kafka.producerConnected w);
    by eexists.
Qed.

Lemma getServiceHealth_up r :
  String.eqb (status (getServiceHealth r)) "up" = fulfilled r.
Proof. by destruct r. Qed.

(** X30.  The health check always answers and never takes its [catch]
    branch: the response lists the four services, and it is 200
    "healthy" exactly when the database manager is connected and serves
    [SELECT 1], the cache manager is connected and Redis takes the write
    and the read of the probe key, the producer is connected and the
    inference engine is initialised; otherwise it is 503 "unhealthy".
    The probe is not without effect: when the cache manager is connected
    and Redis takes the write, the key [health_check] is left in the
    keyspace for ten seconds. *)
Theorem health_check_answers s :
  ∃ response s',
    healthCheck cfg s = (Returns response, s') ∧
    statusCode response = (if all_up s then 200 else 503) ∧
    overall response = (if all_up s then "healthy" else "unhealthy") ∧
    is_Some (services response) ∧
    log s' = mkLog Info "Health check completed" :: log s ∧
    (Cache.isConnected (cache s) = true →
     passes 1 (Redis.faults (Cache.world (cache s))) = true →
     Redis.keyspace (Cache.world (cache s'))
       !! (keyPrefix cfg +:+ "health_check")
     = Some (Redis.mkEntry "ok"
               (Some (Redis.clock (Cache.world (cache s)) + 10000)))).
Proof.
  unfold healthCheck, allSettled, tryCatch, bind, all_up.
  destruct s as [db c k ml lg]. cbn [database cache kafkaProducer
    mlInitialized log].
  destruct (checkDatabaseHealth_settles db) as (r1 & db' & -> & H1).
  destruct (checkCacheHealth_settles c) as (r2 & c' & -> & H2 & Hkey).
  destruct (checkKafkaHealth_settles k) as (r3 & -> & H3).
  unfold logger, ret. cbn [database cache kafkaProducer mlInitialized log].
  eexists _, _. split; [reflexivity|].
  cbn [statusCode overall services log forallb s_database s_cache s_kafka
       s_ml cache].
  rewrite !getServiceHealth_up, H1, H2, H3.
  assert (H4 : fulfilled (checkMLHealth ml) = ml) by (by destruct ml).
  rewrite H4, andb_true_r, !andb_assoc.
  split; [done|]. split; [done|]. split; [by eexists|].
  split; [done | exact Hkey].
Qed.

End HealthProofs.

Lemma numeral_parseInt_whole : whole_valued numeral_parseInt.
Proof.
  intros s q. unfold numeral_parseInt.
  destruct (RedisMore.parse_int64 s) as [z|]; [|discriminate].
  intros [= <-]. apply is_integer_inject.
Qed.

Lemma accepted_configuration_is_valid_witness :
  ∃ cfg,
    ConfigManager.new numeral_parseInt sample_env = Returns cfg ∧
    ConfigManager.password (ConfigManager.redis cfg) ≠ "" ∧
    ConfigManager.keyPrefix (ConfigManager.redis cfg) ≠ "".
Proof.
  destruct (ConfigManager.new numeral_parseInt sample_env) as [cfg|e] eqn:E;
    [|vm_compute in E; discriminate E].
  exists cfg. split; [reflexivity|].
  destruct (accepted_configuration_is_valid numeral_parseInt sample_env
              cfg E) as (_ & _ & _ & _ & _ & _ & _ & Hk & Hp & _).
  split; [exact Hp | exact Hk].
Defined.

Lemma environment_threshold_is_whole_witness :
  ∃ cfg q,
    ConfigManager.new numeral_parseInt sample_env = Returns cfg ∧
    ConfigManager.threshold (ConfigManager.textModel (ConfigManager.ml cfg))
      = Finite q ∧
    (q == 0 ∨ q == 1)%Q.
Proof.
  destruct (ConfigManager.new numeral_parseInt sample_env) as [cfg|e] eqn:E;
    [|vm_compute in E; discriminate E].
  pose proof (environment_threshold_is_whole numeral_parseInt sample_env
                cfg numeral_parseInt_whole E) as H.
  cbv zeta in H. destruct H as (H & _).
  destruct (H eq_refl) as (q & Hq & Hw).
  exists cfg, q. split; [reflexivity|]. split; [exact Hq | exact Hw].
Defined.

(** * Properties in the arithmetic of the runtime *)

(** ** Rounding to the nearest double *)

Section Rounding.
Import Double.

Lemma rne_bounds (x : Q) : Qfloor x ≤ rne x ∧ rne x ≤ Qceiling x.
Proof.
  unfold rne.
  pose proof (Qfloor_le x) as Hf. pose proof (Qle_ceiling x) as Hc.
  assert (Hfc : Qfloor x ≤ Qceiling x).
  { rewrite Zle_Qle. lra. }
  assert (Hup : (inject_Z (Qfloor x) < x)%Q → Qfloor x + 1 ≤ Qceiling x).
  { intros Hlt. assert (H : Qfloor x < Qceiling x) by (rewrite Zlt_Qlt; lra).
    lia. }
  destruct (x - inject_Z (Qfloor x) ?= 1 # 2)%Q eqn:E.
  - apply Qeq_alt in E. destruct (Z.even (Qfloor x)); [lia|].
    split; [lia|]. apply Hup. lra.
  - lia.
  - apply Qgt_alt in E. split; [lia|]. apply Hup. lra.
Qed.

Lemma rne_at_least (n : Z) (x : Q) : (inject_Z n <= x)%Q → n ≤ rne x.
Proof.
  intros H. apply Qfloor_resp_le in H. rewrite Qfloor_Z in H.
  pose proof (rne_bounds x). lia.
Qed.

Lemma rne_at_most (n : Z) (x : Q) : (x <= inject_Z n)%Q → rne x ≤ n.
Proof.
  intros H. apply Qceiling_resp_le in H. rewrite Qceiling_Z in H.
  pose proof (rne_bounds x). lia.
Qed.

Lemma binade_small (q : Q) :
  (0 < q)%Q → (q < inject_Z (2 ^ 53))%Q → binade q ≤ 52.
Proof.
  intros Hpos Hlt. unfold binade. destruct (Qle_bool 1 q) eqn:E.
  - apply Qle_bool_iff in E.
    assert (H1 : 1 ≤ Qfloor q).
    { change 1 with (Qfloor 1). by apply Qfloor_resp_le. }
    assert (H2 : Qfloor q < 2 ^ 53).
    { rewrite Zlt_Qlt. pose proof (Qfloor_le q). lra. }
    apply Z.log2_lt_pow2 in H2; lia.
  - pose proof (Z.log2_up_nonneg (Qceiling (/ q))). lia.
Qed.

(** In the last place of a positive number the number is at least one
    unit, unless it is below the least subnormal number. *)
Lemma binade_unit (q : Q) :
  (0 < q)%Q → binade q ≤ 52 →
  (1 <= q * inject_Z (2 ^ (52 - binade q)))%Q.
Proof.
  intros Hpos Hb. unfold binade in *. destruct (Qle_bool 1 q) eqn:E.
  - apply Qle_bool_iff in E.
    assert (Hp : 1 ≤ 2 ^ (52 - Z.log2 (Qfloor q))).
    { apply (Z.pow_le_mono_r 2 0); lia. }
    rewrite Zle_Qle in Hp. change (inject_Z 1) with 1%Q in Hp.
    set (p := inject_Z _) in *. nra.
  - apply Qle_bool_false in E.
    set (c := Qceiling (/ q)) in *.
    assert (Hinv : (0 < / q)%Q) by (by apply Qinv_lt_0_compat).
    assert (Hc : 0 < c) by (by apply Qceiling_pos).
    pose proof (Z.log2_log2_up_spec c Hc) as [_ Hup].
    pose proof (Z.log2_up_nonneg c) as HL.
    assert (Hp : c ≤ 2 ^ (52 - - Z.log2_up c)).
    { etransitivity; [exact Hup|]. apply Z.pow_le_mono_r; lia. }
    rewrite Zle_Qle in Hp. set (p := inject_Z (2 ^ _)) in *.
    pose proof (Qle_ceiling (/ q)) as Hq. fold c in Hq.
    assert (Hone : (q * / q == 1)%Q) by (field; lra).
    assert (Hmul : (q * / q <= q * p)%Q).
    { apply Qmult_le_l; [done | lra]. }
    lra.
Qed.

(** A positive number below [2^53] is rounded to a multiple of a
    [2^(-j)], so that it does not cross an integer. *)
Lemma round_pos_small (q : Q) (lo hi : Z) :
  (0 < q)%Q → (inject_Z lo <= q)%Q → (q <= inject_Z hi)%Q → hi < 2 ^ 53 →
  ∃ r, round_pos q = Finite r ∧
       (inject_Z lo <= r)%Q ∧ (r <= inject_Z hi)%Q ∧
       ((1 <= q * inject_Z (2 ^ 1074))%Q → (0 < r)%Q).
Proof.
  intros Hpos Hlo Hhi Hbound.
  assert (Hlt : (q < inject_Z (2 ^ 53))%Q).
  { rewrite Zlt_Qlt in Hbound. lra. }
  pose proof (binade_small q Hpos Hlt) as Hb.
  pose proof (binade_unit q Hpos Hb) as Hunit.
  unfold round_pos, last_place.
  set (k := Z.max (binade q - 52) (- 1074)) in *.
  assert (Hk : k ≤ 0) by lia.
  rewrite (proj2 (Z.leb_le k 0) Hk).
  assert (Hs : 0 < 2 ^ (- k)) by (apply Z.pow_pos_nonneg; lia).
  set (s := 2 ^ (- k)) in *.
  assert (HsQ : (0 < inject_Z s)%Q).
  { rewrite Zlt_Qlt in Hs. exact Hs. }
  set (m := rne (q * inject_Z s)).
  assert (Hm1 : lo * s ≤ m).
  { apply rne_at_least. rewrite inject_Z_mult. nra. }
  assert (Hm2 : m ≤ hi * s).
  { apply rne_at_most. rewrite inject_Z_mult. nra. }
  rewrite Zle_Qle, inject_Z_mult in Hm1, Hm2.
  assert (Hr1 : (inject_Z lo <= inject_Z m / inject_Z s)%Q).
  { apply Qle_shift_div_l; [done | lra]. }
  assert (Hr2 : (inject_Z m / inject_Z s <= inject_Z hi)%Q).
  { apply Qle_shift_div_r; [done | lra]. }
  assert (Hfin : Qle_bool (inject_Z (2 ^ 1024)) (inject_Z m / inject_Z s)
                 = false).
  { apply Qle_bool_false.
    assert (H : 2 ^ 53 < 2 ^ 1024) by (apply Z.pow_lt_mono_r; lia).
    assert (H' : hi < 2 ^ 1024) by lia.
    rewrite Zlt_Qlt in H'. lra. }
  rewrite Hfin. eexists. split; [reflexivity|]. rewrite !Qred_correct.
  split; [done|]. split; [done|].
  intros Htiny.
  assert (Hge : (1 <= q * inject_Z s)%Q).
  { subst s k. destruct (Z.max_spec (binade q - 52) (- 1074))
      as [[_ ->] | [_ ->]].
    - exact Htiny.
    - replace (- (binade q - 52)) with (52 - binade q) by lia. exact Hunit. }
  assert (H1 : 1 ≤ m) by (by apply rne_at_least).
  rewrite Zle_Qle in H1. change (inject_Z 1) with 1%Q in H1.
  apply Qlt_shift_div_l; [done|]. lra.
Qed.

Lemma round_zero (q : Q) : (q == 0)%Q → round q = Finite 0.
Proof. intros H. unfold round. apply Qeq_alt in H. by rewrite H. Qed.

(** A number from a positive integer up to an integer below [2^53] is
    rounded without crossing either. *)
Lemma round_between (q : Q) (lo hi : Z) :
  0 < lo → (inject_Z lo <= q)%Q → (q <= inject_Z hi)%Q → hi < 2 ^ 53 →
  ∃ r, round q = Finite r ∧ (inject_Z lo <= r)%Q ∧ (r <= inject_Z hi)%Q.
Proof.
  intros Hlo H1 H2 Hhi.
  assert (Hpos : (0 < q)%Q).
  { rewrite Zlt_Qlt in Hlo. change (inject_Z 0) with 0%Q in Hlo. lra. }
  destruct (round_pos_small q lo hi Hpos H1 H2 Hhi) as (r & E & Hr1 & Hr2 & _).
  exists r. unfold round. apply Qgt_alt in Hpos. by rewrite Hpos.
Qed.

(** A number within an integer bound below [2^53] stays within it. *)
Lemma round_within (q : Q) (bound : Z) :
  (- inject_Z bound <= q)%Q → (q <= inject_Z bound)%Q → bound < 2 ^ 53 →
  ∃ r, round q = Finite r ∧
       (- inject_Z bound <= r)%Q ∧ (r <= inject_Z bound)%Q.
Proof.
  intros H1 H2 Hb. unfold round.
  assert (H0 : (0 <= inject_Z bound)%Q) by lra.
  destruct (q ?= 0)%Q eqn:E.
  - exists 0%Q. split; [done|]. lra.
  - assert (Hneg : (q < 0)%Q) by exact (proj2 (Qlt_alt q 0) E).
    destruct (round_pos_small (- q) 0 bound) as (r & -> & Hr1 & Hr2 & _);
      [lra | change (inject_Z 0) with 0%Q; lra | lra | done |].
    exists (- r)%Q. change (inject_Z 0) with 0%Q in Hr1.
    split; [done|]. lra.
  - assert (Hpos : (0 < q)%Q) by exact (proj2 (Qgt_alt q 0) E).
    destruct (round_pos_small q 0 bound Hpos) as (r & -> & Hr1 & Hr2 & _);
      [change (inject_Z 0) with 0%Q; lra | done | done |].
    exists r. change (inject_Z 0) with 0%Q in Hr1. split; [done|]. lra.
Qed.

(** An integer below [2^53] in absolute value is a double. *)
Lemma round_integer (q : Q) (z : Z) :
  (q == inject_Z z)%Q → - 2 ^ 53 < z → z < 2 ^ 53 →
  ∃ r, round q = Finite r ∧ (r == inject_Z z)%Q.
Proof.
  intros Hq H1 H2. unfold round. destruct (q ?= 0)%Q eqn:E.
  - assert (Hz : (q == 0)%Q) by exact (proj2 (Qeq_alt q 0) E).
    exists 0%Q. split; [done|]. lra.
  - assert (Hneg : (q < 0)%Q) by exact (proj2 (Qlt_alt q 0) E).
    destruct (round_pos_small (- q) (- z) (- z)) as (r & -> & Hr1 & Hr2 & _);
      [lra | rewrite inject_Z_opp; lra | rewrite inject_Z_opp; lra | lia |].
    exists (- r)%Q. rewrite inject_Z_opp in Hr1, Hr2. split; [done|]. lra.
  - assert (Hpos : (0 < q)%Q) by exact (proj2 (Qgt_alt q 0) E).
    destruct (round_pos_small q z z Hpos) as (r & -> & Hr1 & Hr2 & _);
      [lra | lra | done |].
    exists r. split; [done|]. lra.
Qed.

Lemma Qred_inject_Z (z : Z) : Qred (inject_Z z) = inject_Z z.
Proof.
  unfold Qred, inject_Z.
  pose proof (Z.ggcd_gcd z 1) as Hg.
  pose proof (Z.ggcd_correct_divisors z 1) as Hd.
  destruct (Z.ggcd z 1) as [g [a b]]. simpl in Hg, Hd.
  rewrite Z.gcd_1_r in Hg. subst g. destruct Hd as [Ha Hb].
  assert (Ea : a = z) by lia. assert (Eb : b = 1) by lia.
  by subst a b.
Qed.

(** A double is kept in lowest terms. *)
Lemma round_lowest_terms (q r : Q) : round q = Finite r → Qred r = r.
Proof.
  assert (Hpos : ∀ x y, round_pos x = Finite y → Qred y = y).
  { intros x y. unfold round_pos. destruct (Qle_bool _ _); [done|].
    intros [= <-]. apply Qred_complete, Qred_correct. }
  unfold round. destruct (q ?= 0)%Q.
  - by intros [= <-].
  - destruct (round_pos (- q)) as [y| | |] eqn:E; try done.
    intros [= <-]. by rewrite Qred_opp, (Hpos _ _ E).
  - apply Hpos.
Qed.

(** Rounding an integer below [2^53] in absolute value gives the
    integer. *)
Lemma round_whole (q : Q) (z : Z) :
  (q == inject_Z z)%Q → - 2 ^ 53 < z → z < 2 ^ 53 →
  round q = Finite (inject_Z z).
Proof.
  intros Hq H1 H2. destruct (round_integer q z Hq H1 H2) as (r & E & Hr).
  rewrite E. f_equal. rewrite <- (round_lowest_terms _ _ E).
  rewrite (Qred_complete _ _ Hr). apply Qred_inject_Z.
Qed.

End Rounding.

(** ** The limiter in doubles on the Redis model *)

Section LimiterProofs.
Import Redis.
Context (cfg : RedisConfig) {json : MembersJSON}.

(** [set] with a whole number of seconds, or none, is accepted. *)
Lemma set_whole_seconds key val (q : Q) w :
  next_ok (faults w) → is_integer q →
  ∃ exp cmd,
    CacheManager.set cfg key val (Some (Finite q)) w =
      (Returns tt,
       {| keyspace :=
            <[keyPrefix cfg +:+ key := mkEntry val exp]> (keyspace w);
          clock := clock w; faults := tail (faults w);
          sent := cmd :: sent w;
          log := mkLog Debug "Cache value set successfully" :: log w |}) ∧
    live (clock w) (mkEntry val exp) = true.
Proof.
  intros Hf Hq. world w. unfold CacheManager.set.
  set (ttl0 := if truthy_number (Finite q) then Finite q
               else Finite (inject_Z (ttl cfg))).
  assert (Httl : ttl0 = NegInfinity ∨ ∃ q0, ttl0 = Finite q0 ∧ is_integer q0).
  { right. subst ttl0. destruct (truthy_number (Finite q));
      eexists; (split; [reflexivity|]); [done | apply is_integer_inject]. }
  destruct (write_ok (keyPrefix cfg +:+ key) val ttl0 ks clk fs snt lg Hf Httl)
    as (exp & cmd & Hw & Hlive).
  exists exp, cmd. split; [|done].
  unfold tryCatch, bind. rewrite Hw. run_redis. done.
Qed.

(** The time to live of a bucket: twice the ceiling of the rounded
    quotient, a whole number, when the rate is not zero and the quotient
    is at most [2^51] in absolute value. *)
Lemma bucket_ttl_whole (M R : Q) :
  ¬ (R == 0)%Q → (Qabs (M / R) <= inject_Z (2 ^ 51))%Q →
  ∃ q,
    Double.round (M / R) = Finite q ∧
    Limiter.bucket_ttl M R = Finite (inject_Z (2 * Qceiling q)).
Proof.
  intros HR Hab. apply Qabs_Qle_condition in Hab as [H1 H2].
  assert (Hp : 2 ^ 51 < 2 ^ 53) by (apply Z.pow_lt_mono_r; lia).
  destruct (round_within (M / R) (2 ^ 51) H1 H2 Hp) as (q & Eq & Hq1 & Hq2).
  exists q. unfold Limiter.bucket_ttl, Double.div.
  assert (ER : Qeq_bool R 0 = false).
  { apply not_true_is_false. intros E. by apply Qeq_bool_iff in E. }
  rewrite ER, Eq. unfold Math_ceil, Double.mul.
  assert (Hc1 : - 2 ^ 51 ≤ Qceiling q).
  { rewrite Zle_Qle, inject_Z_opp. pose proof (Qle_ceiling q). lra. }
  assert (Hc2 : Qceiling q ≤ 2 ^ 51).
  { apply Qceiling_resp_le in Hq2. by rewrite Qceiling_Z in Hq2. }
  split; [done|]. apply round_whole; [rewrite inject_Z_mult; ring | lia | lia].
Qed.

(** When the read goes through and what is stored can be read, the
    refill is the one of the specification; what is left is the
    decision. *)
Lemma limiter_after_read id (M R req : Q) w :
  read_succeeds w → readable cfg id w →
  let avail := refilled_double M R (clock w) (storedMembers cfg id w) in
  Limiter.rateLimitCheck cfg id M R req w =
    tryCatch
      (if Double.ge avail (Finite req) then
         CacheManager.set cfg ("rate_limit:" +:+ id)
           (JSON_stringify_bucket (Double.sub avail (Finite req)) (clock w))
           (Some (Limiter.bucket_ttl M R)) ;;;
         CacheManager.logger Debug "Rate limit check passed" ;;;
         ret true
       else
         CacheManager.logger Debug "Rate limit check failed" ;;;
         ret false)
      (λ error,
         CacheManager.logger Error "Rate limit check failed" ;;; ret true)
      {| keyspace := keyspace w; clock := clock w; faults := tail (faults w);
         sent := GET (bucketKey cfg id) :: sent w;
         log := mkLog Debug "Cache value retrieved" :: log w |}.
Proof.
  intros Hf Hwf avail.
  assert (Hrefill :
    ∀ w1, (match Redis.value <$> lookup w (bucketKey cfg id) with
           | Some data =>
               if truthy_string data
               then Limiter.refill data (clock w) M R
               else ret (Finite M)
           | None => ret (Finite M)
           end) w1 = (Returns avail, w1)).
  { intros w1. subst avail. unfold storedMembers, readable in *.
    destruct (lookup w (bucketKey cfg id)) as [e|] eqn:El; simpl; [|done].
    destruct (truthy_string (Redis.value e)) eqn:Et; [|done].
    destruct (Hwf e eq_refl Et) as (t & l & Hb). unfold Limiter.refill.
    rewrite Hb. done. }
  unfold Limiter.rateLimitCheck.
  unfold bind at 1. unfold CacheManager.Date_now at 1. unfold tryCatch.
  unfold bind at 1.
  rewrite (get_succeeds cfg _ w Hf).
  change (keyPrefix cfg +:+ ("rate_limit:" +:+ id)) with (bucketKey cfg id).
  unfold bind at 1. rewrite Hrefill. reflexivity.
Qed.

(** What is read back from a keyspace in which a bucket was written. *)
Lemma storedMembers_insert w' id tokens now exp ks :
  keyspace w' =
    <[bucketKey cfg id := mkEntry (JSON_stringify_bucket tokens now) exp]> ks →
  storedMembers cfg id w' =
    if live (clock w') (mkEntry (JSON_stringify_bucket tokens now) exp)
    then Some (as_written tokens, Finite (inject_Z now))
    else None.
Proof.
  intros H. unfold storedMembers.
  rewrite (lookup_insert_live _ _ _ _ _ H).
  destruct (live _ _); [|done]. simpl.
  by rewrite JSON_stringify_bucket_truthy, JSON_parse_members_stringify.
Qed.

Lemma readable_insert w' id tokens now exp ks :
  keyspace w' =
    <[bucketKey cfg id := mkEntry (JSON_stringify_bucket tokens now) exp]> ks →
  readable cfg id w'.
Proof.
  intros H e. rewrite (lookup_insert_live _ _ _ _ _ H).
  destruct (live _ _); [|done]. intros [= <-] _. simpl.
  rewrite JSON_parse_members_stringify. by eexists _, _.
Qed.

Lemma readable_absent id w :
  lookup w (bucketKey cfg id) = None → readable cfg id w.
Proof. intros H e. by rewrite H. Qed.

Lemma storedMembers_absent id w :
  lookup w (bucketKey cfg id) = None → storedMembers cfg id w = None.
Proof. intros H. unfold storedMembers. by rewrite H. Qed.

(** The two outcomes of a check on a store that does not fail, with a
    time to live that is a whole number. *)
Lemma limiter_run id (M R req : Q) w :
  read_succeeds w → next_ok (tail (faults w)) → readable cfg id w →
  ¬ (R == 0)%Q → (Qabs (M / R) <= inject_Z (2 ^ 51))%Q →
  let avail := refilled_double M R (clock w) (storedMembers cfg id w) in
  let written :=
    JSON_stringify_bucket (Double.sub avail (Finite req)) (clock w) in
  if Double.ge avail (Finite req) then
    ∃ exp cmd,
      Limiter.rateLimitCheck cfg id M R req w =
        (Returns true,
         {| keyspace :=
              <[bucketKey cfg id := mkEntry written exp]> (keyspace w);
            clock := clock w; faults := tail (tail (faults w));
            sent := cmd :: GET (bucketKey cfg id) :: sent w;
            log := mkLog Debug "Rate limit check passed"
                   :: mkLog Debug "Cache value set successfully"
                   :: mkLog Debug "Cache value retrieved" :: log w |}) ∧
      live (clock w) (mkEntry written exp) = true
  else
    Limiter.rateLimitCheck cfg id M R req w =
      (Returns false,
       {| keyspace := keyspace w; clock := clock w;
          faults := tail (faults w);
          sent := GET (bucketKey cfg id) :: sent w;
          log := mkLog Debug "Rate limit check failed"
                 :: mkLog Debug "Cache value retrieved" :: log w |}).
Proof.
  intros Hf Hnext Hwf HR Hab avail written.
  rewrite (limiter_after_read id M R req w Hf Hwf).
  fold avail. destruct (Double.ge avail (Finite req)) eqn:Hge.
  - destruct (bucket_ttl_whole M R HR Hab) as (q & _ & Ettl).
    rewrite Ettl. unfold tryCatch. unfold bind at 1.
    match goal with |- context [CacheManager.set cfg ?k ?v ?n ?w1] =>
      destruct (set_whole_seconds k v (inject_Z (2 * Qceiling q)) w1 Hnext
                  (is_integer_inject _))
        as (exp & cmd & Hs & Hl) end.
    exists exp, cmd.
    change (keyPrefix cfg +:+ ("rate_limit:" +:+ id))
      with (bucketKey cfg id) in *.
    simpl in Hs, Hl. fold written in Hs, Hl |- *.
    rewrite Hs. run_redis. split; [reflexivity | exact Hl].
  - run_redis. done.
Qed.

(** The algorithm of the specification in doubles. *)
Lemma limiter_algorithm id (M R req : Q) w :
  read_succeeds w → next_ok (tail (faults w)) → readable cfg id w →
  ¬ (R == 0)%Q → (Qabs (M / R) <= inject_Z (2 ^ 51))%Q →
  let avail := refilled_double M R (clock w) (storedMembers cfg id w) in
  ∃ w',
    Limiter.rateLimitCheck cfg id M R req w
      = (Returns (Double.ge avail (Finite req)), w') ∧
    clock w' = clock w ∧
    (Double.ge avail (Finite req) = true →
       faults w' = tail (tail (faults w)) ∧
       readable cfg id w' ∧
       storedMembers cfg id w' =
         Some (as_written (Double.sub avail (Finite req)),
               Finite (inject_Z (clock w)))) ∧
    (Double.ge avail (Finite req) = false →
       faults w' = tail (faults w) ∧ keyspace w' = keyspace w).
Proof.
  intros Hf Hnext Hwf HR Hab avail.
  pose proof (limiter_run id M R req w Hf Hnext Hwf HR Hab) as H.
  cbv zeta in H. fold avail in H.
  destruct (Double.ge avail (Finite req)) eqn:Hge.
  - destruct H as (exp & cmd & -> & Hl).
    eexists. split; [reflexivity|]. split; [reflexivity|].
    split; [|done]. intros _. split; [reflexivity|].
    split; [by eapply readable_insert|].
    erewrite storedMembers_insert by reflexivity. simpl. by rewrite Hl.
  - rewrite H. eexists. split; [reflexivity|]. split; [reflexivity|].
    split; [done|]. intros _. done.
Qed.

End LimiterProofs.

(** ** The token bucket in doubles *)

Section RefillInDoubles.
Import Double.

(** A positive number below [2^53] and above the least subnormal number
    is rounded to a positive number. *)
Lemma round_positive (q : Q) (hi : Z) :
  (0 < q)%Q → (q <= inject_Z hi)%Q → hi < 2 ^ 53 →
  (1 <= q * inject_Z (2 ^ 1074))%Q →
  ∃ r, round q = Finite r ∧ (0 < r)%Q ∧ (r <= inject_Z hi)%Q.
Proof.
  intros Hpos Hhi Hb Htiny.
  destruct (round_pos_small q 0 hi Hpos) as (r & E & _ & Hr & Hr0);
    [change (inject_Z 0) with 0%Q; lra | done | done |].
  exists r. unfold round.
  rewrite (proj1 (Qgt_alt q 0) Hpos). split; [done|]. split; [auto | done].
Qed.

(** At the instant of the write nothing is refilled. *)
Lemma no_time_no_refill_double (M R : Q) (t0 : Z) (tokens : Q) :
  - 2 ^ 53 < Qfloor tokens → Qfloor tokens < 2 ^ 53 →
  (tokens == inject_Z (Qfloor tokens))%Q →
  ∃ r, Double.add (Finite tokens)
         (floor (mul (div (sub (Finite (inject_Z t0)) (Finite (inject_Z t0)))
                        (Finite 1000)) (Finite R)))
       = Finite r ∧ (r == tokens)%Q.
Proof.
  intros H1 H2 Hint. unfold sub, neg, add at 2.
  rewrite round_zero by ring.
  unfold div. change (Qeq_bool 1000 0) with false. cbv iota.
  rewrite round_zero by reflexivity.
  unfold mul. rewrite round_zero by ring.
  unfold floor. change (inject_Z (Qfloor 0)) with 0%Q. unfold add.
  destruct (round_integer (tokens + 0) (Qfloor tokens)) as (r & -> & Hr);
    [lra | done | done |].
  exists r. split; [done|]. lra.
Qed.

(** A second or more after a write at rate [1], at least one token is
    refilled. *)
Lemma one_second_refills_double (t0 t : Z) :
  0 ≤ t0 → t0 + 1000 ≤ t → t < 2 ^ 53 →
  ∃ r, Double.add (Finite 0)
         (floor (mul (div (sub (Finite (inject_Z t)) (Finite (inject_Z t0)))
                        (Finite 1000)) (Finite 1)))
       = Finite r ∧ (1 <= r)%Q.
Proof.
  intros H0 H1 H2. set (hi := 2 ^ 53 - 1).
  assert (Hhi : hi < 2 ^ 53) by (subst hi; lia).
  assert (Ht : (inject_Z t <= inject_Z hi)%Q).
  { rewrite <- Zle_Qle. subst hi. lia. }
  assert (Ht0 : (0 <= inject_Z t0)%Q).
  { change 0%Q with (inject_Z 0). by rewrite <- Zle_Qle. }
  assert (Hd : (inject_Z 1000 <= inject_Z t + - inject_Z t0)%Q).
  { rewrite <- inject_Z_opp, <- inject_Z_plus, <- Zle_Qle. lia. }
  unfold sub, neg, add at 2.
  destruct (round_between (inject_Z t + - inject_Z t0) 1000 hi)
    as (r1 & -> & Ha1 & Hb1); [lia | done | lra | done |].
  change (inject_Z 1000) with 1000%Q in Ha1.
  unfold div. change (Qeq_bool 1000 0) with false. cbv iota.
  destruct (round_between (r1 / 1000) 1 hi) as (r2 & -> & Ha2 & Hb2);
    [lia | | | done |].
  { change (inject_Z 1) with 1%Q. apply Qle_shift_div_l; lra. }
  { apply Qle_shift_div_r; [lra|]. nra. }
  change (inject_Z 1) with 1%Q in Ha2.
  unfold mul.
  destruct (round_between (r2 * 1) 1 hi) as (r3 & -> & Ha3 & Hb3);
    [lia | change (inject_Z 1) with 1%Q; lra | lra | done |].
  unfold floor, add.
  assert (Hf1 : 1 ≤ Qfloor r3).
  { change 1 with (Qfloor (inject_Z 1)). by apply Qfloor_resp_le. }
  assert (Hf2 : Qfloor r3 ≤ hi).
  { rewrite Zle_Qle. pose proof (Qfloor_le r3). lra. }
  rewrite Zle_Qle in Hf1, Hf2.
  destruct (round_between (0 + inject_Z (Qfloor r3)) 1 hi)
    as (r4 & -> & Ha4 & Hb4); [lia | lra | lra | done |].
  exists r4. split; [done|]. exact Ha4.
Qed.

End RefillInDoubles.

Section LimiterClaims.
Import Redis.
Context (cfg : RedisConfig) {json : MembersJSON}.

Lemma ten_over_one : (Qabs (10 / 1) <= inject_Z (2 ^ 51))%Q.
Proof. apply Qabs_Qle_condition. split; by vm_compute. Qed.

(** The scenario of the specification: a bucket of ten tokens refilled at
    one token per second, emptied at once. *)
Lemma limiter_scenario id w :
  faults w = [] → lookup w (bucketKey cfg id) = None → 0 ≤ clock w →
  ∃ w1 w2,
    Limiter.rateLimitCheck cfg id 10 1 10 w = (Returns true, w1) ∧
    Limiter.rateLimitCheck cfg id 10 1 1 w1 = (Returns false, w2) ∧
    ∀ t, clock w + 1000 ≤ t → t < 2 ^ 53 →
      ∃ w3,
        at_time t (Limiter.rateLimitCheck cfg id 10 1 1) w2
        = (Returns true, w3).
Proof.
  intros Hf Habs H0.
  pose proof (limiter_run cfg id 10 1 10 w (or_introl Hf)) as H1.
  rewrite Hf in H1. specialize (H1 (or_introl eq_refl)
    (readable_absent cfg id w Habs) not_zero_one ten_over_one).
  cbv zeta in H1. rewrite (storedMembers_absent cfg id w Habs) in H1.
  change (Double.ge (refilled_double 10 1 (clock w) None) (Finite 10))
    with true in H1.
  change (Double.sub (refilled_double 10 1 (clock w) None) (Finite 10))
    with (Finite 0) in H1.
  destruct H1 as (exp & cmd & E1 & Hl1).
  match type of E1 with _ = (_, ?x) => set (w1 := x) in * end.
  assert (Hk1 : keyspace w1 =
    <[bucketKey cfg id :=
        mkEntry (JSON_stringify_bucket (Finite 0) (clock w)) exp]>
      (keyspace w)) by reflexivity.
  pose proof (storedMembers_insert cfg w1 _ _ _ _ _ Hk1) as Hs1.
  change (clock w1) with (clock w) in Hs1. rewrite Hl1 in Hs1.
  cbn [as_written] in Hs1.
  (* the request at the same instant *)
  pose proof (limiter_run cfg id 10 1 1 w1 (or_introl eq_refl)
                (or_introl eq_refl) (readable_insert cfg w1 _ _ _ _ _ Hk1)
                not_zero_one ten_over_one) as H2.
  cbv zeta in H2. rewrite Hs1 in H2.
  change (clock w1) with (clock w) in H2.
  assert (Hnone : ∃ r, refilled_double 10 1 (clock w)
                         (Some (Finite 0, Finite (inject_Z (clock w))))
                       = Finite r ∧ (r == 0)%Q).
  { unfold refilled_double.
    destruct (no_time_no_refill_double 10 1 (clock w) 0)
      as (r & -> & Hr); [by vm_compute | by vm_compute | reflexivity |].
    exists r. split; [|done]. unfold Double.min.
    destruct (Qle_bool 10 r) eqn:E; [|done].
    apply Qle_bool_iff in E. lra. }
  destruct Hnone as (r & Er & Hr). rewrite Er in H2.
  assert (Hden : Double.ge (Finite r) (Finite 1) = false).
  { unfold Double.ge. apply Qle_bool_false. lra. }
  rewrite Hden in H2.
  match type of H2 with _ = (_, ?x) => set (w2 := x) in * end.
  exists w1, w2. split; [exact E1|]. split; [exact H2|].
  (* a second or more later *)
  intros t Ht1 Ht2. unfold at_time.
  assert (Hk3 : keyspace (with_clock t w2) =
    <[bucketKey cfg id :=
        mkEntry (JSON_stringify_bucket (Finite 0) (clock w)) exp]>
      (keyspace w)) by reflexivity.
  pose proof (limiter_run cfg id 10 1 1 (with_clock t w2) (or_introl eq_refl)
                (or_introl eq_refl) (readable_insert cfg _ _ _ _ _ _ Hk3)
                not_zero_one ten_over_one) as H3.
  cbv zeta in H3.
  rewrite (storedMembers_insert cfg _ _ _ _ _ _ Hk3) in H3.
  cbn [as_written] in H3. change (clock (with_clock t w2)) with t in H3.
  assert (Hall : Double.ge
    (refilled_double 10 1 t
       (if live t (mkEntry (JSON_stringify_bucket (Finite 0) (clock w)) exp)
        then Some (Finite 0, Finite (inject_Z (clock w))) else None))
    (Finite 1) = true).
  { destruct (live t _); [|reflexivity].
    unfold refilled_double.
    destruct (one_second_refills_double (clock w) t H0 Ht1 Ht2)
      as (r' & -> & Hr').
    unfold Double.min, Double.ge.
    destruct (Qle_bool 10 r'); apply Qle_bool_iff; lra. }
  rewrite Hall in H3. destruct H3 as (exp3 & cmd3 & E3 & _).
  eexists. exact E3.
Qed.

(** C1, as amended.  A check on a store that takes both commands, for a
    bucket that can be read, with a rate that is not zero and a quotient
    [maxTokens / refillRate] of at most [2^51] in absolute value, follows
    the token bucket algorithm in the arithmetic of doubles: with no
    bucket stored the bucket counts as full, otherwise the tokens are
    refilled to [min(maxTokens, tokens + floor(elapsed × refillRate))],
    each operation giving the nearest double; the check is allowed iff
    the refilled tokens reach the request; an allowed check persists the
    refilled tokens less the request with [lastRefill = now], a denied
    check leaves the keyspace as it was.  In particular, with
    [maxTokens = 10] and [refillRate = 1], after ten tokens are consumed
    a request for one more at the same instant is denied, and a request
    for one at any instant a second or more later is allowed. *)
Theorem token_bucket_check id :
  (∀ (M R req : Q) w,
     read_succeeds w → next_ok (tail (faults w)) → readable cfg id w →
     ¬ (R == 0)%Q → (Qabs (M / R) <= inject_Z (2 ^ 51))%Q →
     let avail := refilled_double M R (clock w) (storedMembers cfg id w) in
     ∃ w',
       Limiter.rateLimitCheck cfg id M R req w
         = (Returns (Double.ge avail (Finite req)), w') ∧
       (Double.ge avail (Finite req) = true →
          storedMembers cfg id w' =
            Some (as_written (Double.sub avail (Finite req)),
                  Finite (inject_Z (clock w)))) ∧
       (Double.ge avail (Finite req) = false →
          keyspace w' = keyspace w)) ∧
  (∀ w,
     faults w = [] → lookup w (bucketKey cfg id) = None → 0 ≤ clock w →
     ∃ w1 w2,
       Limiter.rateLimitCheck cfg id 10 1 10 w = (Returns true, w1) ∧
       Limiter.rateLimitCheck cfg id 10 1 1 w1 = (Returns false, w2) ∧
       ∀ t, clock w + 1000 ≤ t → t < 2 ^ 53 →
         ∃ w3,
           at_time t (Limiter.rateLimitCheck cfg id 10 1 1) w2
           = (Returns true, w3)).
Proof.
  split.
  - intros M R req w Hf Hn Hr HR Hab avail.
    destruct (limiter_algorithm cfg id M R req w Hf Hn Hr HR Hab)
      as (w' & E & _ & Hyes & Hno).
    exists w'. split; [exact E|]. split.
    + intros H. by destruct (Hyes H) as (_ & _ & Hs).
    + intros H. by destruct (Hno H).
  - intros w. apply limiter_scenario.
Qed.

(** C8, as amended.  When [maxTokens] and [refillRate] are positive and
    their quotient is from [2^-1074] to [2^51], an allowed check on a
    healthy store persists the bucket with an expiry of exactly
    [2 × ceil(q)] seconds, where [q] is the double nearest to
    [maxTokens / refillRate]. *)
Theorem bucket_expiry_is_twice_the_ceiling id (M R req : Q) w w' :
  faults w = [] → (0 < M)%Q → (0 < R)%Q →
  (1 <= M / R * inject_Z (2 ^ 1074))%Q → (M / R <= inject_Z (2 ^ 51))%Q →
  readable cfg id w →
  Limiter.rateLimitCheck cfg id M R req w = (Returns true, w') →
  ∃ q val,
    Double.round (M / R) = Finite q ∧ (0 < q)%Q ∧
    keyspace w' !! bucketKey cfg id =
      Some (mkEntry val (Some (clock w + 1000 * (2 * Qceiling q)))) ∧
    sent w' =
      SETEX (bucketKey cfg id) (Finite (inject_Z (2 * Qceiling q))) val
        :: GET (bucketKey cfg id) :: sent w.
Proof.
  intros Hf HM HR Hlow Hhigh Hread.
  assert (Hquot : (0 < M / R)%Q) by (by apply Qdiv_pos).
  assert (Hp : 2 ^ 51 < 2 ^ 53) by (apply Z.pow_lt_mono_r; lia).
  assert (Hab : (Qabs (M / R) <= inject_Z (2 ^ 51))%Q).
  { apply Qabs_Qle_condition. split; [|done].
    assert (0 <= inject_Z (2 ^ 51))%Q by lra. lra. }
  assert (HR0 : ¬ (R == 0)%Q) by lra.
  destruct (round_positive (M / R) (2 ^ 51) Hquot Hhigh Hp Hlow)
    as (q & Eq & Hq & _).
  destruct (bucket_ttl_whole M R HR0 Hab) as (q' & Eq' & Ettl).
  rewrite Eq in Eq'. injection Eq' as <-.
  assert (Hc : 0 < Qceiling q) by (by apply Qceiling_pos).
  assert (Hv : valid_seconds (inject_Z (2 * Qceiling q)) = true).
  { unfold valid_seconds. rewrite (is_integer_inject _).
    apply negb_true_iff, Qle_bool_false.
    assert (H2 : 0 < 2 * Qceiling q) by lia.
    rewrite Zlt_Qlt in H2. exact H2. }
  rewrite (limiter_after_read cfg id M R req w (or_introl Hf) Hread).
  rewrite Hf, Ettl. cbn [tail].
  destruct (Double.ge _ _).
  - unfold tryCatch. unfold bind at 1.
    rewrite (set_seconds cfg _ _ (inject_Z (2 * Qceiling q))) by done.
    run_redis.
    intros [= <-]. exists q. eexists. split; [done|]. split; [done|].
    cbn [keyspace sent]. rewrite lookup_insert_eq, Z.div_1_r.
    split; reflexivity.
  - run_redis. discriminate.
Qed.

End LimiterClaims.

(** ** The limiter in doubles on the sample inputs *)

(** The refill is computed in doubles: 4350 ms at 100 tokens a second
    refill 434 tokens, [4.35 × 100] being rounded below 435. *)
Example refill_is_rounded :
  refilled_double 1000 100 1700000004350
    (Some (Finite 0, Finite 1700000000000)) = Finite 434 ∧
  Qfloor ((1700000004350 - 1700000000000) / 1000 * 100) = 435.
Proof. split; vm_compute; reflexivity. Qed.

(** A stored string that parses to something without the two members is
    read as a bucket of [NaN] tokens, and the check is denied. *)
Example bucket_without_members_is_denied :
  ∃ w',
    Limiter.rateLimitCheck sample_config "u1" 10 1 1
      (Redis.with_keyspace
         (<[bucketKey sample_config "u1" := Redis.mkEntry "{}" None]>
            (Redis.keyspace sample_world)) sample_world)
    = (Returns false, w') ∧
    Redis.log w' = [mkLog Debug "Rate limit check failed";
                    mkLog Debug "Cache value retrieved"].
Proof. eexists. split; vm_compute; reflexivity. Qed.

(** C1 as stated fails: with [refillRate = 0] the time to live is
    [Infinity], the store refuses the write, and the check is allowed
    although nothing is persisted: the next check finds no bucket. *)
Lemma zero_rate_check_persists_nothing :
  ∃ w',
    Limiter.rateLimitCheck sample_config "u1" 10 0 1 sample_world
      = (Returns true, w') ∧
    Redis.keyspace w' = Redis.keyspace sample_world ∧
    storedMembers sample_config "u1" w' = None ∧
    Redis.sent w' =
      [Redis.SETEX (bucketKey sample_config "u1") PosInfinity
         (JSON_stringify_bucket (Finite 9) 1700000000000);
       Redis.GET (bucketKey sample_config "u1")].
Proof.
  eexists. split; [vm_compute; reflexivity|].
  split; [reflexivity|]. split; reflexivity.
Qed.

(** C1, as amended, on the sample world: a request for three of ten
    tokens, and the scenario of the specification. *)
Lemma token_bucket_check_witness :
  (∃ w',
     Limiter.rateLimitCheck sample_config "u1" 10 1 3 sample_world
       = (Returns true, w') ∧
     storedMembers sample_config "u1" w' =
       Some (Finite 7, Finite 1700000000000)) ∧
  (∃ w1 w2,
     Limiter.rateLimitCheck sample_config "u1" 10 1 10 sample_world
       = (Returns true, w1) ∧
     Limiter.rateLimitCheck sample_config "u1" 10 1 1 w1
       = (Returns false, w2) ∧
     ∃ w3,
       at_time 1700000001000
         (Limiter.rateLimitCheck sample_config "u1" 10 1 1) w2
         = (Returns true, w3)).
Proof.
  destruct (token_bucket_check sample_config "u1") as [Halg Hscen]. split.
  - destruct (Halg 10%Q 1%Q 3%Q sample_world (or_introl eq_refl)
                (or_introl eq_refl)
                (readable_absent sample_config "u1" sample_world eq_refl))
      as (w' & Hrun & Hyes & _);
      [vm_compute; discriminate | vm_compute; discriminate |].
    exists w'. split; [exact Hrun|]. exact (Hyes eq_refl).
  - destruct (Hscen sample_world eq_refl eq_refl)
      as (w1 & w2 & H1 & H2 & H3); [vm_compute; discriminate|].
    exists w1, w2. split; [exact H1|]. split; [exact H2|].
    apply H3; [vm_compute; discriminate | reflexivity].
Defined.

(** C8 as stated fails: with [maxTokens = 10] and [refillRate = 3] the
    bucket is persisted with an expiry of 8 seconds, which is not
    [2 × (10 / 3)] seconds, neither exactly nor in doubles. *)
Lemma bucket_expiry_is_not_twice_the_ratio :
  ∃ w' e,
    Limiter.rateLimitCheck sample_config "u1" 10 3 1 sample_world
      = (Returns true, w') ∧
    Redis.keyspace w' !! bucketKey sample_config "u1" = Some e ∧
    Redis.expireAt e = Some (Redis.clock sample_world + 1000 * 8) ∧
    ¬ (8 == 2 * (10 / 3))%Q ∧
    Double.mul (Finite 2) (Double.div (Finite 10) (Finite 3)) ≠ Finite 8.
Proof.
  eexists _, _. split; [vm_compute; reflexivity|].
  split; [vm_compute; reflexivity|]. split; [reflexivity|].
  split; [intros H; discriminate H | vm_compute; discriminate].
Qed.

(** C8, as amended, on a bucket of three tokens refilled at [0.3] tokens
    a second: the quotient of [3] by the double written [0.3] is rounded
    to [10], and the expiry is 20 seconds. *)
Lemma bucket_expiry_is_twice_the_ceiling_witness :
  ∃ val,
    Redis.keyspace
      (Limiter.rateLimitCheck sample_config "u1" 3
         (5404319552844595 # 18014398509481984) 1 sample_world).2
      !! bucketKey sample_config "u1" =
      Some (Redis.mkEntry val (Some (1700000000000 + 1000 * 20))) ∧
    Redis.sent
      (Limiter.rateLimitCheck sample_config "u1" 3
         (5404319552844595 # 18014398509481984) 1 sample_world).2
      = [Redis.SETEX (bucketKey sample_config "u1") (Finite 20) val;
         Redis.GET (bucketKey sample_config "u1")].
Proof.
  destruct (bucket_expiry_is_twice_the_ceiling sample_config "u1" 3
              (5404319552844595 # 18014398509481984) 1 sample_world
              (Limiter.rateLimitCheck sample_config "u1" 3
                 (5404319552844595 # 18014398509481984) 1 sample_world).2)
    as (q & val & Eq & _ & Hk & Hs);
    [reflexivity | reflexivity | reflexivity
    | vm_compute; discriminate | vm_compute; discriminate
    | exact (readable_absent sample_config "u1" sample_world eq_refl)
    | vm_compute; reflexivity |].
  vm_compute in Eq. injection Eq as <-.
  exists val. split; [exact Hk | exact Hs].
Defined.

(** Past [2^53] the number returned is no longer the counter: the server
    holds [2^53 + 1], the client returns the nearest double, [2^53]. *)
Example increment_reply_is_a_double :
  (Cache.increment sample_config "hits" 1 big_counter_world).1
    = Returns 9007199254740992 ∧
  counter sample_config "hits"
    (Cache.increment sample_config "hits" 1 big_counter_world).2
    = Some 9007199254740993.
Proof. split; vm_compute; reflexivity. Qed.
